(** * arda-notification: fan-out, idempotent store and pull API

    A shallow embedding of the Go sources of the notification service and
    the properties its specification states about them.

    Conventions used throughout:
    - Go [string] is [string]; Go [int] is [Z]; [time.Time] is [Time] (a [Z]);
      [uuid.UUID] is [UUID] (an [N]).
    - A Go [(T, error)] pair is a [result T]; a nil pointer is [None].
    - Go maps are stdpp [gmap]s.  Where Go ranges over a map and the visiting
      order is observable, the order is an explicit argument.
    - The database, the identity provider and the libraries for JSON and JWT
      are the environment: the table is explicit state, a statement rejected
      by the driver is the argument [dbErr], HTTP is a transition on an
      abstract world, decoders are arguments. *)

From Stdlib Require Import ZArith String Ascii List Lia Bool.
From stdpp Require Import gmap strings list fin_maps sorting pretty.

Open Scope string_scope.
Open Scope list_scope.

(** ** Shared vocabulary *)

Definition Time := Z.
Definition UUID := N.

(** A decoded JSON value, Go's [any]: what the code inspects is whether it
    is a string; everything else keeps its text. *)
Inductive any : Type :=
| AnyString (s : string)
| AnyOther (text : string).

(** The type assertion [v.(string)] in its two-result form, on a map lookup:
    the zero value when the key is missing or the value is not a string. *)
Definition as_string (v : option any) : string :=
  match v with Some (AnyString s) => s | _ => "" end.

(** [map[string]any], the notification metadata. *)
Abbreviation Metadata := (gmap string any).

(** A Go [(T, error)] return. *)
Inductive result (A : Type) : Type :=
| Ok (a : A)
| Err (msg : string).
Arguments Ok {A} a.
Arguments Err {A} msg.

Definition is_Err {A} (r : result A) : bool :=
  match r with Ok _ => false | Err _ => true end.

(** ** package domain (cmd/server/main.go, second document) *)

Module domain.

Definition NotificationType := string.
Definition TypeSystem : NotificationType := "SYSTEM".
Definition TypeWorkflow : NotificationType := "WORKFLOW".
Definition TypeCRM : NotificationType := "CRM".
Definition TypeIAM : NotificationType := "IAM".
Definition TypeCustom : NotificationType := "CUSTOM".

Definition TargetScope := string.
Definition ScopeUser : TargetScope := "USER".
Definition ScopeTenant : TargetScope := "TENANT".
Definition ScopePlatform : TargetScope := "PLATFORM".
Definition ScopeRole : TargetScope := "ROLE".

Module Notification.
Record t : Type := mk {
  ID : UUID;
  TenantKey : string;
  UserID : string;
  Type_ : NotificationType;
  Title : string;
  Body : string;
  Metadata_ : Metadata;
  IsRead : bool;
  ReadAt : option Time;
  CreatedAt : Time;
  SourceEventID : string
}.
End Notification.

Module NotificationFilter.
Record t : Type := mk {
  TenantKey : string;
  UserID : string;
  IsRead : option bool;
  Type_ : NotificationType;
  Limit : Z;
  Offset : Z
}.
End NotificationFilter.

Module CreateNotificationInput.
Record t : Type := mk {
  TenantKey : string;
  UserID : string;
  Type_ : NotificationType;
  Title : string;
  Body : string;
  Metadata_ : Metadata;
  SourceEventID : string
}.
End CreateNotificationInput.

Module FanoutInput.
Record t : Type := mk {
  TargetScope_ : TargetScope;
  TargetID : string;
  TenantKey : string;
  Type_ : NotificationType;
  Title : string;
  Body : string;
  Metadata_ : Metadata;
  SourceEventID : string;
  OriginUserID : string
}.
End FanoutInput.

End domain.

(** ** package postgres (unnamed/part_003) and the migration *)

Module postgres.
Import domain.

(** One row of table [notifications]; column names and nullability follow
    migrations/001_create_notifications_table.sql. *)
Record row : Type := mk_row {
  id : UUID;
  tenant_key : string;
  user_id : string;
  type_ : string;
  title : string;
  body : string;
  metadata : Metadata;
  is_read : bool;
  read_at : option Time;
  created_at : Time;
  source_event_id : option string
}.

(** The database behind the pool: the table, in insertion order, and the
    supply [gen_random_uuid()] draws primary keys from. *)
Record db : Type := mk_db {
  notifications : list row;
  uuid_supply : UUID
}.

Definition empty_db : db := mk_db [] 0%N.

(** The seven parameters of one VALUES tuple. *)
Definition values : Type :=
  (string * string * string * string * string * Metadata * option string)%type.

(** [sourceEventID] is a nil pointer (SQL NULL) for the empty string. *)
Definition args (input : CreateNotificationInput.t) : values :=
  (CreateNotificationInput.TenantKey input,
   CreateNotificationInput.UserID input,
   CreateNotificationInput.Type_ input,
   CreateNotificationInput.Title input,
   CreateNotificationInput.Body input,
   CreateNotificationInput.Metadata_ input,
   if bool_decide (CreateNotificationInput.SourceEventID input = "")
   then None else Some (CreateNotificationInput.SourceEventID input)).

(** The arbiter index [idx_notif_source_event]: unique on
    [source_event_id], restricted to [source_event_id IS NOT NULL]. *)
Definition conflicts (sid : option string) (t : list row) : bool :=
  match sid with
  | None => false
  | Some s => existsb (λ r, bool_decide (source_event_id r = Some s)) t
  end.

(** One tuple of [INSERT ... ON CONFLICT (source_event_id) WHERE
    source_event_id IS NOT NULL DO NOTHING RETURNING ...].  Columns that
    are not listed take their defaults: a generated [id], [is_read] FALSE,
    [read_at] NULL, [created_at] NOW(). *)
Definition insert_tuple (now : Time) (v : values) (d : db) : option row * db :=
  let '(tk, uid, ty, ti, bo, me, sid) := v in
  if conflicts sid (notifications d) then (None, d)
  else
    let r := mk_row (uuid_supply d) tk uid ty ti bo me false None now sid in
    (Some r, mk_db (notifications d ++ [r]) (N.succ (uuid_supply d))).

(** A multi-row VALUES list: tuples are proposed one after the other, and
    each sees the rows the same statement has already inserted. *)
Fixpoint insert_values (now : Time) (vs : list values) (d : db) : list row * db :=
  match vs with
  | [] => ([], d)
  | v :: vs' =>
      let '(o, d1) := insert_tuple now v d in
      let '(rs, d2) := insert_values now vs' d1 in
      (match o with Some r => r :: rs | None => rs end, d2)
  end.

(** [scanNotification]: a NULL [source_event_id] scans to the empty
    string. *)
Definition scanNotification (r : row) : Notification.t :=
  Notification.mk (id r) (tenant_key r) (user_id r) (type_ r) (title r)
    (body r) (metadata r) (is_read r) (read_at r) (created_at r)
    (match source_event_id r with Some s => s | None => "" end).

(** [Repository.Create].  [dbErr] is the error, if any, with which the
    driver rejects the statement (other than "no rows"); a rejected
    statement has no effect. *)
Definition Create (dbErr : option string) (now : Time)
    (input : CreateNotificationInput.t) (d : db)
    : result (option Notification.t) * db :=
  match dbErr with
  | Some e => (Err ("insert notification: " +:+ e), d)
  | None =>
      match insert_tuple now (args input) d with
      | (None, d') => (Ok None, d')
      | (Some r, d') => (Ok (Some (scanNotification r)), d')
      end
  end.

(** How a statement sent with [pool.Query] can go wrong.  [Query] itself
    returns the errors of acquiring a connection and of sending and
    preparing the statement: nothing has run.  A statement the server rejects
    while it executes has no effect and delivers no row; [rows.Next()] is
    false at once and only [rows.Err()] tells.  And [Scan] of the row at
    index [k] can fail, after the statement has run. *)
Inductive query_error : Type :=
| QueryError (e : string)
| RowsError (e : string)
| ScanError (k : nat) (e : string).

(** [Repository.BatchCreate].  The loop over the rows ends when
    [rows.Next()] is false and [rows.Err()] is never read: a statement
    rejected while it executes is reported as (nil, nil).  A row that cannot
    be scanned makes the call return the error, after the INSERT has run. *)
Definition BatchCreate (dbErr : option query_error) (now : Time)
    (inputs : list CreateNotificationInput.t) (d : db)
    : result (list Notification.t) * db :=
  match inputs with
  | [] => (Ok [], d)
  | _ =>
      match dbErr with
      | Some (QueryError e) =>
          (Err ("batch insert notifications query failed: " +:+ e), d)
      | Some (RowsError _) => (Ok [], d)
      | Some (ScanError k e) =>
          let '(rs, d') := insert_values now (args <$> inputs) d in
          if decide (k < length rs)%nat
          then (Err ("scan notification: " +:+ e), d')
          else (Ok (scanNotification <$> rs), d')
      | None =>
          let '(rs, d') := insert_values now (args <$> inputs) d in
          (Ok (scanNotification <$> rs), d')
      end
  end.

(** [joinStrings]. *)
Definition joinStrings (parts : list string) (sep : string) : string :=
  match parts with
  | [] => ""
  | first :: rest => foldl (λ result p, result +:+ (sep +:+ p)) first rest
  end.

(** The WHERE clause of [MarkRead] without its [is_read = FALSE] part. *)
Definition owned_by (i : UUID) (tenantKey userID : string) (r : row) : bool :=
  bool_decide (id r = i) && bool_decide (tenant_key r = tenantKey)
  && bool_decide (user_id r = userID).

Definition owner_is (tenantKey userID : string) (r : row) : bool :=
  bool_decide (tenant_key r = tenantKey) && bool_decide (user_id r = userID).

(** [SET is_read = TRUE, read_at = $1]. *)
Definition set_read (now : Time) (r : row) : row :=
  mk_row (id r) (tenant_key r) (user_id r) (type_ r) (title r) (body r)
    (metadata r) true (Some now) (created_at r) (source_event_id r).

(** [UPDATE notifications SET ... WHERE cond]: the new table and the
    number of rows affected. *)
Definition sql_update (cond : row → bool) (f : row → row) (t : list row)
    : list row * Z :=
  ((λ r, if cond r then f r else r) <$> t,
   Z.of_nat (length (filter (λ r, cond r = true) t))).

(** [DELETE FROM notifications WHERE cond]. *)
Definition sql_delete (cond : row → bool) (t : list row) : list row * Z :=
  (filter (λ r, cond r = false) t,
   Z.of_nat (length (filter (λ r, cond r = true) t))).

Definition with_table (d : db) (t : list row) : db := mk_db t (uuid_supply d).

(** [Repository.MarkRead]. *)
Definition MarkRead (dbErr : option string) (now : Time) (i : UUID)
    (tenantKey userID : string) (d : db) : result unit * db :=
  match dbErr with
  | Some e => (Err ("mark read: " +:+ e), d)
  | None =>
      let '(t', affected) :=
        sql_update (λ r, owned_by i tenantKey userID r && negb (is_read r))
          (set_read now) (notifications d) in
      if (affected =? 0)%Z
      then (Err "notification not found or already read", with_table d t')
      else (Ok tt, with_table d t')
  end.

(** [Repository.MarkAllRead]. *)
Definition MarkAllRead (dbErr : option string) (now : Time)
    (tenantKey userID : string) (d : db) : result Z * db :=
  match dbErr with
  | Some e => (Err ("mark all read: " +:+ e), d)
  | None =>
      let '(t', affected) :=
        sql_update (λ r, owner_is tenantKey userID r && negb (is_read r))
          (set_read now) (notifications d) in
      (Ok affected, with_table d t')
  end.

(** [Repository.Delete]. *)
Definition Delete (dbErr : option string) (i : UUID)
    (tenantKey userID : string) (d : db) : result unit * db :=
  match dbErr with
  | Some e => (Err ("delete notification: " +:+ e), d)
  | None =>
      let '(t', affected) :=
        sql_delete (owned_by i tenantKey userID) (notifications d) in
      if (affected =? 0)%Z
      then (Err "notification not found", with_table d t')
      else (Ok tt, with_table d t')
  end.

(** [Repository.PurgeOlderThan]; [cutoff] is [time.Now().AddDate(0,0,-days)]. *)
Definition PurgeOlderThan (dbErr : option string) (cutoff : Time) (d : db)
    : result Z * db :=
  match dbErr with
  | Some e => (Err ("purge notifications: " +:+ e), d)
  | None =>
      let '(t', affected) :=
        sql_delete (λ r, (created_at r <? cutoff)%Z) (notifications d) in
      (Ok affected, with_table d t')
  end.

(** [ORDER BY created_at DESC]. *)
Definition newer_first (a b : row) : Prop := (created_at b ≤ created_at a)%Z.

#[global] Instance newer_first_dec : RelDecision newer_first :=
  λ a b, decide (created_at b ≤ created_at a)%Z.

(** [Repository.List]: filter, [ORDER BY created_at DESC], [OFFSET], [LIMIT].
    Rows with equal [created_at] keep their table order.  As in
    [BatchCreate], [rows.Err()] is never read: a query rejected while it
    executes is reported as (nil, nil). *)
Definition List (dbErr : option query_error) (f : NotificationFilter.t) (d : db)
    : result (list Notification.t) :=
  let matching :=
    filter (λ r,
      (owner_is (NotificationFilter.TenantKey f) (NotificationFilter.UserID f) r
       && match NotificationFilter.IsRead f with
          | Some b => bool_decide (is_read r = b)
          | None => true
          end
       && (bool_decide (NotificationFilter.Type_ f = "")
           || bool_decide (type_ r = NotificationFilter.Type_ f))) = true)
      (notifications d) in
  let ordered := merge_sort newer_first matching in
  let results :=
    scanNotification <$>
      take (Z.to_nat (NotificationFilter.Limit f))
        (drop (Z.to_nat (NotificationFilter.Offset f)) ordered) in
  match dbErr with
  | Some (QueryError e) => Err ("list notifications: " +:+ e)
  | Some (RowsError _) => Ok []
  | Some (ScanError k e) =>
      if decide (k < length results)%nat
      then Err ("scan notification: " +:+ e)
      else Ok results
  | None => Ok results
  end.

(** [Repository.CountUnread]. *)
Definition CountUnread (tenantKey userID : string) (d : db) : Z :=
  Z.of_nat (length (filter
    (λ r, (owner_is tenantKey userID r && negb (is_read r)) = true)
    (notifications d))).

(** [Repository.GetByID]. *)
Definition GetByID (i : UUID) (d : db) : option Notification.t :=
  scanNotification <$> head (filter (λ r, id r = i) (notifications d)).

(** Every call of the repository that can change the table, with the
    environment's choices (driver error, clock reading) as arguments. *)
Inductive call : Type :=
| CallCreate (dbErr : option string) (now : Time)
    (input : CreateNotificationInput.t)
| CallBatchCreate (dbErr : option query_error) (now : Time)
    (inputs : list CreateNotificationInput.t)
| CallMarkRead (dbErr : option string) (now : Time) (i : UUID)
    (tenantKey userID : string)
| CallMarkAllRead (dbErr : option string) (now : Time)
    (tenantKey userID : string)
| CallDelete (dbErr : option string) (i : UUID) (tenantKey userID : string)
| CallPurgeOlderThan (dbErr : option string) (cutoff : Time)
| CallRead.

(** The table after a call.  [List], [GetByID] and [CountUnread] are
    SELECTs ([CallRead]) and leave it as it is. *)
Definition step (c : call) (d : db) : db :=
  match c with
  | CallCreate e now input => snd (Create e now input d)
  | CallBatchCreate e now inputs => snd (BatchCreate e now inputs d)
  | CallMarkRead e now i tk u => snd (MarkRead e now i tk u d)
  | CallMarkAllRead e now tk u => snd (MarkAllRead e now tk u d)
  | CallDelete e i tk u => snd (Delete e i tk u d)
  | CallPurgeOlderThan e cutoff => snd (PurgeOlderThan e cutoff d)
  | CallRead => d
  end.

Definition run (cs : list call) (d : db) : db :=
  foldl (λ d c, step c d) d cs.

(** The inputs a call asks the store to insert. *)
Definition proposed (c : call) : list CreateNotificationInput.t :=
  match c with
  | CallCreate _ _ input => [input]
  | CallBatchCreate _ _ inputs => inputs
  | _ => []
  end.

End postgres.

(** ** package application (unnamed/part_002, internal/application/service.go) *)

Module application.
Import domain.

(** [IAMResolver].  An implementation carries its own state (cache,
    connection), which every call may change. *)
Class IAMResolver (R : Type) : Type := {
  UsersByTenant : string → R → result (list string) * R;
  UsersByRole : string → string → R → result (list string) * R;
  AllActiveUsers : R → result (gmap string (list string)) * R
}.

(** One [go s.hub.Broadcast(tenantKey, userID, n)]. *)
Definition broadcast : Type := (string * string * Notification.t)%type.

Definition Broadcast (n : Notification.t) : broadcast :=
  (Notification.TenantKey n, Notification.UserID n, n).

(** [Service]: the repository is the Postgres one, the hub is the sequence
    of broadcasts handed to it so far. *)
Record Service (R : Type) : Type := mk_Service {
  repo : postgres.db;
  hub : list broadcast;
  resolver : R
}.
Arguments mk_Service {R} repo hub resolver.
Arguments repo {R} s.
Arguments hub {R} s.
Arguments resolver {R} s.

(** [Service.Create]. *)
Definition Create {R : Type} (dbErr : option string) (now : Time)
    (input : CreateNotificationInput.t) (s : Service R)
    : result (option Notification.t) * Service R :=
  match postgres.Create dbErr now input (repo s) with
  | (Err e, d) => (Err ("create notification: " +:+ e), mk_Service d (hub s) (resolver s))
  | (Ok None, d) => (Ok None, mk_Service d (hub s) (resolver s))
  | (Ok (Some n), d) =>
      (Ok (Some n), mk_Service d (hub s ++ [Broadcast n]) (resolver s))
  end.

(** [%q] of a scope in an error text (escapes inside the quotes elided). *)
Definition quoted (s : string) : string :=
  String (ascii_of_nat 34) (s +:+ String (ascii_of_nat 34) EmptyString).

(** The search for [OriginUserID] in [resolveTargets]: two nested loops that
    stop at the first hit. *)
Definition found (origin : string) (result : gmap string (list string)) : bool :=
  existsb (λ '(_, uids), existsb (λ uid, bool_decide (uid = origin)) uids)
    (map_to_list result).

(** The post-resolution step of [resolveTargets]. *)
Definition includeOrigin (input : FanoutInput.t)
    (result : gmap string (list string)) : gmap string (list string) :=
  if bool_decide (FanoutInput.OriginUserID input = "") then result
  else if found (FanoutInput.OriginUserID input) result then result
  else
    let tenant :=
      if bool_decide (FanoutInput.TenantKey input = "") then "master"
      else FanoutInput.TenantKey input in
    <[tenant := default [] (result !! tenant) ++ [FanoutInput.OriginUserID input]]>
      result.

(** [for tk, uids := range all { result[tk] = uids }] into an empty map. *)
Definition copy_map (all : gmap string (list string)) : gmap string (list string) :=
  map_fold (λ tk uids result, <[tk := uids]> result) ∅ all.

(** The [switch] of [resolveTargets]. *)
Definition resolveScope {R : Type} `{IAMResolver R} (input : FanoutInput.t) (r : R)
    : result (gmap string (list string)) * R :=
  let scope := FanoutInput.TargetScope_ input in
  let tenantKey := FanoutInput.TenantKey input in
  let targetID := FanoutInput.TargetID input in
  if bool_decide (scope = ScopeUser) then
    (Ok (<[tenantKey := [targetID]]> ∅), r)
  else if bool_decide (scope = ScopeTenant) then
    match UsersByTenant tenantKey r with
    | (Err e, r') => (Err ("UsersByTenant(" +:+ tenantKey +:+ "): " +:+ e), r')
    | (Ok userIDs, r') => (Ok (<[tenantKey := userIDs]> ∅), r')
    end
  else if bool_decide (scope = ScopeRole) then
    match UsersByRole tenantKey targetID r with
    | (Err e, r') =>
        (Err ("UsersByRole(" +:+ tenantKey +:+ ", " +:+ targetID +:+ "): " +:+ e), r')
    | (Ok userIDs, r') => (Ok (<[tenantKey := userIDs]> ∅), r')
    end
  else if bool_decide (scope = ScopePlatform) then
    match AllActiveUsers r with
    | (Err e, r') => (Err ("AllActiveUsers: " +:+ e), r')
    | (Ok all, r') => (Ok (copy_map all), r')
    end
  else (Err ("unknown target scope: " +:+ quoted scope), r).

(** [Service.resolveTargets]. *)
Definition resolveTargets {R : Type} `{IAMResolver R} (input : FanoutInput.t) (r : R)
    : result (gmap string (list string)) * R :=
  match resolveScope input r with
  | (Err e, r') => (Err e, r')
  | (Ok result, r') => (Ok (includeOrigin input result), r')
  end.

(** The batch [Fanout] builds: one input per user of every entry, in the
    order the entries are visited. *)
Definition flatten (input : FanoutInput.t) (entries : list (string * list string))
    : list CreateNotificationInput.t :=
  entries ≫= λ '(tenantKey, userIDs),
    (λ uid, CreateNotificationInput.mk tenantKey uid
              (FanoutInput.Type_ input) (FanoutInput.Title input)
              (FanoutInput.Body input) (FanoutInput.Metadata_ input)
              (FanoutInput.SourceEventID input)) <$> userIDs.

(** [Service.Fanout].  [order] is the order in which this run of
    [for ... range usersByTenant] visits the map; Go leaves it unspecified. *)
Definition Fanout {R : Type} `{IAMResolver R}
    (order : gmap string (list string) → list (string * list string))
    (dbErr : option postgres.query_error) (now : Time) (input : FanoutInput.t)
    (s : Service R) : result unit * Service R :=
  match resolveTargets input (resolver s) with
  | (Err e, r') =>
      (Err ("resolve fan-out targets: " +:+ e), mk_Service (repo s) (hub s) r')
  | (Ok usersByTenant, r') =>
      let batch := flatten input (order usersByTenant) in
      match batch with
      | [] => (Ok tt, mk_Service (repo s) (hub s) r')
      | _ =>
          match postgres.BatchCreate dbErr now batch (repo s) with
          | (Err e, d) =>
              (Err ("batch create notifications: " +:+ e), mk_Service d (hub s) r')
          | (Ok insertedResults, d) =>
              (Ok tt, mk_Service d (hub s ++ (Broadcast <$> insertedResults)) r')
          end
      end
  end.

(** The guard of [Service.List] on its by-value copy of the filter. *)
Definition List_filter (filter : NotificationFilter.t) : NotificationFilter.t :=
  if (NotificationFilter.Limit filter <=? 0)%Z || (100 <? NotificationFilter.Limit filter)%Z
  then NotificationFilter.mk (NotificationFilter.TenantKey filter)
         (NotificationFilter.UserID filter) (NotificationFilter.IsRead filter)
         (NotificationFilter.Type_ filter) 20 (NotificationFilter.Offset filter)
  else filter.

(** [Service.List]. *)
Definition List {R : Type} (dbErr : option postgres.query_error)
    (filter : NotificationFilter.t) (s : Service R)
    : result (list Notification.t) :=
  postgres.List dbErr (List_filter filter) (repo s).

(** [Service.MarkRead], on an id that [uuid.Parse] accepted. *)
Definition MarkRead {R : Type} (dbErr : option string) (now : Time) (i : UUID)
    (tenantKey userID : string) (s : Service R) : result unit * Service R :=
  let '(res, d) := postgres.MarkRead dbErr now i tenantKey userID (repo s) in
  (res, mk_Service d (hub s) (resolver s)).

(** [Service.MarkRead], from the id as the request carries it; [uuid_Parse]
    is [uuid.Parse]. *)
Definition Service_MarkRead {R : Type} (uuid_Parse : string → result UUID)
    (dbErr : option string) (now : Time) (idStr tenantKey userID : string)
    (s : Service R) : result unit * Service R :=
  match uuid_Parse idStr with
  | Err e => (Err ("invalid notification id: " +:+ e), s)
  | Ok i => MarkRead dbErr now i tenantKey userID s
  end.

(** [Service.MarkAllRead]. *)
Definition MarkAllRead {R : Type} (dbErr : option string) (now : Time)
    (tenantKey userID : string) (s : Service R) : result Z * Service R :=
  let '(res, d) := postgres.MarkAllRead dbErr now tenantKey userID (repo s) in
  (res, mk_Service d (hub s) (resolver s)).

(** [Service.Delete]. *)
Definition Service_Delete {R : Type} (uuid_Parse : string → result UUID)
    (dbErr : option string) (idStr tenantKey userID : string)
    (s : Service R) : result unit * Service R :=
  match uuid_Parse idStr with
  | Err e => (Err ("invalid notification id: " +:+ e), s)
  | Ok i =>
      let '(res, d) := postgres.Delete dbErr i tenantKey userID (repo s) in
      (res, mk_Service d (hub s) (resolver s))
  end.

(** [Service.CountUnread]; a driver error comes back as it is. *)
Definition CountUnread {R : Type} (dbErr : option string)
    (tenantKey userID : string) (s : Service R) : result Z :=
  match dbErr with
  | Some e => Err e
  | None => Ok (postgres.CountUnread tenantKey userID (repo s))
  end.

(** [Service.PurgeTTL]: the outcome is only logged. *)
Definition PurgeTTL {R : Type} (dbErr : option string) (cutoff : Time)
    (s : Service R) : Service R :=
  mk_Service (snd (postgres.PurgeOlderThan dbErr cutoff (repo s)))
    (hub s) (resolver s).

End application.

(** ** package keycloak (internal/infrastructure/keycloak/resolver.go) *)

Module keycloak.

Module keycloakUser.
Record t : Type := mk {
  ID : string;
  Enabled : bool
}.
End keycloakUser.

Module realmRep.
Record t : Type := mk {
  Realm : string;
  Enabled : bool
}.
End realmRep.

(** The [any] a cache entry holds: a user-id list or the platform map. *)
Inductive cached : Type :=
| CachedIDs (ids : list string)
| CachedPlatform (users : gmap string (list string)).

Record cacheEntry : Type := mk_cacheEntry {
  data : cached;
  expiresAt : Time
}.

Record Resolver : Type := mk_Resolver {
  adminURL : string;
  adminRealm : string;
  clientID : string;
  clientSecret : string;
  cacheTTL : Z;
  cacheData : gmap string cacheEntry
}.

(** [time.Second], in the nanoseconds of [Time]. *)
Definition Second : Z := 1000000000.

(** [New]. *)
Definition New (adminURL adminRealm clientID clientSecret : string) : Resolver :=
  mk_Resolver adminURL adminRealm clientID clientSecret (30 * Second) ∅.

(** What the code puts into an [http.Request] and reads off an
    [http.Response]. *)
Record Request : Type := mk_Request {
  Method : string;
  URL : string;
  Header : list (string * string);
  Payload : string
}.

Record Response : Type := mk_Response {
  StatusCode : Z;
  Body : string
}.

Definition StatusOK : Z := 200.

(** [enabledIDs]. *)
Definition enabledIDs (users : list keycloakUser.t) : list string :=
  keycloakUser.ID <$> filter (λ u, keycloakUser.Enabled u = true) users.

(** [fromCache], at clock reading [now]. *)
Definition fromCache (r : Resolver) (key : string) (now : Time) : option cached :=
  match cacheData r !! key with
  | Some entry => if (expiresAt entry <? now)%Z then None else Some (data entry)
  | None => None
  end.

(** [toCache], at clock reading [now]. *)
Definition toCache (r : Resolver) (key : string) (v : cached) (now : Time) : Resolver :=
  mk_Resolver (adminURL r) (adminRealm r) (clientID r) (clientSecret r) (cacheTTL r)
    (<[key := mk_cacheEntry v (now + cacheTTL r)%Z]> (cacheData r)).

Section provider.

(** The identity provider and the clock.  [Do] is [http.NewRequestWithContext]
    followed by [httpClient.Do]: a request that cannot be built or sent, or
    that times out, is an [Err]; every call may change the world.  The three
    decoders are [json.NewDecoder(resp.Body).Decode] at the three types the
    code decodes into. *)
Context {World : Type}.
Variable Do : Request → World → result Response * World.
Variable Now : World → Time.
Variable decode_token : string → result string.
Variable decode_users : string → result (list keycloakUser.t).
Variable decode_realms : string → result (list realmRep.t).

Definition bearer (token : string) : list (string * string) :=
  [("Authorization", "Bearer " +:+ token)].

(** [adminToken]. *)
Definition adminToken (r : Resolver) (w : World) : result string * World :=
  let tokenURL :=
    adminURL r +:+ "/realms/" +:+ adminRealm r +:+ "/protocol/openid-connect/token" in
  let body :=
    "grant_type=client_credentials&client_id=" +:+ clientID r
    +:+ "&client_secret=" +:+ clientSecret r in
  match Do (mk_Request "POST" tokenURL
              [("Content-Type", "application/x-www-form-urlencoded")] body) w with
  | (Err e, w') => (Err ("keycloak admin token: " +:+ e), w')
  | (Ok resp, w') =>
      if negb (StatusCode resp =? StatusOK)%Z
      then (Err ("keycloak admin token: status " +:+ pretty (StatusCode resp)), w')
      else
        match decode_token (Body resp) with
        | Err e => (Err e, w')
        | Ok tok =>
            if bool_decide (tok = "")
            then (Err "keycloak returned empty access_token", w')
            else (Ok tok, w')
        end
  end.

(** [listUsers]. *)
Definition listUsers (r : Resolver) (tenantKey : string) (w : World)
    : result (list keycloakUser.t) * World :=
  match adminToken r w with
  | (Err e, w1) => (Err e, w1)
  | (Ok token, w1) =>
      let url :=
        adminURL r +:+ "/admin/realms/" +:+ tenantKey +:+ "/users?enabled=true&max=1000" in
      match Do (mk_Request "GET" url (bearer token) "") w1 with
      | (Err e, w2) => (Err ("keycloak list users(" +:+ tenantKey +:+ "): " +:+ e), w2)
      | (Ok resp, w2) =>
          if negb (StatusCode resp =? StatusOK)%Z
          then (Err ("keycloak list users(" +:+ tenantKey +:+ "): status "
                     +:+ pretty (StatusCode resp)), w2)
          else (decode_users (Body resp), w2)
      end
  end.

(** The type assertion [cached.([]string)] panics on a platform map; no key
    ever holds the wrong kind (the three key shapes are disjoint), and the
    panic is rendered as an error here. *)
Definition assertion_failed {A : Type} : result A :=
  Err "interface conversion".

(** [UsersByTenant]. *)
Definition UsersByTenant (r : Resolver) (tenantKey : string) (w : World)
    : result (list string) * Resolver * World :=
  let cacheKey := "tenant:" +:+ tenantKey in
  match fromCache r cacheKey (Now w) with
  | Some (CachedIDs ids) => (Ok ids, r, w)
  | Some (CachedPlatform _) => (assertion_failed, r, w)
  | None =>
      match listUsers r tenantKey w with
      | (Err e, w1) => (Err e, r, w1)
      | (Ok users, w1) =>
          let ids := enabledIDs users in
          (Ok ids, toCache r cacheKey (CachedIDs ids) (Now w1), w1)
      end
  end.

(** [UsersByRole]. *)
Definition UsersByRole (r : Resolver) (tenantKey roleName : string) (w : World)
    : result (list string) * Resolver * World :=
  let cacheKey := "role:" +:+ tenantKey +:+ ":" +:+ roleName in
  match fromCache r cacheKey (Now w) with
  | Some (CachedIDs ids) => (Ok ids, r, w)
  | Some (CachedPlatform _) => (assertion_failed, r, w)
  | None =>
      match adminToken r w with
      | (Err e, w1) => (Err e, r, w1)
      | (Ok token, w1) =>
          let url :=
            adminURL r +:+ "/admin/realms/" +:+ tenantKey +:+ "/roles/"
            +:+ roleName +:+ "/users" in
          match Do (mk_Request "GET" url (bearer token) "") w1 with
          | (Err e, w2) =>
              (Err ("keycloak roles/" +:+ roleName +:+ "/users: " +:+ e), r, w2)
          | (Ok resp, w2) =>
              if negb (StatusCode resp =? StatusOK)%Z
              then (Err ("keycloak roles/" +:+ roleName +:+ "/users: status "
                         +:+ pretty (StatusCode resp)), r, w2)
              else
                match decode_users (Body resp) with
                | Err e => (Err e, r, w2)
                | Ok users =>
                    let ids := enabledIDs users in
                    (Ok ids, toCache r cacheKey (CachedIDs ids) (Now w2), w2)
                end
          end
      end
  end.

(** The loop of [AllActiveUsers] over the decoded realms. *)
Fixpoint eachRealm (r : Resolver) (realms : list realmRep.t)
    (result : gmap string (list string)) (w : World)
    : gmap string (list string) * World :=
  match realms with
  | [] => (result, w)
  | realm :: rest =>
      if negb (realmRep.Enabled realm)
         || bool_decide (realmRep.Realm realm = adminRealm r)
      then eachRealm r rest result w
      else
        match listUsers r (realmRep.Realm realm) w with
        | (Err _, w') => eachRealm r rest result w'
        | (Ok users, w') =>
            let ids := enabledIDs users in
            if (0 <? length ids)%nat
            then eachRealm r rest (<[realmRep.Realm realm := ids]> result) w'
            else eachRealm r rest result w'
        end
  end.

(** The request that lists the realms. *)
Definition realmsRequest (r : Resolver) (token : string) : Request :=
  mk_Request "GET" (adminURL r +:+ "/admin/realms") (bearer token) "".

(** [AllActiveUsers]. *)
Definition AllActiveUsers (r : Resolver) (w : World)
    : result (gmap string (list string)) * Resolver * World :=
  let cacheKey := "platform" in
  match fromCache r cacheKey (Now w) with
  | Some (CachedPlatform users) => (Ok users, r, w)
  | Some (CachedIDs _) => (assertion_failed, r, w)
  | None =>
      match adminToken r w with
      | (Err e, w1) => (Err e, r, w1)
      | (Ok token, w1) =>
          match Do (realmsRequest r token) w1 with
          | (Err e, w2) => (Err ("keycloak list realms: " +:+ e), r, w2)
          | (Ok resp, w2) =>
              match decode_realms (Body resp) with
              | Err e => (Err e, r, w2)
              | Ok realms =>
                  let '(result, w3) := eachRealm r realms ∅ w2 in
                  (Ok result,
                   toCache r cacheKey (CachedPlatform result) (Now w3), w3)
              end
          end
      end
  end.

(** The three calls of the [IAMResolver] interface, and the resolver and
    world after a sequence of them. *)
Inductive call : Type :=
| CallUsersByTenant (tenantKey : string)
| CallUsersByRole (tenantKey roleName : string)
| CallAllActiveUsers.

Definition step (c : call) (rw : Resolver * World) : Resolver * World :=
  match c with
  | CallUsersByTenant tk =>
      let '(_, r', w') := UsersByTenant (fst rw) tk (snd rw) in (r', w')
  | CallUsersByRole tk role =>
      let '(_, r', w') := UsersByRole (fst rw) tk role (snd rw) in (r', w')
  | CallAllActiveUsers =>
      let '(_, r', w') := AllActiveUsers (fst rw) (snd rw) in (r', w')
  end.

Definition run (cs : list call) (rw : Resolver * World) : Resolver * World :=
  foldl (λ rw c, step c rw) rw cs.

End provider.

End keycloak.

(** ** package registry (internal/kafka/registry/registry.go) *)

Module registry.
Import domain.

(** [EventHandler]: [None] is the nil pointer, "skip this event". *)
Abbreviation EventHandler := (string → option FanoutInput.t).

(** [key := topic + ":" + eventType]. *)
Definition key (topic eventType : string) : string :=
  topic +:+ ":" +:+ eventType.

(** [Register] on the package variable [mu_handlers]; a panic is [Err] with
    the panic value. *)
Definition Register (topic eventType : string) (h : EventHandler)
    (mu_handlers : gmap string EventHandler) : result (gmap string EventHandler) :=
  match mu_handlers !! key topic eventType with
  | Some _ =>
      Err ("registry: duplicate handler registered for key: "
           +:+ key topic eventType)
  | None => Ok (<[key topic eventType := h]> mu_handlers)
  end.

(** [Dispatch]; [json_probe] is [json.Unmarshal] into the probe struct,
    giving its [EventType] field, [None] when it reports an error. *)
Definition Dispatch (json_probe : string → option string)
    (mu_handlers : gmap string EventHandler) (topic data : string)
    : option FanoutInput.t :=
  match json_probe data with
  | None => None
  | Some eventType =>
      match mu_handlers !! key topic eventType with
      | None => None
      | Some h => h data
      end
  end.

(** [DispatchDirect]. *)
Definition DispatchDirect (mu_handlers : gmap string EventHandler)
    (topic data : string) : option FanoutInput.t :=
  match mu_handlers !! key topic "" with
  | None => None
  | Some h => h data
  end.

End registry.

(** ** package messages (unnamed/part_004, unnamed/part_005) *)

Module messages.

Definition TenantCreatedTitle : string := "Tenant mới đã được khởi tạo".
Definition TenantUpdatedTitle : string := "Tenant đã được cập nhật".
Definition TenantStatusUpdatedTitle : string := "Trạng thái tenant thay đổi".
Definition TenantDeletedTitle : string := "Đã xóa tenant".
Definition TaskAssignedTitle : string := "Bạn có nhiệm vụ mới".
Definition TaskCompletedTitle : string := "Nhiệm vụ hoàn thành".
Definition ApprovalRequiredTitle : string := "Yêu cầu phê duyệt".
Definition LeadStatusChangedTitle : string := "Trạng thái lead thay đổi".
Definition DealUpdatedTitle : string := "Deal đã được cập nhật".
Definition LoginNewDeviceTitle : string := "Đăng nhập từ thiết bị mới".
Definition PasswordChangedTitle : string := "Mật khẩu đã thay đổi".
Definition PasswordChangedBody : string :=
  "Mật khẩu tài khoản của bạn vừa được đổi. Hãy liên hệ quản trị viên nếu bạn không thực hiện thao tác này.".

(** The builders; [fmt.Sprintf] with [%s] verbs is concatenation. *)
Definition TenantCreated (displayName dbType : string) : string * string :=
  (TenantCreatedTitle,
   "Tenant '" +:+ displayName +:+ "' (DB: " +:+ dbType
   +:+ ") đã được tạo thành công.").

Definition TenantUpdated (displayName : string) : string * string :=
  (TenantUpdatedTitle,
   "Cấu hình của tenant '" +:+ displayName
   +:+ "' đã được cập nhật thành công.").

Definition TenantStatusUpdated (tenantKey status : string) : string * string :=
  (TenantStatusUpdatedTitle,
   "Trạng thái của tenant '" +:+ tenantKey +:+ "' đã được đổi thành "
   +:+ status +:+ ".").

Definition TenantDeleted (tenantKey : string) : string * string :=
  (TenantDeletedTitle,
   "Tenant '" +:+ tenantKey +:+ "' đã bị xóa khỏi hệ thống.").

Definition TaskAssigned (taskName processName : string) : string * string :=
  (TaskAssignedTitle,
   "Bạn được giao nhiệm vụ '" +:+ taskName +:+ "' trong quy trình '"
   +:+ processName +:+ "'.").

Definition TaskCompleted (taskName : string) : string * string :=
  (TaskCompletedTitle,
   "Nhiệm vụ '" +:+ taskName +:+ "' đã được hoàn thành.").

Definition ApprovalRequired (taskName processName : string) : string * string :=
  (ApprovalRequiredTitle,
   "Bạn cần phê duyệt '" +:+ taskName +:+ "' trong quy trình '"
   +:+ processName +:+ "'.").

Definition LeadStatusChanged (entityName : string) : string * string :=
  (LeadStatusChangedTitle,
   "Trạng thái của lead '" +:+ entityName +:+ "' đã được cập nhật.").

Definition DealUpdated (entityName : string) : string * string :=
  (DealUpdatedTitle, "Deal '" +:+ entityName +:+ "' vừa được cập nhật.").

Definition LoginNewDevice (ip : string) : string * string :=
  (LoginNewDeviceTitle,
   "Tài khoản của bạn vừa được truy cập từ thiết bị mới (IP: " +:+ ip
   +:+ "). Nếu không phải bạn, hãy đổi mật khẩu ngay.").

Definition PasswordChanged : string * string :=
  (PasswordChangedTitle, PasswordChangedBody).

End messages.

(** ** package handlers: the command topic (unnamed/part_006) *)

Module handlers.
Import domain.

(** The anonymous struct [cmd] that the record is decoded into. *)
Module command.
Record t : Type := mk {
  CommandID : string;
  TenantKey : string;
  TargetScope_ : string;
  TargetID : string;
  Type_ : string;
  Title : string;
  Body : string;
  Metadata_ : Metadata
}.
End command.

(** [handleDirectCommand]; [json_Unmarshal] is [json.Unmarshal] into
    [cmd], [None] when it reports an error. *)
Definition handleDirectCommand (json_Unmarshal : string → option command.t)
    (data : string) : option FanoutInput.t :=
  match json_Unmarshal data with
  | None => None
  | Some cmd =>
      let notifType : NotificationType :=
        if bool_decide (command.Type_ cmd
                        ∈ [TypeSystem; TypeWorkflow; TypeCRM; TypeIAM; TypeCustom])
        then command.Type_ cmd else TypeCustom in
      let scope : option TargetScope :=
        if bool_decide (command.TargetScope_ cmd
                        ∈ [ScopeUser; ScopeTenant; ScopePlatform; ScopeRole])
        then Some (command.TargetScope_ cmd)
        else if bool_decide (command.TargetID cmd ≠ "") then Some ScopeUser
        else None in
      match scope with
      | None => None
      | Some scope =>
          Some (FanoutInput.mk scope (command.TargetID cmd) (command.TenantKey cmd)
                  notifType (command.Title cmd) (command.Body cmd)
                  (command.Metadata_ cmd) (command.CommandID cmd) "")
      end
  end.

(** The envelope of the tenant topic (internal/kafka/handlers/tenant.go). *)
Module tenantEnv.
Record t : Type := mk {
  EventType : string;
  EventID : string;
  TenantKey : string;
  DisplayName : string;
  DbType : string;
  Status : string;
  CreatedBy : string
}.
End tenantEnv.

(** [tenantFanout]: every tenant event goes to the PLATFORM_ADMIN role of
    "master", with the acting user as origin. *)
Definition tenantFanout (env : tenantEnv.t) (title body : string) : FanoutInput.t :=
  FanoutInput.mk ScopeRole "PLATFORM_ADMIN" "master" TypeSystem title body
    (<["eventType" := AnyString (tenantEnv.EventType env)]>
       (<["tenantKey" := AnyString (tenantEnv.TenantKey env)]> ∅))
    (tenantEnv.EventID env) (tenantEnv.CreatedBy env).

(** The envelopes of the other topics (internal/kafka/handlers/bpm.go and
    its second document, internal/kafka/handlers/crm.go). *)
Module bpmEnv.
Record Payload_t : Type := mk_Payload {
  TaskID : string;
  TaskName : string;
  AssigneeID : string;
  ProcessName : string
}.
Record t : Type := mk {
  EventType : string;
  EventID : string;
  TenantKey : string;
  Payload : Payload_t
}.
End bpmEnv.

Module iamEnv.
Record Payload_t : Type := mk_Payload {
  UserID : string;
  IP : string;
  Detail : string
}.
Record t : Type := mk {
  EventType : string;
  EventID : string;
  TenantKey : string;
  Payload : Payload_t
}.
End iamEnv.

Module crmEnv.
Record Payload_t : Type := mk_Payload {
  EntityID : string;
  EntityName : string;
  OwnerID : string
}.
Record t : Type := mk {
  EventType : string;
  EventID : string;
  TenantKey : string;
  Payload : Payload_t
}.
End crmEnv.

Section decoders.
(** [json.Unmarshal] into each of the five structs, [None] when it reports
    an error. *)
Variable json_command : string → option command.t.
Variable json_tenantEnv : string → option tenantEnv.t.
Variable json_bpmEnv : string → option bpmEnv.t.
Variable json_iamEnv : string → option iamEnv.t.
Variable json_crmEnv : string → option crmEnv.t.

(** [parseTenantEnv]. *)
Definition parseTenantEnv (data : string) : option tenantEnv.t :=
  json_tenantEnv data.

Definition handleTenantCreated (data : string) : option FanoutInput.t :=
  match parseTenantEnv data with
  | None => None
  | Some env =>
      let displayName :=
        if bool_decide (tenantEnv.DisplayName env = "") then tenantEnv.TenantKey env
        else tenantEnv.DisplayName env in
      let '(title, body) :=
        messages.TenantCreated displayName (tenantEnv.DbType env) in
      Some (tenantFanout env title body)
  end.

Definition handleTenantUpdated (data : string) : option FanoutInput.t :=
  match parseTenantEnv data with
  | None => None
  | Some env =>
      let displayName :=
        if bool_decide (tenantEnv.DisplayName env = "") then tenantEnv.TenantKey env
        else tenantEnv.DisplayName env in
      let '(title, body) := messages.TenantUpdated displayName in
      Some (tenantFanout env title body)
  end.

Definition handleTenantStatusUpdated (data : string) : option FanoutInput.t :=
  match parseTenantEnv data with
  | None => None
  | Some env =>
      let '(title, body) :=
        messages.TenantStatusUpdated (tenantEnv.TenantKey env)
          (tenantEnv.Status env) in
      Some (tenantFanout env title body)
  end.

Definition handleTenantDeleted (data : string) : option FanoutInput.t :=
  match parseTenantEnv data with
  | None => None
  | Some env =>
      let '(title, body) := messages.TenantDeleted (tenantEnv.TenantKey env) in
      Some (tenantFanout env title body)
  end.

(** [parseBPMEnv]: an event without an assignee is skipped. *)
Definition parseBPMEnv (data : string) : option bpmEnv.t :=
  match json_bpmEnv data with
  | None => None
  | Some env =>
      if bool_decide (bpmEnv.AssigneeID (bpmEnv.Payload env) = "") then None
      else Some env
  end.

(** What the three BPM handlers return for a parsed envelope. *)
Definition bpmFanout (env : bpmEnv.t) (title body : string) : FanoutInput.t :=
  FanoutInput.mk ScopeUser (bpmEnv.AssigneeID (bpmEnv.Payload env))
    (bpmEnv.TenantKey env) TypeWorkflow title body
    (<["taskId" := AnyString (bpmEnv.TaskID (bpmEnv.Payload env))]>
       (<["processName" := AnyString (bpmEnv.ProcessName (bpmEnv.Payload env))]> ∅))
    (bpmEnv.EventID env) "".

Definition handleTaskAssigned (data : string) : option FanoutInput.t :=
  match parseBPMEnv data with
  | None => None
  | Some env =>
      let '(title, body) :=
        messages.TaskAssigned (bpmEnv.TaskName (bpmEnv.Payload env))
          (bpmEnv.ProcessName (bpmEnv.Payload env)) in
      Some (bpmFanout env title body)
  end.

Definition handleTaskCompleted (data : string) : option FanoutInput.t :=
  match parseBPMEnv data with
  | None => None
  | Some env =>
      let '(title, body) :=
        messages.TaskCompleted (bpmEnv.TaskName (bpmEnv.Payload env)) in
      Some (bpmFanout env title body)
  end.

Definition handleApprovalRequired (data : string) : option FanoutInput.t :=
  match parseBPMEnv data with
  | None => None
  | Some env =>
      let '(title, body) :=
        messages.ApprovalRequired (bpmEnv.TaskName (bpmEnv.Payload env))
          (bpmEnv.ProcessName (bpmEnv.Payload env)) in
      Some (bpmFanout env title body)
  end.

(** [parseIAMEnv]: no field is required. *)
Definition parseIAMEnv (data : string) : option iamEnv.t := json_iamEnv data.

(** What the two IAM handlers return for a parsed envelope. *)
Definition iamFanout (env : iamEnv.t) (title body : string) : FanoutInput.t :=
  FanoutInput.mk ScopeUser (iamEnv.UserID (iamEnv.Payload env))
    (iamEnv.TenantKey env) TypeIAM title body
    (<["ip" := AnyString (iamEnv.IP (iamEnv.Payload env))]>
       (<["detail" := AnyString (iamEnv.Detail (iamEnv.Payload env))]> ∅))
    (iamEnv.EventID env) "".

Definition handleLoginNewDevice (data : string) : option FanoutInput.t :=
  match parseIAMEnv data with
  | None => None
  | Some env =>
      let '(title, body) :=
        messages.LoginNewDevice (iamEnv.IP (iamEnv.Payload env)) in
      Some (iamFanout env title body)
  end.

Definition handlePasswordChanged (data : string) : option FanoutInput.t :=
  match parseIAMEnv data with
  | None => None
  | Some env =>
      let '(title, body) := messages.PasswordChanged in
      Some (iamFanout env title body)
  end.

(** [parseCRMEnv]: an event without an owner is skipped. *)
Definition parseCRMEnv (data : string) : option crmEnv.t :=
  match json_crmEnv data with
  | None => None
  | Some env =>
      if bool_decide (crmEnv.OwnerID (crmEnv.Payload env) = "") then None
      else Some env
  end.

(** What the two CRM handlers return for a parsed envelope. *)
Definition crmFanout (env : crmEnv.t) (title body : string) : FanoutInput.t :=
  FanoutInput.mk ScopeUser (crmEnv.OwnerID (crmEnv.Payload env))
    (crmEnv.TenantKey env) TypeCRM title body
    (<["entityId" := AnyString (crmEnv.EntityID (crmEnv.Payload env))]> ∅)
    (crmEnv.EventID env) "".

Definition handleLeadStatusChanged (data : string) : option FanoutInput.t :=
  match parseCRMEnv data with
  | None => None
  | Some env =>
      let '(title, body) :=
        messages.LeadStatusChanged (crmEnv.EntityName (crmEnv.Payload env)) in
      Some (crmFanout env title body)
  end.

Definition handleDealUpdated (data : string) : option FanoutInput.t :=
  match parseCRMEnv data with
  | None => None
  | Some env =>
      let '(title, body) :=
        messages.DealUpdated (crmEnv.EntityName (crmEnv.Payload env)) in
      Some (crmFanout env title body)
  end.

(** The [Register] and [RegisterDirect] calls of the five [init] functions,
    as (topic, eventType, handler); [RegisterDirect] registers under the
    empty event type. *)
Definition registrations : list (string * string * registry.EventHandler) :=
  [("bpm-events", "TASK_ASSIGNED", handleTaskAssigned);
   ("bpm-events", "TASK_COMPLETED", handleTaskCompleted);
   ("bpm-events", "APPROVAL_REQUIRED", handleApprovalRequired);
   ("iam-events", "LOGIN_NEW_DEVICE", handleLoginNewDevice);
   ("iam-events", "PASSWORD_CHANGED", handlePasswordChanged);
   ("crm-events", "LEAD_STATUS_CHANGED", handleLeadStatusChanged);
   ("crm-events", "DEAL_UPDATED", handleDealUpdated);
   ("notification-commands", "", handleDirectCommand json_command);
   ("tenant-events", "TENANT_CREATED", handleTenantCreated);
   ("tenant-events", "TENANT_UPDATED", handleTenantUpdated);
   ("tenant-events", "TENANT_STATUS_UPDATED", handleTenantStatusUpdated);
   ("tenant-events", "TENANT_DELETED", handleTenantDeleted)].

(** Package initialisation: the calls run one after the other, in the order
    in which the toolchain presents the files, and the first panic ends the
    program. *)
Definition init (calls : list (string * string * registry.EventHandler))
    : result (gmap string registry.EventHandler) :=
  foldl (λ acc '(topic, eventType, h),
           match acc with
           | Err e => Err e
           | Ok mu_handlers => registry.Register topic eventType h mu_handlers
           end)
    (Ok ∅) calls.

End decoders.

End handlers.

(** ** package kafka: the consumer (internal/kafka/registry/registry.go,
    second document) *)

Module kafka.
Import domain.

(** [Consumer.process] on a record with the given topic and value.  An error
    of [Fanout] is logged and the record is not retried. *)
Definition process {R : Type} `{application.IAMResolver R}
    (json_probe : string → option string)
    (mu_handlers : gmap string registry.EventHandler)
    (order : gmap string (list string) → list (string * list string))
    (dbErr : option postgres.query_error) (now : Time) (topic value : string)
    (s : application.Service R) : application.Service R :=
  let fanout :=
    match registry.DispatchDirect mu_handlers topic value with
    | Some f => Some f
    | None => registry.Dispatch json_probe mu_handlers topic value
    end in
  match fanout with
  | None => s
  | Some f => snd (application.Fanout order dbErr now f s)
  end.

End kafka.

(** ** Go's [strconv] and [strings], as far as the code uses them *)

Module strconv.

Definition digit (c : ascii) : option Z :=
  let n := Z.of_N (N_of_ascii c) in
  if (48 <=? n)%Z && (n <=? 57)%Z then Some (n - 48)%Z else None.

Fixpoint digits (acc : Z) (s : string) : option Z :=
  match s with
  | EmptyString => Some acc
  | String c s' =>
      match digit c with
      | Some k => digits (acc * 10 + k)%Z s'
      | None => None
      end
  end.

(** [strconv.Atoi] on a 64-bit [int]: an optional sign, then one or more
    decimal digits, and a value that fits; [None] is a non-nil error. *)
Definition Atoi (s : string) : option Z :=
  let '(negative, body) :=
    match s with
    | String c rest =>
        if bool_decide (c = "-"%char) then (true, rest)
        else if bool_decide (c = "+"%char) then (false, rest)
        else (false, s)
    | EmptyString => (false, s)
    end in
  match body with
  | EmptyString => None
  | _ =>
      match digits 0 body with
      | Some n =>
          let v := if negative then (- n)%Z else n in
          if (- 2 ^ 63 <=? v)%Z && (v <? 2 ^ 63)%Z then Some v else None
      | None => None
      end
  end.

End strconv.

Module strings.

Definition HasPrefix (s prefix : string) : bool := String.prefix prefix s.

Definition TrimPrefix (s prefix : string) : string :=
  if HasPrefix s prefix
  then String.substring (String.length prefix)
         (String.length s - String.length prefix) s
  else s.

Definition HasSuffix (s suffix : string) : bool :=
  (String.length suffix <=? String.length s)%nat
  && bool_decide (String.substring (String.length s - String.length suffix)
                    (String.length suffix) s = suffix).

Definition TrimSuffix (s suffix : string) : string :=
  if HasSuffix s suffix
  then String.substring 0 (String.length s - String.length suffix) s
  else s.

(** The scan of [Split]: [cur] is the piece being read, [skip] the number of
    bytes of a separator still to step over. *)
Fixpoint Split_scan (sep : string) (skip : nat) (cur : string) (s : string)
    : list string :=
  match s with
  | EmptyString => [cur]
  | String c rest =>
      match skip with
      | S k => Split_scan sep k cur rest
      | O =>
          if String.prefix sep s
          then cur :: Split_scan sep (String.length sep - 1) EmptyString rest
          else Split_scan sep 0 (cur +:+ String c EmptyString) rest
      end
  end.

(** [strings.Split] for a non-empty separator. *)
Definition Split (s sep : string) : list string := Split_scan sep 0 EmptyString s.

End strings.

(** ** package http: the list handler (unnamed/part_009) *)

Module transport.
Import domain.

(** [c.QueryParam(key)] on the query of the request: the empty string when
    the parameter is absent. *)
Definition QueryParam (query : gmap string string) (key : string) : string :=
  default "" (query !! key).

(** [parseIntQuery]. *)
Definition parseIntQuery (query : gmap string string) (key : string) (def : Z) : Z :=
  match strconv.Atoi (QueryParam query key) with
  | None => def
  | Some v => if (v <? 0)%Z then def else v
  end.

(** The filter [ListNotifications] builds from the claims and the query. *)
Definition ListNotifications_filter (tenantKey userID : string)
    (query : gmap string string) : NotificationFilter.t :=
  NotificationFilter.mk tenantKey userID
    (if bool_decide (QueryParam query "is_read" = "") then None
     else Some (bool_decide (QueryParam query "is_read" = "true")))
    (QueryParam query "type")
    (parseIntQuery query "limit" 20)
    (parseIntQuery query "offset" 0).

(** The filter the repository is queried with on a GET /notifications. *)
Definition applied_filter (tenantKey userID : string)
    (query : gmap string string) : NotificationFilter.t :=
  application.List_filter (ListNotifications_filter tenantKey userID query).

(** [ListNotifications]: the rows, and the [limit] and [offset] echoed in the
    reply, or [echo.ErrInternalServerError]. *)
Definition ListNotifications {R : Type} (dbErr : option postgres.query_error)
    (tenantKey userID : string) (query : gmap string string)
    (s : application.Service R) : result (list Notification.t * Z * Z) :=
  let filter := ListNotifications_filter tenantKey userID query in
  match application.List dbErr filter s with
  | Err _ => Err "Internal Server Error"
  | Ok notifications =>
      Ok (notifications, NotificationFilter.Limit filter,
          NotificationFilter.Offset filter)
  end.

(** What a handler answers: a status with no body, a status with one
    counter, or an [echo.HTTPError]. *)
Inductive reply : Type :=
| NoContent (code : Z)
| Counter (code : Z) (key : string) (n : Z)
| HTTPError (code : Z) (message : string).

Definition StatusOK : Z := 200.
Definition StatusNoContent : Z := 204.
Definition StatusBadRequest : Z := 400.
Definition StatusNotFound : Z := 404.
Definition StatusInternalServerError : Z := 500.

(** [Handler.MarkRead]. *)
Definition MarkRead {R : Type} (uuid_Parse : string → result UUID)
    (dbErr : option string) (now : Time) (tenantKey userID idParam : string)
    (s : application.Service R) : reply * application.Service R :=
  match application.Service_MarkRead uuid_Parse dbErr now idParam tenantKey userID s with
  | (Err e, s') => (HTTPError StatusBadRequest e, s')
  | (Ok _, s') => (NoContent StatusNoContent, s')
  end.

(** [Handler.Delete]. *)
Definition Delete {R : Type} (uuid_Parse : string → result UUID)
    (dbErr : option string) (tenantKey userID idParam : string)
    (s : application.Service R) : reply * application.Service R :=
  match application.Service_Delete uuid_Parse dbErr idParam tenantKey userID s with
  | (Err e, s') => (HTTPError StatusNotFound e, s')
  | (Ok _, s') => (NoContent StatusNoContent, s')
  end.

(** [Handler.GetUnreadCount]. *)
Definition GetUnreadCount {R : Type} (dbErr : option string)
    (tenantKey userID : string) (s : application.Service R) : reply :=
  match application.CountUnread dbErr tenantKey userID s with
  | Err _ => HTTPError StatusInternalServerError "Internal Server Error"
  | Ok count => Counter StatusOK "count" count
  end.

(** [Handler.MarkAllRead]. *)
Definition MarkAllRead {R : Type} (dbErr : option string) (now : Time)
    (tenantKey userID : string) (s : application.Service R)
    : reply * application.Service R :=
  match application.MarkAllRead dbErr now tenantKey userID s with
  | (Err _, s') => (HTTPError StatusInternalServerError "Internal Server Error", s')
  | (Ok count, s') => (Counter StatusOK "marked" count, s')
  end.

End transport.

(** ** package http: the SSE hub (unnamed/part_010, second document) *)

Module sse_hub.
Import domain.

(** A buffered [chan []byte]: its capacity and the frames waiting in it,
    oldest first.  The code never closes one. *)
Record channel : Type := mk_channel {
  capacity : nat;
  buffer : list string
}.

(** The channels made so far, by reference. *)
Abbreviation channels := (gmap N channel).

(** [select { case ch <- msg: default: }]: the frame is queued when the
    buffer has room and dropped otherwise; a send on a reference that holds
    no channel (a nil channel) is never ready. *)
Definition try_send (ch : N) (msg : string) (chs : channels) : channels :=
  match chs !! ch with
  | Some c =>
      if decide (length (buffer c) < capacity c)%nat
      then <[ch := mk_channel (capacity c) (buffer c ++ [msg])]> chs
      else chs
  | None => chs
  end.

(** [*Client].  [addr] is where the object lives: two pointers are equal
    when their addresses are.  The fields are never written after
    [Register]. *)
Record Client : Type := mk_Client {
  addr : N;
  tenantKey : string;
  userID : string;
  send : N
}.

(** [Hub]: tenant -> userID -> clients, and the address the next [&Client{}]
    gets. *)
Record Hub : Type := mk_Hub {
  clients : gmap string (gmap string (list Client));
  next : N
}.

(** [NewHub]. *)
Definition NewHub : Hub := mk_Hub ∅ 0%N.

(** [Hub.Register]. *)
Definition Register (tenantKey userID : string) (send : N) (h : Hub)
    : Client * Hub :=
  let c := mk_Client (next h) tenantKey userID send in
  let users := default ∅ (clients h !! tenantKey) in
  (c,
   mk_Hub
     (<[tenantKey := <[userID := default [] (users !! userID) ++ [c]]> users]>
        (clients h))
     (N.succ (next h))).

(** [Hub.Unregister]. *)
Definition Unregister (c : Client) (h : Hub) : Hub :=
  match clients h !! tenantKey c with
  | None => h
  | Some users =>
      let updated :=
        filter (λ existing, addr existing ≠ addr c)
          (default [] (users !! userID c)) in
      mk_Hub
        (<[tenantKey c :=
             match updated with
             | [] => delete (userID c) users
             | _ => <[userID c := updated]> users
             end]> (clients h))
        (next h)
  end.

(** [buildSSEMessage]; [json_Marshal] is [json.Marshal] with its error
    dropped. *)
Definition buildSSEMessage {A : Type} (json_Marshal : A → string) (n : A) : string :=
  "event: notification" +:+ String (ascii_of_nat 10)
    ("data: " +:+ json_Marshal n
     +:+ String (ascii_of_nat 10) (String (ascii_of_nat 10) "")).

(** [Hub.Broadcast]. *)
Definition Broadcast (json_Marshal : Notification.t → string)
    (tenantKey userID : string) (n : Notification.t) (h : Hub)
    (chs : channels) : channels :=
  match clients h !! tenantKey with
  | None => chs
  | Some users =>
      match default [] (users !! userID) with
      | [] => chs
      | cs =>
          let msg := buildSSEMessage json_Marshal n in
          foldl (λ chs c, try_send (send c) msg chs) chs cs
      end
  end.

(** [Hub.ConnectedCount]. *)
Definition ConnectedCount (h : Hub) : Z :=
  map_fold (λ _ users total,
              map_fold (λ _ cs total, (total + Z.of_nat (length cs))%Z)
                total users)
    0%Z (clients h).

(** The calls that change the registry. *)
Inductive call : Type :=
| CallRegister (tenantKey userID : string) (send : N)
| CallUnregister (c : Client).

Definition step (c : call) (h : Hub) : Hub :=
  match c with
  | CallRegister tk u ch => snd (Register tk u ch h)
  | CallUnregister c => Unregister c h
  end.

Definition run (cs : list call) (h : Hub) : Hub :=
  foldl (λ h c, step c h) h cs.

End sse_hub.

(** ** package mw: bearer-token middleware (unnamed/part_008) *)

Module mw.

(** [extractRealm]. *)
Definition extractRealm (issuer : string) : string :=
  match strings.Split issuer "/realms/" with
  | [_; realm] => strings.TrimSuffix realm "/"
  | _ => ""
  end.

Record cachedJWKS : Type := mk_cachedJWKS {
  keys : gmap string (gmap string any);
  fetchAt : Time
}.

(** [jwksTTL], five minutes in the nanoseconds of [Time]. *)
Definition jwksTTL : Z := 5 * 60 * 1000000000.

(** What the middleware does with a request: answer with an HTTP error, or
    set [userID] and [realm] in the context and call [next]. *)
Inductive outcome : Type :=
| HTTPError (code : Z) (message : string)
| Next (userID realm : string).

Definition StatusUnauthorized : Z := 401.

Section jwt.

(** The network, the clock and the two libraries.  [http_Get] is
    [http.Get], giving the body of the reply; [decode_jwks] decodes the
    [keys] array of a key set; [ParseUnverified] is the parser's structural
    parse, giving the claims; [jwt_Parse] is [jwt.Parse] with the key function
    of [verifyWithJWKS], giving the error the library reports, if any, after
    checking method, signature and expiry. *)
Context {World : Type}.
Variable http_Get : string → World → result string * World.
Variable Now : World → Time.
Variable decode_jwks : string → result (list (gmap string any)).
Variable ParseUnverified : string → result (gmap string any).
Variable jwt_Parse : string → option string.

(** The map from [kid] to key that [verifyWithJWKS] builds. *)
Definition keyMap (keys : list (gmap string any)) : gmap string (gmap string any) :=
  foldl (λ km k,
           match k !! "kid" with
           | Some (AnyString kid) => <[kid := k]> km
           | _ => km
           end) ∅ keys.

(** [verifyWithJWKS], with the package-level [jwksCache] as state. *)
Definition verifyWithJWKS (jwksURL tokenStr : string)
    (jwksCache : gmap string cachedJWKS) (w : World)
    : result unit * gmap string cachedJWKS * World :=
  let stale :=
    match jwksCache !! jwksURL with
    | None => true
    | Some cached => (jwksTTL <? Now w - fetchAt cached)%Z
    end in
  if stale then
    match http_Get jwksURL w with
    | (Err e, w1) => (Err ("fetch jwks: " +:+ e), jwksCache, w1)
    | (Ok body, w1) =>
        match decode_jwks body with
        | Err e => (Err ("decode jwks: " +:+ e), jwksCache, w1)
        | Ok jwks =>
            let jwksCache' :=
              <[jwksURL := mk_cachedJWKS (keyMap jwks) (Now w1)]> jwksCache in
            let err := jwt_Parse tokenStr in
            (Ok tt, jwksCache', w1)
        end
    end
  else
    let err := jwt_Parse tokenStr in
    (Ok tt, jwksCache, w).

(** [JWTAuth], on the value of the Authorization header. *)
Definition JWTAuth (keycloakBaseURL authHeader : string)
    (jwksCache : gmap string cachedJWKS) (w : World)
    : outcome * gmap string cachedJWKS * World :=
  if negb (strings.HasPrefix authHeader "Bearer ")
  then (HTTPError StatusUnauthorized "missing bearer token", jwksCache, w)
  else
    let tokenStr := strings.TrimPrefix authHeader "Bearer " in
    match ParseUnverified tokenStr with
    | Err _ => (HTTPError StatusUnauthorized "invalid token format", jwksCache, w)
    | Ok claims =>
        let issuer := as_string (claims !! "iss") in
        let userID := as_string (claims !! "sub") in
        let realm := extractRealm issuer in
        if bool_decide (realm = "")
        then (HTTPError StatusUnauthorized "cannot extract realm from token issuer",
              jwksCache, w)
        else
          let jwksURL :=
            keycloakBaseURL +:+ "/realms/" +:+ realm
            +:+ "/protocol/openid-connect/certs" in
          match verifyWithJWKS jwksURL tokenStr jwksCache w with
          | (Err _, jwksCache', w') =>
              (HTTPError StatusUnauthorized "invalid token signature", jwksCache', w')
          | (Ok _, jwksCache', w') => (Next userID realm, jwksCache', w')
          end
    end.

End jwt.

(** [TenantResolver], on the value of the X-Tenant-Key header and the echo
    context; [c.Get("realm").(string)] with the comma-ok form gives the empty
    string when the key is unset or holds no string.  It answers with an HTTP
    error or sets [tenantKey] and calls [next] on the new context. *)
Definition TenantResolver (xTenantKey : string) (c : gmap string any)
    : (Z * string) + gmap string any :=
  let tenantKey :=
    if bool_decide (xTenantKey = "") then as_string (c !! "realm")
    else xTenantKey in
  if bool_decide (tenantKey = "")
  then inl (400%Z, "X-Tenant-Key header is required")
  else inr (<["tenantKey" := AnyString tenantKey]> c).

End mw.

(** ** package http: the authenticated group of the router (unnamed/part_010) *)

Module router.

(** [mustClaims]: the two type assertions panic ([None]) when a key is unset
    or holds no string. *)
Definition mustClaims (c : gmap string any) : option (string * string) :=
  match c !! "tenantKey", c !! "userID" with
  | Some (AnyString tenantKey), Some (AnyString userID) => Some (tenantKey, userID)
  | _, _ => None
  end.

Section group.
Context {World : Type}.
Variable http_Get : string → World → result string * World.
Variable Now : World → Time.
Variable decode_jwks : string → result (list (gmap string any)).
Variable ParseUnverified : string → result (gmap string any).
Variable jwt_Parse : string → option string.

(** What group [v1] of [NewRouter] does before a handler runs:
    [mw.JWTAuth], which sets [userID] and [realm], then [mw.TenantResolver];
    the handler starts with [mustClaims].  The result is the HTTP error a
    middleware answered with, or what [mustClaims] gives the handler. *)
Definition v1 (keycloakBaseURL authHeader xTenantKey : string)
    (jwksCache : gmap string mw.cachedJWKS) (w : World)
    : ((Z * string) + option (string * string))
      * gmap string mw.cachedJWKS * World :=
  match mw.JWTAuth http_Get Now decode_jwks ParseUnverified jwt_Parse
          keycloakBaseURL authHeader jwksCache w with
  | (mw.HTTPError code message, jwksCache', w') =>
      (inl (code, message), jwksCache', w')
  | (mw.Next userID realm, jwksCache', w') =>
      let c : gmap string any :=
        <["realm" := AnyString realm]> (<["userID" := AnyString userID]> ∅) in
      match mw.TenantResolver xTenantKey c with
      | inl e => (inl e, jwksCache', w')
      | inr c' => (inr (mustClaims c'), jwksCache', w')
      end
  end.

End group.

End router.

(** * Specification vocabulary

    The predicates the properties are stated with, and the data of the
    worked examples. *)

Section store_vocabulary.
Import domain postgres.

(** The non-NULL [source_event_id] values stored in a table. *)
Definition keys (t : list row) : list string := omap source_event_id t.

(** The table is keyed: every row has a key, no key occurs twice, and the
    keys are exactly the values in [seen]. *)
Definition keyed (seen : list string) (t : list row) : Prop :=
  NoDup (keys t) ∧ length (keys t) = length t ∧ ∀ s, s ∈ keys t ↔ s ∈ seen.

(** A call of an ingesting history: an insert that the driver executes and
    all of whose inputs carry a source event id, or a read or mark-read of
    any kind.  Deletions shrink the table and are not part of it. *)
Definition ingests (c : call) : Prop :=
  match c with
  | CallCreate e _ _ | CallBatchCreate e _ _ =>
      e = None
      ∧ Forall (λ i, CreateNotificationInput.SourceEventID i ≠ "") (proposed c)
  | CallMarkRead _ _ _ _ _ | CallMarkAllRead _ _ _ _ | CallRead => True
  | CallDelete _ _ _ _ | CallPurgeOlderThan _ _ => False
  end.

(** [read_at] is non-null exactly when [is_read] is true. *)
Definition read_consistent (r : row) : Prop :=
  is_Some (read_at r) ↔ is_read r = true.

(** What every reachable database satisfies: primary keys are unique and
    were drawn from the supply, and every row is [read_consistent]. *)
Definition wf (d : db) : Prop :=
  NoDup (id <$> notifications d)
  ∧ Forall (λ r, (id r < uuid_supply d)%N) (notifications d)
  ∧ Forall read_consistent (notifications d).

(** An UPDATE of the two read columns leaves a row alone or turns an unread
    row into a read one stamped [now]. *)
Definition touched (now : Time) (r r' : row) : Prop :=
  r' = r ∨ (is_read r = false ∧ r' = set_read now r).

(** A row that is read is found again, if at all, exactly as it was. *)
Definition keeps_read (d d' : db) : Prop :=
  ∀ r r', r ∈ notifications d → is_read r = true →
          r' ∈ notifications d' → id r' = id r → r' = r.

(** The rows of a batch that [BatchCreate] reports to its caller, out of
    the rows [new] that the statement stored: all of them, or none when the
    scan of one of them failed. *)
Definition reported (dbErr : option query_error) (new : list row) : list row :=
  match dbErr with
  | Some (ScanError k _) => if decide (k < length new)%nat then [] else new
  | _ => new
  end.

(** The seven columns an INSERT of the repository lists. *)
Definition columns (r : row) : values :=
  (tenant_key r, user_id r, type_ r, title r, body r, metadata r,
   source_event_id r).

(** The rows a filter selects. *)
Definition selected (f : NotificationFilter.t) (n : Notification.t) : Prop :=
  Notification.TenantKey n = NotificationFilter.TenantKey f
  ∧ Notification.UserID n = NotificationFilter.UserID f
  ∧ (∀ b, NotificationFilter.IsRead f = Some b → Notification.IsRead n = b)
  ∧ (NotificationFilter.Type_ f ≠ "" →
     Notification.Type_ n = NotificationFilter.Type_ f).

End store_vocabulary.

Section hub_vocabulary.
Import sse_hub.

(** The clients registered under a tenant and user. *)
Definition listeners (tk u : string) (h : Hub) : list Client :=
  default [] (default ∅ (clients h !! tk) !! u).

(** What holds of every hub that [Register] and [Unregister] build: a stored
    list is never empty, its clients carry the tenant and user they are filed
    under, their addresses were handed out by the hub, and no address occurs
    twice in it. *)
Definition hub_wf (h : Hub) : Prop :=
  ∀ tk users u cs,
    clients h !! tk = Some users → users !! u = Some cs →
    cs ≠ []
    ∧ Forall (λ c, tenantKey c = tk ∧ userID c = u ∧ (addr c < next h)%N) cs
    ∧ NoDup (addr <$> cs).

End hub_vocabulary.

(** Every cache entry holds the kind of value its key announces: the
    platform map under "platform", a list of user ids under any other key. *)
Definition cache_typed (r : keycloak.Resolver) : Prop :=
  ∀ k e, keycloak.cacheData r !! k = Some e →
         match keycloak.data e with
         | keycloak.CachedPlatform _ => k = "platform"
         | keycloak.CachedIDs _ => k ≠ "platform"
         end.

(** Whether a byte occurs in a string. *)
Fixpoint mentions (c : ascii) (s : string) : bool :=
  match s with
  | EmptyString => false
  | String x rest => bool_decide (x = c) || mentions c rest
  end.

(** A registration as the binding it adds to [mu_handlers]. *)
Definition binding (c : string * string * registry.EventHandler)
    : string * registry.EventHandler :=
  (registry.key (fst (fst c)) (snd (fst c)), snd c).

(** The input of [Service.Create] that a request for one recipient
    denotes. *)
Definition single (input : domain.FanoutInput.t) : domain.CreateNotificationInput.t :=
  domain.CreateNotificationInput.mk (domain.FanoutInput.TenantKey input)
    (domain.FanoutInput.TargetID input) (domain.FanoutInput.Type_ input)
    (domain.FanoutInput.Title input) (domain.FanoutInput.Body input)
    (domain.FanoutInput.Metadata_ input) (domain.FanoutInput.SourceEventID input).

(** A task assignment as the BPM decoder delivers it. *)
Definition sample_bpmEnv : handlers.bpmEnv.t :=
  handlers.bpmEnv.mk "TASK_ASSIGNED" "e7" "acme"
    (handlers.bpmEnv.mk_Payload "T1" "Review" "U1" "Onboarding").

(** A string without its first [k] bytes. *)
Fixpoint skip_bytes (k : nat) (s : string) : string :=
  match k, s with
  | S k', String _ rest => skip_bytes k' rest
  | _, _ => s
  end.

(** A delivery history: event e1 for U1, then a batch that repeats e1 and
    brings e2, a mark-all-read by U1, then e2 once more. *)
Definition sample_input (userID sourceEventID : string)
    : domain.CreateNotificationInput.t :=
  domain.CreateNotificationInput.mk "acme" userID "WORKFLOW" "Review PR"
    "Onboarding" ∅ sourceEventID.

Definition sample_history : list postgres.call :=
  [postgres.CallCreate None 1%Z (sample_input "U1" "e1");
   postgres.CallBatchCreate None 2%Z
     [sample_input "U1" "e1"; sample_input "U2" "e2"];
   postgres.CallMarkAllRead None 3%Z "acme" "U1";
   postgres.CallCreate None 4%Z (sample_input "U2" "e2")].

Section fanout_vocabulary.
Import domain application.

(** The tenant the origin user is filed under. *)
Definition origin_tenant (input : FanoutInput.t) : string :=
  if bool_decide (FanoutInput.TenantKey input = "") then "master"
  else FanoutInput.TenantKey input.

(** A resolver with fixed answers: the test double of [IAMResolver]. *)
Record fixed_resolver : Type := mk_fixed {
  tenant_users : string → list string;
  role_users : string → string → list string;
  platform_users : gmap string (list string)
}.

#[global] Instance fixed_IAMResolver : IAMResolver fixed_resolver := {|
  UsersByTenant tk r := (Ok (tenant_users r tk), r);
  UsersByRole tk role r := (Ok (role_users r tk role), r);
  AllActiveUsers r := (Ok (platform_users r), r)
|}.

(** The identity provider of the ROLE scenario: PLATFORM_ADMIN in "master"
    is held by A1 and A2. *)
Definition admins : fixed_resolver :=
  mk_fixed (λ _, []) (λ _ _, ["A1"; "A2"]) ∅.

(** What [tenantFanout] builds for a TENANT_CREATED event with
    [eventId = "t1"] and [createdBy = "A3"]. *)
Definition tenant_created : FanoutInput.t :=
  handlers.tenantFanout
    (handlers.tenantEnv.mk "TENANT_CREATED" "t1" "acme" "Acme" "pg" "" "A3")
    "Tenant created" "Tenant 'Acme' (DB: pg) created.".

End fanout_vocabulary.

(** A decoder for the example: every record decodes to the same command. *)
Definition sample_command : handlers.command.t :=
  handlers.command.mk "c1" "acme" "EVERYONE" "U1" "PROMO" "Hello" "World" ∅.

Section paging_vocabulary.
Import domain transport.

(** The specification's wording: a value clamped to a range. *)
Definition clamp (lo hi x : Z) : Z := Z.max lo (Z.min hi x).

(** The limit as the specification words it: the requested limit clamped to
    [1, 100], 20 when none is given. *)
Definition spec_limit (query : gmap string string) : Z :=
  match strconv.Atoi (QueryParam query "limit") with
  | Some v => clamp 1 100 v
  | None => 20
  end.

End paging_vocabulary.

Section verification_vocabulary.
Import mw.
Context {World : Type}.
Variable http_Get : string → World → result string * World.
Variable Now : World → Time.
Variable decode_jwks : string → result (list (gmap string any)).

(** The key set for [jwksURL] can be had: a cache entry younger than
    [jwksTTL] exists, or the endpoint replies with a body that decodes. *)
Definition jwks_available (jwksURL : string)
    (jwksCache : gmap string cachedJWKS) (w : World) : Prop :=
  (∃ cached, jwksCache !! jwksURL = Some cached
             ∧ (Now w - fetchAt cached ≤ jwksTTL)%Z)
  ∨ (∃ body w1 jwks, http_Get jwksURL w = (Ok body, w1)
                     ∧ decode_jwks body = Ok jwks).

End verification_vocabulary.

(** A run of the middleware: the endpoint serves an empty key set, the
    parser reads [iss] and [sub] off any token, and the library rejects the
    signature of every token. *)
Definition sample_claims : gmap string any :=
  <["iss" := AnyString "http://keycloak:8080/realms/acme"]>
    (<["sub" := AnyString "mallory"]> ∅).

Section platform_vocabulary.
Import keycloak.
Context {World : Type}.
Variable Do : Request → World → result Response * World.
Variable decode_token : string → result string.
Variable decode_users : string → result (list keycloakUser.t).

(** An enabled realm of that name is in the listing. *)
Definition listed_enabled (realms : list realmRep.t) (tk : string) : Prop :=
  ∃ realm, realm ∈ realms ∧ realmRep.Realm realm = tk
           ∧ realmRep.Enabled realm = true.

(** Every entry of the map stems from an enabled, non-administrative realm
    of the listing and holds the non-empty list of enabled users that a
    successful [listUsers] for that realm returned. *)
Definition sound (r : Resolver) (realms : list realmRep.t)
    (result : gmap string (list string)) : Prop :=
  ∀ tk ids, result !! tk = Some ids →
    ids ≠ [] ∧ tk ≠ adminRealm r ∧ listed_enabled realms tk
    ∧ ∃ w users,
        fst (listUsers Do decode_token decode_users r tk w) = Ok users
        ∧ ids = enabledIDs users.

End platform_vocabulary.

(** A provider for the example: the token endpoint and the realm listing
    answer, the users of "acme" are listed, every other request fails. *)
Definition sample_resolver : keycloak.Resolver :=
  keycloak.New "http://keycloak:8080" "master" "svc" "secret".

Definition sample_Do (req : keycloak.Request) (w : unit)
    : result keycloak.Response * unit :=
  if bool_decide (keycloak.URL req
       = "http://keycloak:8080/realms/master/protocol/openid-connect/token")
  then (Ok (keycloak.mk_Response 200 "token"), w)
  else if bool_decide (keycloak.URL req = "http://keycloak:8080/admin/realms")
  then (Ok (keycloak.mk_Response 200 "realms"), w)
  else if bool_decide (keycloak.URL req
       = "http://keycloak:8080/admin/realms/acme/users?enabled=true&max=1000")
  then (Ok (keycloak.mk_Response 200 "users"), w)
  else (Err "connection refused", w).

Definition sample_realms : list keycloak.realmRep.t :=
  [keycloak.realmRep.mk "master" true; keycloak.realmRep.mk "acme" true;
   keycloak.realmRep.mk "beta" true; keycloak.realmRep.mk "old" false].

Definition sample_users : list keycloak.keycloakUser.t :=
  [keycloak.keycloakUser.mk "u1" true; keycloak.keycloakUser.mk "u2" false].

(** * Properties *)

(** ** The idempotency index *)

Section idempotency.
Import domain postgres.

#[local] Arguments insert_tuple : simpl never.
#[local] Arguments args : simpl never.

Lemma keys_app (t1 t2 : list row) : keys (t1 ++ t2) = keys t1 ++ keys t2.
Proof. unfold keys. apply omap_app. Qed.

Lemma elem_of_keys (s : string) (t : list row) :
  s ∈ keys t ↔ ∃ r, r ∈ t ∧ source_event_id r = Some s.
Proof. unfold keys. rewrite list_elem_of_omap. reflexivity. Qed.

Lemma conflicts_keys (s : string) (t : list row) :
  conflicts (Some s) t = true ↔ s ∈ keys t.
Proof.
  simpl. rewrite existsb_exists, elem_of_keys. split.
  - intros (r & Hin & Hk). apply bool_decide_eq_true in Hk.
    exists r. split; [by apply list_elem_of_In | done].
  - intros (r & Hin & Hk). exists r.
    split; [by apply list_elem_of_In | by apply bool_decide_eq_true].
Qed.

Lemma conflicts_NULL (t : list row) : conflicts None t = false.
Proof. reflexivity. Qed.

(** What one proposed tuple does: nothing on an arbiter conflict, one fresh
    unread row at the end of the table otherwise. *)
Lemma insert_tuple_cases (now : Time) (v : values) (d : db) :
  (conflicts (snd v) (notifications d) = true
   ∧ insert_tuple now v d = (None, d))
  ∨ (conflicts (snd v) (notifications d) = false
     ∧ ∃ r, insert_tuple now v d =
              (Some r, mk_db (notifications d ++ [r]) (N.succ (uuid_supply d)))
          ∧ id r = uuid_supply d ∧ source_event_id r = snd v
          ∧ is_read r = false ∧ read_at r = None ∧ created_at r = now
          ∧ tenant_key r = fst (fst (fst (fst (fst (fst v)))))
          ∧ user_id r = snd (fst (fst (fst (fst (fst v)))))).
Proof.
  destruct v as [[[[[[tk uid] ty] ti] bo] me] sid]. unfold insert_tuple. simpl.
  destruct (conflicts sid (notifications d)) eqn:Hc.
  - left. done.
  - right. split; [done |]. eexists. split; [reflexivity |]. done.
Qed.

(** The two components of a VALUES list, one tuple at a time. *)
Lemma insert_values_cons_snd (now : Time) (v : values) (vs : list values) (d : db) :
  snd (insert_values now (v :: vs) d)
  = snd (insert_values now vs (snd (insert_tuple now v d))).
Proof.
  simpl. destruct (insert_tuple now v d) as [o d1]. simpl.
  by destruct (insert_values now vs d1).
Qed.

Lemma insert_values_cons_fst (now : Time) (v : values) (vs : list values) (d : db) :
  fst (insert_values now (v :: vs) d)
  = option_list (fst (insert_tuple now v d))
    ++ fst (insert_values now vs (snd (insert_tuple now v d))).
Proof.
  simpl. destruct (insert_tuple now v d) as [[r |] d1]; simpl;
    by destruct (insert_values now vs d1).
Qed.

(** A VALUES list only appends, and what it appends is what it returns. *)
Lemma insert_values_appends (now : Time) (vs : list values) (d : db) :
  notifications (snd (insert_values now vs d))
  = notifications d ++ fst (insert_values now vs d).
Proof.
  revert d. induction vs as [| v vs IH]; intros d.
  - simpl. by rewrite app_nil_r.
  - rewrite insert_values_cons_snd, insert_values_cons_fst, IH.
    destruct (insert_tuple_cases now v d) as [[_ E] | [_ (r & E & _)]];
      rewrite E; simpl; [done |]. by rewrite <- app_assoc.
Qed.

(** No returned row carries a key that was in the table before. *)
Lemma insert_values_fresh (now : Time) (vs : list values) (d : db) :
  ∀ r s, r ∈ fst (insert_values now vs d) → source_event_id r = Some s →
         s ∉ keys (notifications d).
Proof.
  revert d. induction vs as [| v vs IH]; intros d r s.
  - simpl. intros H. by apply elem_of_nil in H.
  - rewrite insert_values_cons_fst.
    destruct (insert_tuple_cases now v d)
      as [[_ E] | [Hc (r0 & E & _ & Hk & _)]]; rewrite E; simpl.
    + apply IH.
    + intros Hin Hs. apply elem_of_cons in Hin as [-> | Hin].
      * rewrite Hk in Hs. rewrite Hs in Hc.
        intros Hmem. apply conflicts_keys in Hmem. congruence.
      * specialize (IH _ r s Hin Hs). simpl in IH. rewrite keys_app in IH.
        intros Hmem. apply IH. apply elem_of_app. by left.
Qed.

Lemma args_key (input : CreateNotificationInput.t) :
  CreateNotificationInput.SourceEventID input ≠ "" →
  snd (args input) = Some (CreateNotificationInput.SourceEventID input).
Proof. intros H. unfold args. simpl. by rewrite bool_decide_eq_false_2. Qed.

Lemma insert_tuple_keyed (now : Time) (input : CreateNotificationInput.t)
    (seen : list string) (d : db) :
  CreateNotificationInput.SourceEventID input ≠ "" →
  keyed seen (notifications d) →
  keyed (seen ++ [CreateNotificationInput.SourceEventID input])
        (notifications (snd (insert_tuple now (args input) d))).
Proof.
  intros Hne (Hnd & Hlen & Hset).
  pose proof (args_key input Hne) as Hk.
  destruct (insert_tuple_cases now (args input) d)
    as [[Hc E] | [Hc (r & E & _ & Hkr & _)]]; rewrite E; simpl.
  - rewrite Hk in Hc. apply conflicts_keys in Hc.
    split; [done |]. split; [done |]. intros s. rewrite elem_of_app, <- Hset.
    rewrite list_elem_of_singleton. split; [tauto |]. intros [? | ->]; done.
  - rewrite Hk in Hc, Hkr.
    assert (CreateNotificationInput.SourceEventID input ∉ keys (notifications d))
      as Hnot.
    { intros Hmem. apply conflicts_keys in Hmem. congruence. }
    assert (keys [r] = [CreateNotificationInput.SourceEventID input]) as Hkeys1.
    { unfold keys. simpl. by rewrite Hkr. }
    unfold keyed. rewrite keys_app, Hkeys1. split; [| split].
    + apply NoDup_app. split; [done |]. split.
      * intros x Hx Hx'. apply list_elem_of_singleton in Hx'. by subst.
      * apply NoDup_singleton.
    + rewrite !length_app, Hlen. reflexivity.
    + intros s. rewrite !elem_of_app, Hset. reflexivity.
Qed.

Lemma insert_values_keyed (now : Time)
    (inputs : list CreateNotificationInput.t) (seen : list string) (d : db) :
  Forall (λ i, CreateNotificationInput.SourceEventID i ≠ "") inputs →
  keyed seen (notifications d) →
  keyed (seen ++ (CreateNotificationInput.SourceEventID <$> inputs))
        (notifications (snd (insert_values now (args <$> inputs) d))).
Proof.
  revert seen d. induction inputs as [| i inputs IH]; intros seen d Hall Hk.
  - simpl. by rewrite app_nil_r.
  - apply Forall_cons in Hall as [Hi Hall].
    pose proof (insert_tuple_keyed now i seen d Hi Hk) as H1.
    specialize (IH _ _ Hall H1).
    rewrite !fmap_cons, insert_values_cons_snd.
    by rewrite <- app_assoc in IH.
Qed.

(** Marking rows read changes neither the keys nor the number of rows. *)
Lemma sql_update_keyed (cond : row → bool) (now : Time) (seen : list string)
    (t : list row) :
  keyed seen t → keyed seen (fst (sql_update cond (set_read now) t)).
Proof.
  assert (keys (fst (sql_update cond (set_read now) t)) = keys t) as Hkeys.
  { unfold keys, sql_update. cbn [fst]. induction t as [| r t IH]; [done |].
    rewrite fmap_cons. cbn [omap list_omap]. rewrite IH. by destruct (cond r). }
  intros (Hnd & Hlen & Hset). unfold keyed. rewrite Hkeys.
  split; [done |]. split; [| done]. rewrite Hlen. unfold sql_update. simpl.
  by rewrite length_fmap.
Qed.

Lemma step_keyed (c : call) (seen : list string) (d : db) :
  ingests c → keyed seen (notifications d) →
  keyed (seen ++ (CreateNotificationInput.SourceEventID <$> proposed c))
        (notifications (step c d)).
Proof.
  intros Hing Hk.
  destruct c as [e now input | e now inputs | e now i tk u | e now tk u
    | e i tk u | e cutoff |]; try done; unfold step, proposed.
  - destruct Hing as [-> Hall]. apply Forall_cons in Hall as [Hi _].
    pose proof (insert_tuple_keyed now input seen d Hi Hk) as H1.
    unfold Create. destruct (insert_tuple now (args input) d) as [[r |] d1]; done.
  - destruct Hing as [-> Hall].
    destruct inputs as [| i inputs]; [simpl; by rewrite app_nil_r |].
    pose proof (insert_values_keyed now (i :: inputs) seen d Hall Hk) as H1.
    unfold BatchCreate.
    destruct (insert_values now (args <$> i :: inputs) d) as [rs d2]. done.
  - rewrite fmap_nil, app_nil_r. unfold MarkRead. destruct e as [e |]; [done |].
    pose proof (sql_update_keyed
      (λ r, owned_by i tk u r && negb (is_read r)) now seen _ Hk) as H1.
    destruct (sql_update _ _ _) as [t' n]. by destruct (n =? 0)%Z.
  - rewrite fmap_nil, app_nil_r. unfold MarkAllRead. destruct e as [e |]; [done |].
    pose proof (sql_update_keyed
      (λ r, owner_is tk u r && negb (is_read r)) now seen _ Hk) as H1.
    by destruct (sql_update _ _ _) as [t' n].
  - simpl. by rewrite app_nil_r.
Qed.

Lemma run_keyed (cs : list call) (seen : list string) (d : db) :
  Forall ingests cs → keyed seen (notifications d) →
  keyed (seen ++ (CreateNotificationInput.SourceEventID <$> (cs ≫= proposed)))
        (notifications (run cs d)).
Proof.
  revert seen d. induction cs as [| c cs IH]; intros seen d Hall Hk.
  - simpl. by rewrite app_nil_r.
  - apply Forall_cons in Hall as [Hc Hall]. simpl.
    rewrite fmap_app, app_assoc. apply IH; [done |]. by apply step_keyed.
Qed.

Lemma keyed_count (seen : list string) (t : list row) :
  keyed seen t → length t = size (list_to_set seen : gset string).
Proof.
  intros (Hnd & Hlen & Hset). rewrite <- Hlen.
  rewrite <- (size_list_to_set (C := gset string) (keys t) Hnd).
  f_equal. apply set_eq. intros s. rewrite !elem_of_list_to_set. apply Hset.
Qed.

(** [Repository.Create] on a stored key: "no new row", nothing changes. *)
Lemma Create_stored_key (now : Time) (input : CreateNotificationInput.t) (d : db) :
  CreateNotificationInput.SourceEventID input ≠ "" →
  CreateNotificationInput.SourceEventID input ∈ keys (notifications d) →
  Create None now input d = (Ok None, d).
Proof.
  intros Hne Hin. unfold Create.
  destruct (insert_tuple_cases now (args input) d)
    as [[_ E] | [Hc _]]; [by rewrite E |].
  rewrite (args_key input Hne) in Hc. apply conflicts_keys in Hin. congruence.
Qed.

(** C1.  Idempotency.  For every sequence of executed inserts ([Create] and
    [BatchCreate] calls, in any order and with any repetition, interleaved
    with any reads and mark-read calls) whose inputs all carry a non-empty
    [source_event_id], the number of rows in the table afterwards, starting
    from the empty table, is the number of distinct [source_event_id] values
    among the inputs.  In particular [Create] with an
    input whose [source_event_id] is already in the table reports "no new
    row" and leaves the database as it is, and [BatchCreate] only appends
    rows, none of which carries a [source_event_id] that was already in the
    table. *)
Theorem idempotent_row_count (cs : list call) :
  Forall ingests cs →
  length (notifications (run cs empty_db))
  = size (list_to_set (CreateNotificationInput.SourceEventID <$> (cs ≫= proposed))
          : gset string)
  ∧ (∀ d now input,
       CreateNotificationInput.SourceEventID input ≠ "" →
       CreateNotificationInput.SourceEventID input ∈ keys (notifications d) →
       Create None now input d = (Ok None, d))
  ∧ (∀ d now inputs,
       ∃ new, notifications (snd (BatchCreate None now inputs d))
              = notifications d ++ new
            ∧ fst (BatchCreate None now inputs d) = Ok (scanNotification <$> new)
            ∧ ∀ r s, r ∈ new → source_event_id r = Some s →
                     s ∉ keys (notifications d)).
Proof.
  intros Hall. split; [| split].
  - apply (keyed_count ([] ++ _)). apply run_keyed; [done |].
    split; [apply NoDup_nil_2 | split; [done |]]. done.
  - intros d now input Hne Hin. by apply Create_stored_key.
  - intros d now inputs. destruct inputs as [| i inputs].
    + exists []. simpl. split; [by rewrite app_nil_r |]. split; [done |].
      intros r s H. by apply elem_of_nil in H.
    + exists (fst (insert_values now (args <$> i :: inputs) d)).
      pose proof (insert_values_appends now (args <$> i :: inputs) d) as Happ.
      pose proof (insert_values_fresh now (args <$> i :: inputs) d) as Hfresh.
      unfold BatchCreate.
      destruct (insert_values now (args <$> i :: inputs) d) as [rs d2].
      simpl in *. done.
Qed.

End idempotency.

Lemma idempotent_row_count_witness :
  length (postgres.notifications (postgres.run sample_history postgres.empty_db))
  = 2%nat.
Proof.
  assert (Forall ingests sample_history) as Hall.
  { repeat constructor; discriminate. }
  destruct (idempotent_row_count sample_history Hall) as [Hcount _].
  rewrite Hcount. vm_compute. reflexivity.
Defined.

(** ** Read state *)

Section read_state.
Import domain postgres.

#[local] Arguments insert_tuple : simpl never.
#[local] Arguments args : simpl never.

Lemma NoDup_fmap_inj_on {A B : Type} (f : A → B) (l : list A) (x y : A) :
  NoDup (f <$> l) → x ∈ l → y ∈ l → f x = f y → x = y.
Proof.
  induction l as [| a l IH]; intros Hnd Hx Hy Hf.
  - by apply elem_of_nil in Hx.
  - rewrite fmap_cons in Hnd. apply NoDup_cons in Hnd as [Hnotin Hnd].
    apply elem_of_cons in Hx as [-> | Hx]; apply elem_of_cons in Hy as [-> | Hy].
    + done.
    + exfalso. apply Hnotin. rewrite Hf. by apply list_elem_of_fmap_2.
    + exfalso. apply Hnotin. rewrite <- Hf. by apply list_elem_of_fmap_2.
    + by apply IH.
Qed.

Lemma set_read_consistent (now : Time) (r : row) : read_consistent (set_read now r).
Proof. unfold read_consistent. simpl. split; eauto. Qed.

Lemma insert_tuple_wf (now : Time) (v : values) (d : db) :
  wf d → wf (snd (insert_tuple now v d)).
Proof.
  intros (Hnd & Hlt & Hrc).
  destruct (insert_tuple_cases now v d)
    as [[_ E] | [_ (r & E & Hid & _ & Hr & Hat & _)]]; rewrite E; simpl.
  - done.
  - unfold wf. simpl. split; [| split].
    + rewrite fmap_app. apply NoDup_app. split; [done |]. split.
      * intros x Hx Hx'. simpl in Hx'. apply list_elem_of_singleton in Hx'.
        apply list_elem_of_fmap in Hx as (r0 & -> & Hr0).
        rewrite Forall_forall in Hlt. specialize (Hlt r0 Hr0). lia.
      * simpl. apply NoDup_singleton.
    + apply Forall_app. split.
      * eapply Forall_impl; [exact Hlt |]. simpl. intros; lia.
      * apply Forall_singleton. lia.
    + apply Forall_app. split; [done |]. apply Forall_singleton.
      unfold read_consistent. rewrite Hr, Hat. split; [by intros [? ?] | done].
Qed.

Lemma insert_tuple_supply (now : Time) (v : values) (d : db) :
  (uuid_supply d ≤ uuid_supply (snd (insert_tuple now v d)))%N
  ∧ ∀ r, fst (insert_tuple now v d) = Some r → (uuid_supply d ≤ id r)%N.
Proof.
  destruct (insert_tuple_cases now v d)
    as [[_ E] | [_ (r & E & Hid & _)]]; rewrite E; simpl.
  - split; [lia | done].
  - split; [lia |]. intros r0 [= <-]. lia.
Qed.

Lemma insert_values_wf (now : Time) (vs : list values) (d : db) :
  wf d → wf (snd (insert_values now vs d)).
Proof.
  revert d. induction vs as [| v vs IH]; intros d Hwf; [done |].
  rewrite insert_values_cons_snd. apply IH. by apply insert_tuple_wf.
Qed.

Lemma insert_values_supply (now : Time) (vs : list values) (d : db) :
  Forall (λ r, (uuid_supply d ≤ id r)%N) (fst (insert_values now vs d)).
Proof.
  revert d. induction vs as [| v vs IH]; intros d; [by apply Forall_nil |].
  rewrite insert_values_cons_fst. apply Forall_app.
  destruct (insert_tuple_supply now v d) as [Hle Hnew]. split.
  - destruct (fst (insert_tuple now v d)) as [r |] eqn:E; simpl.
    + apply Forall_singleton. by apply Hnew.
    + apply Forall_nil_2.
  - eapply Forall_impl; [apply IH |]. simpl. intros; lia.
Qed.

Lemma sql_update_touched (cond : row → bool) (now : Time) (t : list row) :
  (∀ r, cond r = true → is_read r = false) →
  Forall2 (touched now) t (fst (sql_update cond (set_read now) t)).
Proof.
  intros Hcond. simpl. induction t as [| r t IH]; [constructor |].
  rewrite fmap_cons. constructor; [| exact IH].
  destruct (cond r) eqn:E; [right | left]; auto.
Qed.

Lemma sql_update_wf (cond : row → bool) (now : Time) (d : db) :
  wf d → wf (with_table d (fst (sql_update cond (set_read now) (notifications d)))).
Proof.
  intros (Hnd & Hlt & Hrc). unfold wf. simpl. split; [| split].
  - rewrite <- list_fmap_compose.
    erewrite list_fmap_ext; [exact Hnd |]. intros i r _. simpl.
    by destruct (cond r).
  - apply Forall_fmap. eapply Forall_impl; [exact Hlt |]. simpl. intros r Hr.
    by destruct (cond r).
  - apply Forall_fmap. eapply Forall_impl; [exact Hrc |]. simpl. intros r Hr.
    destruct (cond r); [apply set_read_consistent | done].
Qed.

Lemma Forall_filter_keep {A : Type} (P Q : A → Prop) `{∀ x, Decision (Q x)}
    (l : list A) :
  Forall P l → Forall P (filter Q l).
Proof.
  rewrite !Forall_forall. intros Hall x Hx.
  apply list_elem_of_filter in Hx as [_ Hx]. by apply Hall.
Qed.

Lemma sql_delete_wf (cond : row → bool) (d : db) :
  wf d → wf (with_table d (fst (sql_delete cond (notifications d)))).
Proof.
  intros (Hnd & Hlt & Hrc). unfold wf. simpl. split; [| split].
  - eapply sublist_NoDup; [exact Hnd | apply fmap_sublist, sublist_filter].
  - by apply Forall_filter_keep.
  - by apply Forall_filter_keep.
Qed.

Lemma unread_guard (p : row → bool) (r : row) :
  p r && negb (is_read r) = true → is_read r = false.
Proof. intros H. apply andb_true_iff in H as [_ H]. by apply negb_true_iff. Qed.

(** Whatever the driver does with the INSERT of [BatchCreate], the database
    is left as it was or as the VALUES list leaves it. *)
Lemma BatchCreate_db (e : option query_error) (now : Time)
    (inputs : list CreateNotificationInput.t) (d : db) :
  snd (BatchCreate e now inputs d) = d
  ∨ snd (BatchCreate e now inputs d) = snd (insert_values now (args <$> inputs) d).
Proof.
  unfold BatchCreate. destruct inputs as [| i inputs]; [by left |].
  destruct e as [[e | e | k e] |]; [by left | by left | |]; right;
    destruct (insert_values now (args <$> i :: inputs) d) as [rs d2];
    [by destruct (decide (k < length rs)%nat) | done].
Qed.

(** Every call is a no-op, a VALUES insert, an UPDATE of unread rows to
    read, or a DELETE. *)
Lemma step_cases (c : call) (d : db) :
  step c d = d
  ∨ (∃ now vs, step c d = snd (insert_values now vs d))
  ∨ (∃ cond now, (∀ r, cond r = true → is_read r = false)
       ∧ step c d
         = with_table d (fst (sql_update cond (set_read now) (notifications d))))
  ∨ (∃ cond, step c d = with_table d (fst (sql_delete cond (notifications d)))).
Proof.
  destruct c as [e now input | e now inputs | e now i tk u
    | e now tk u | e i tk u | e cutoff |]; try (by left).
  2: { unfold step. destruct (BatchCreate_db e now inputs d) as [E | E];
      [by left | right; left]. by exists now, (args <$> inputs). }
  all: destruct e as [e |]; unfold step.
  - by left.
  - right; left. exists now, [args input]. unfold Create.
    rewrite insert_values_cons_snd. simpl.
    by destruct (insert_tuple now (args input) d) as [[r |] d1].
  - by left.
  - right; right; left.
    exists (λ r, owned_by i tk u r && negb (is_read r)), now.
    split; [apply unread_guard |]. unfold MarkRead.
    destruct (sql_update _ _ _) as [t' n]. by destruct (n =? 0)%Z.
  - by left.
  - right; right; left.
    exists (λ r, owner_is tk u r && negb (is_read r)), now.
    split; [apply unread_guard |]. unfold MarkAllRead.
    by destruct (sql_update _ _ _) as [t' n].
  - by left.
  - right; right; right. exists (owned_by i tk u). unfold Delete.
    destruct (sql_delete _ _) as [t' n]. by destruct (n =? 0)%Z.
  - by left.
  - right; right; right. exists (λ r, (created_at r <? cutoff)%Z).
    unfold PurgeOlderThan. by destruct (sql_delete _ _) as [t' n].
Qed.

Lemma step_wf (c : call) (d : db) : wf d → wf (step c d).
Proof.
  intros Hwf.
  destruct (step_cases c d)
    as [-> | [(now & vs & ->) | [(cond & now & _ & ->) | (cond & ->)]]].
  - done.
  - by apply insert_values_wf.
  - by apply sql_update_wf.
  - by apply sql_delete_wf.
Qed.

Lemma empty_db_wf : wf empty_db.
Proof. split; [apply NoDup_nil_2 | split; apply Forall_nil_2]. Qed.

Lemma run_wf (cs : list call) (d : db) : wf d → wf (run cs d).
Proof.
  revert d. induction cs as [| c cs IH]; intros d Hwf; [done |].
  simpl. apply IH. by apply step_wf.
Qed.

Lemma keeps_read_append (d : db) (new : list row) (supply : UUID) :
  wf d → Forall (λ r, (uuid_supply d ≤ id r)%N) new →
  keeps_read d (mk_db (notifications d ++ new) supply).
Proof.
  intros (Hnd & Hlt & _) Hnew r r' Hr Hread Hr' Hid. simpl in Hr'.
  apply elem_of_app in Hr' as [Hr' | Hr'].
  - by eapply (NoDup_fmap_inj_on id).
  - rewrite Forall_forall in Hlt, Hnew.
    specialize (Hlt r Hr). specialize (Hnew r' Hr'). simpl in *. lia.
Qed.

Lemma keeps_read_update (cond : row → bool) (now : Time) (d : db) :
  wf d → (∀ r, cond r = true → is_read r = false) →
  keeps_read d (with_table d (fst (sql_update cond (set_read now) (notifications d)))).
Proof.
  intros (Hnd & _ & _) Hcond r r' Hr Hread Hr' Hid. simpl in Hr'.
  apply list_elem_of_fmap in Hr' as (r0 & -> & Hr0).
  assert (id r0 = id r) as Hid0 by (by destruct (cond r0)).
  assert (r0 = r) as -> by (by eapply (NoDup_fmap_inj_on id)).
  destruct (cond r) eqn:E; [| done]. apply Hcond in E. congruence.
Qed.

Lemma keeps_read_delete (cond : row → bool) (d : db) :
  wf d → keeps_read d (with_table d (fst (sql_delete cond (notifications d)))).
Proof.
  intros (Hnd & _ & _) r r' Hr Hread Hr' Hid. simpl in Hr'.
  apply list_elem_of_filter in Hr' as [_ Hr'].
  by eapply (NoDup_fmap_inj_on id).
Qed.

Lemma keeps_read_refl (d : db) : wf d → keeps_read d d.
Proof.
  intros (Hnd & _ & _) r r' Hr _ Hr' Hid. by eapply (NoDup_fmap_inj_on id).
Qed.

Lemma step_keeps_read (c : call) (d : db) : wf d → keeps_read d (step c d).
Proof.
  intros Hwf.
  destruct (step_cases c d)
    as [-> | [(now & vs & ->) | [(cond & now & Hc & ->) | (cond & ->)]]].
  - by apply keeps_read_refl.
  - pose proof (insert_values_appends now vs d) as Happ.
    pose proof (insert_values_supply now vs d) as Hsup.
    destruct (insert_values now vs d) as [rs [t2 s2]].
    simpl in *. subst t2. by apply keeps_read_append.
  - by apply keeps_read_update.
  - by apply keeps_read_delete.
Qed.

Lemma MarkRead_touched (e : option string) (now : Time) (i : UUID)
    (tk u : string) (d : db) :
  Forall2 (touched now) (notifications d)
    (notifications (snd (MarkRead e now i tk u d))).
Proof.
  unfold MarkRead. destruct e as [e |].
  - apply Forall2_same_length_lookup_2; [done |]. intros k r r' H1 H2.
    left. simpl in H2. congruence.
  - pose proof (sql_update_touched
      (λ r, owned_by i tk u r && negb (is_read r)) now (notifications d)
      (unread_guard (owned_by i tk u))) as H.
    destruct (sql_update _ _ _) as [t' n]. by destruct (n =? 0)%Z.
Qed.

Lemma MarkAllRead_touched (e : option string) (now : Time)
    (tk u : string) (d : db) :
  Forall2 (touched now) (notifications d)
    (notifications (snd (MarkAllRead e now tk u d))).
Proof.
  unfold MarkAllRead. destruct e as [e |].
  - apply Forall2_same_length_lookup_2; [done |]. intros k r r' H1 H2.
    left. simpl in H2. congruence.
  - pose proof (sql_update_touched
      (λ r, owner_is tk u r && negb (is_read r)) now (notifications d)
      (unread_guard (owner_is tk u))) as H.
    by destruct (sql_update _ _ _) as [t' n].
Qed.

(** C5.  Read-state invariant.  In every database the repository can reach
    from the empty table, and after any further call (executed or rejected by
    the driver): every row has [read_at] non-null exactly when [is_read] is
    true; a row that was read is still in the table only with [is_read] true
    and the same [read_at]; and [MarkRead] and [MarkAllRead], on any table,
    leave each row as it is or turn a row with [is_read = false] into the row
    with [is_read = true] and [read_at = now], both fields together. *)
Theorem read_state_preserved (cs : list call) (c : call) :
  let d := run cs empty_db in
  let d' := step c d in
  Forall read_consistent (notifications d')
  ∧ (∀ r r', r ∈ notifications d → is_read r = true →
             r' ∈ notifications d' → id r' = id r →
             is_read r' = true ∧ read_at r' = read_at r)
  ∧ (∀ e now i tk u t,
       Forall2 (touched now) (notifications t)
         (notifications (snd (MarkRead e now i tk u t))))
  ∧ (∀ e now tk u t,
       Forall2 (touched now) (notifications t)
         (notifications (snd (MarkAllRead e now tk u t)))).
Proof.
  intros d d'. pose proof (run_wf cs empty_db empty_db_wf) as Hwf.
  fold d in Hwf. split; [| split; [| split]].
  - by destruct (step_wf c d Hwf) as (_ & _ & H).
  - intros r r' Hr Hread Hr' Hid.
    rewrite (step_keeps_read c d Hwf r r' Hr Hread Hr' Hid). done.
  - intros. apply MarkRead_touched.
  - intros. apply MarkAllRead_touched.
Qed.

Lemma filter_none {A : Type} (P : A → Prop) `{∀ x, Decision (P x)} (l : list A) :
  (∀ x, x ∈ l → ¬ P x) → filter P l = [].
Proof.
  induction l as [| a l IH]; intros Hall; [done |].
  rewrite filter_cons. destruct (decide (P a)) as [Hp | _].
  - exfalso. apply (Hall a); [apply elem_of_cons; by left | done].
  - apply IH. intros x Hx. apply Hall. apply elem_of_cons. by right.
Qed.

Lemma MarkRead_nothing_unread (now : Time) (i : UUID) (tk u : string) (d : db) :
  (∀ r, r ∈ notifications d → owned_by i tk u r = true → is_read r = true) →
  MarkRead None now i tk u d = (Err "notification not found or already read", d).
Proof.
  intros Hall. unfold MarkRead, sql_update.
  assert (filter (λ r, owned_by i tk u r && negb (is_read r) = true)
            (notifications d) = []) as ->.
  { apply filter_none. intros r Hr Hc.
    apply andb_true_iff in Hc as [Ho Hn]. apply negb_true_iff in Hn.
    specialize (Hall r Hr Ho). congruence. }
  simpl. f_equal. destruct d as [t s]. unfold with_table. simpl. f_equal.
  rewrite <- (list_fmap_id t) at 2. apply list_fmap_ext. intros k r Hk. simpl.
  destruct (owned_by i tk u r && negb (is_read r)) eqn:E; [| done].
  apply andb_true_iff in E as [Ho Hn]. apply negb_true_iff in Hn.
  apply list_elem_of_lookup_2 in Hk. simpl in Hall.
  specialize (Hall r Hk Ho). congruence.
Qed.

Lemma MarkRead_some_unread (now : Time) (i : UUID) (tk u : string) (d : db) (r : row) :
  r ∈ notifications d → owned_by i tk u r = true → is_read r = false →
  fst (MarkRead None now i tk u d) = Ok tt.
Proof.
  intros Hr Ho Hread. unfold MarkRead, sql_update.
  destruct (filter (λ r, owned_by i tk u r && negb (is_read r) = true)
              (notifications d)) as [| r0 l] eqn:E.
  - exfalso. apply (filter_nil_not_elem_of _ _ r E); [| done].
    simpl. by rewrite Ho, Hread.
  - done.
Qed.

(** C6.  [MarkRead] on an executed statement.  The table afterwards is the
    table before, row by row: a row that matches [id], [tenant_key] and
    [user_id] and is unread has [is_read = true] and [read_at = now] and its
    nine other columns as before; every other row is as it was.  The call
    returns the "not found or already read" error if and only if every row
    matching the three keys (there may be none) is already read, and returns
    success otherwise.  When it returns the error the database is unchanged,
    and the same call repeated at any later time returns the same error. *)
Theorem MarkRead_contract (now : Time) (i : UUID) (tk u : string) (d : db) :
  let res := MarkRead None now i tk u d in
  notifications (snd res)
  = (λ r, if bool_decide (id r = i) && bool_decide (tenant_key r = tk)
             && bool_decide (user_id r = u) && negb (is_read r)
          then mk_row (id r) (tenant_key r) (user_id r) (type_ r) (title r)
                 (body r) (metadata r) true (Some now) (created_at r)
                 (source_event_id r)
          else r)
      <$> notifications d
  ∧ (∀ r, r ∈ notifications d → owned_by i tk u r = true → is_read r = false →
          ∃ r', r' ∈ notifications (snd res) ∧ id r' = id r
                ∧ is_read r' = true ∧ read_at r' = Some now)
  ∧ (fst res = Err "notification not found or already read"
     ↔ ∀ r, r ∈ notifications d → owned_by i tk u r = true → is_read r = true)
  ∧ (fst res = Ok tt ∨ fst res = Err "notification not found or already read")
  ∧ (is_Err (fst res) = true →
     snd res = d ∧ ∀ now', MarkRead None now' i tk u (snd res) = res).
Proof.
  intros res. subst res.
  assert (Decision (∃ r, r ∈ notifications d
                         ∧ owned_by i tk u r = true ∧ is_read r = false)) as Hdec.
  { destruct (decide (Exists (λ r, owned_by i tk u r = true ∧ is_read r = false)
                        (notifications d))) as [Hex | Hnex];
      [left | right]; by rewrite <- Exists_exists. }
  assert ((¬ ∃ r, r ∈ notifications d
                  ∧ owned_by i tk u r = true ∧ is_read r = false) →
          ∀ r, r ∈ notifications d → owned_by i tk u r = true →
               is_read r = true) as Hall.
  { intros Hnex r Hr Ho. destruct (is_read r) eqn:Hread; [done |].
    exfalso. apply Hnex. by exists r. }
  assert (notifications (snd (MarkRead None now i tk u d))
          = (λ r, if bool_decide (id r = i) && bool_decide (tenant_key r = tk)
                     && bool_decide (user_id r = u) && negb (is_read r)
                  then mk_row (id r) (tenant_key r) (user_id r) (type_ r) (title r)
                         (body r) (metadata r) true (Some now) (created_at r)
                         (source_event_id r)
                  else r)
              <$> notifications d) as Htable.
  { unfold MarkRead, sql_update. simpl. by destruct (_ =? 0)%Z. }
  split; [exact Htable |]. split; [| split; [| split]].
  - intros r Hr Ho Hread. rewrite Htable. eexists. split.
    + apply list_elem_of_fmap. exists r. split; [reflexivity | done].
    + unfold owned_by in Ho. rewrite Ho, Hread. done.
  - split.
    + intros Herr r Hr Ho. destruct (is_read r) eqn:Hread; [done |].
      rewrite (MarkRead_some_unread now i tk u d r Hr Ho Hread) in Herr. done.
    + intros H. by rewrite MarkRead_nothing_unread.
  - destruct Hdec as [(r & Hr & Ho & Hread) | Hnex].
    + left. by eapply MarkRead_some_unread.
    + right. rewrite MarkRead_nothing_unread; [done | by apply Hall].
  - intros Herr. destruct Hdec as [(r & Hr & Ho & Hread) | Hnex].
    + rewrite (MarkRead_some_unread now i tk u d r Hr Ho Hread) in Herr. done.
    + specialize (Hall Hnex). rewrite (MarkRead_nothing_unread now i tk u d Hall).
      cbn [fst snd]. split; [done |]. intros now'.
      by rewrite (MarkRead_nothing_unread now' i tk u d Hall).
Qed.

End read_state.

(** ** Scope resolution *)

Section resolution.
Import domain application.
Context {R : Type} `{IAMResolver R}.

Lemma found_spec (origin : string) (result : gmap string (list string)) :
  found origin result = true
  ↔ ∃ tk uids, result !! tk = Some uids ∧ origin ∈ uids.
Proof.
  unfold found. rewrite existsb_exists. split.
  - intros ([tk uids] & Hin & Hex). apply existsb_exists in Hex as (uid & Hu & Heq).
    apply bool_decide_eq_true in Heq. subst uid. exists tk, uids. split.
    + apply elem_of_map_to_list. by apply list_elem_of_In.
    + by apply list_elem_of_In.
  - intros (tk & uids & Hlk & Hin). exists (tk, uids). split.
    + apply list_elem_of_In. by apply elem_of_map_to_list.
    + apply existsb_exists. exists origin.
      split; [by apply list_elem_of_In | by apply bool_decide_eq_true].
Qed.

Lemma copy_map_id (all : gmap string (list string)) : copy_map all = all.
Proof.
  unfold copy_map.
  apply (map_fold_weak_ind (λ (res m : gmap string (list string)), res = m)).
  - done.
  - intros tk uids m res _ ->. done.
Qed.

Lemma includeOrigin_absent (input : FanoutInput.t)
    (result : gmap string (list string)) :
  FanoutInput.OriginUserID input ≠ "" →
  (∀ tk uids, result !! tk = Some uids → FanoutInput.OriginUserID input ∉ uids) →
  includeOrigin input result
  = <[origin_tenant input :=
        default [] (result !! origin_tenant input)
        ++ [FanoutInput.OriginUserID input]]> result.
Proof.
  intros Hne Habs. unfold includeOrigin, origin_tenant.
  rewrite bool_decide_eq_false_2 by done.
  destruct (found _ result) eqn:Hf; [| done].
  apply found_spec in Hf as (tk & uids & Hlk & Hin). by destruct (Habs tk uids).
Qed.

Lemma includeOrigin_unchanged (input : FanoutInput.t)
    (result : gmap string (list string)) :
  FanoutInput.OriginUserID input = ""
  ∨ (∃ tk uids, result !! tk = Some uids ∧ FanoutInput.OriginUserID input ∈ uids) →
  includeOrigin input result = result.
Proof.
  intros [Hempty | Hex]; unfold includeOrigin.
  - by rewrite bool_decide_eq_true_2.
  - destruct (bool_decide _); [done |]. apply found_spec in Hex. by rewrite Hex.
Qed.

(** C3.  [resolveTargets], for every resolver implementation and every state
    [r] of it.  USER yields [{tenantKey: [targetID]}] and hands the resolver
    back untouched, whatever the implementation; TENANT, ROLE and PLATFORM
    yield the answer of [UsersByTenant tenantKey], [UsersByRole tenantKey
    targetID] and [AllActiveUsers]; any other scope is an error.  The
    resolved map then goes through [includeOrigin]: when [OriginUserID] is
    non-empty and in no value list it is appended to the list under the
    request's [TenantKey], or under "master" when that is empty; in every
    other case the map is returned as it is. *)
Theorem resolveTargets_contract (input : FanoutInput.t) (r : R) :
  let scope := FanoutInput.TargetScope_ input in
  let tenantKey := FanoutInput.TenantKey input in
  let targetID := FanoutInput.TargetID input in
  let origin := FanoutInput.OriginUserID input in
  (scope = "USER" →
     resolveTargets input r
     = (Ok (includeOrigin input {[tenantKey := [targetID]]}), r))
  ∧ (scope = "TENANT" → ∀ userIDs r',
       UsersByTenant tenantKey r = (Ok userIDs, r') →
       resolveTargets input r
       = (Ok (includeOrigin input {[tenantKey := userIDs]}), r'))
  ∧ (scope = "ROLE" → ∀ userIDs r',
       UsersByRole tenantKey targetID r = (Ok userIDs, r') →
       resolveTargets input r
       = (Ok (includeOrigin input {[tenantKey := userIDs]}), r'))
  ∧ (scope = "PLATFORM" → ∀ all r',
       AllActiveUsers r = (Ok all, r') →
       resolveTargets input r = (Ok (includeOrigin input all), r'))
  ∧ (scope ∉ ["USER"; "TENANT"; "ROLE"; "PLATFORM"] →
       ∃ e, resolveTargets input r = (Err e, r))
  ∧ (∀ result : gmap string (list string),
       origin ≠ "" →
       (∀ tk uids, result !! tk = Some uids → origin ∉ uids) →
       includeOrigin input result
       = <[(if bool_decide (tenantKey = "") then "master" else tenantKey) :=
             default []
               (result !! (if bool_decide (tenantKey = "") then "master"
                           else tenantKey))
             ++ [origin]]> result)
  ∧ (∀ result : gmap string (list string),
       origin = "" ∨ (∃ tk uids, result !! tk = Some uids ∧ origin ∈ uids) →
       includeOrigin input result = result).
Proof.
  intros scope tenantKey targetID origin.
  unfold resolveTargets, resolveScope. fold scope tenantKey targetID.
  unfold ScopeUser, ScopeTenant, ScopeRole, ScopePlatform.
  repeat split.
  - intros ->. simpl. by rewrite insert_empty.
  - intros -> userIDs r' E. simpl. rewrite E. by rewrite insert_empty.
  - intros -> userIDs r' E. simpl. rewrite E. by rewrite insert_empty.
  - intros -> all r' E. simpl. rewrite E. by rewrite copy_map_id.
  - intros Hnot.
    rewrite !bool_decide_eq_false_2; [by eexists | | | |];
      intros E; apply Hnot; rewrite E; set_solver.
  - intros result Hne Habs. by apply includeOrigin_absent.
  - intros result Hcase. by apply includeOrigin_unchanged.
Qed.

End resolution.

(** ** Fan-out and push *)

Section fanout.
Import domain application.
Context {R : Type} `{IAMResolver R}.

#[local] Arguments postgres.insert_tuple : simpl never.
#[local] Arguments postgres.args : simpl never.

Lemma flatten_key (input : FanoutInput.t) (entries : list (string * list string)) :
  Forall (λ i, CreateNotificationInput.SourceEventID i
               = FanoutInput.SourceEventID input)
    (flatten input entries).
Proof.
  unfold flatten. apply Forall_forall. intros i Hi.
  apply list_elem_of_bind in Hi as ([tk uids] & Hi & _).
  apply list_elem_of_fmap in Hi as (uid & -> & _). done.
Qed.

(** Proposing only keys that are already stored inserts nothing. *)
Lemma insert_values_all_conflict (now : Time) (s : string)
    (inputs : list CreateNotificationInput.t) (d : postgres.db) :
  s ≠ "" → s ∈ keys (postgres.notifications d) →
  Forall (λ i, CreateNotificationInput.SourceEventID i = s) inputs →
  postgres.insert_values now (postgres.args <$> inputs) d = ([], d).
Proof.
  intros Hne Hin. induction inputs as [| i inputs IH]; intros Hall; [done |].
  apply Forall_cons in Hall as [Hi Hall]. specialize (IH Hall).
  rewrite fmap_cons. simpl.
  destruct (insert_tuple_cases now (postgres.args i) d) as [[_ E] | [Hc _]].
  - rewrite E, IH. done.
  - rewrite args_key in Hc by congruence. rewrite Hi in Hc.
    apply conflicts_keys in Hin. congruence.
Qed.

(** After the first row of a key is stored, a batch sharing that key stores
    nothing more: a VALUES list whose tuples all carry one key inserts at
    most one row. *)
Lemma insert_values_shared_key (now : Time) (s : string)
    (inputs : list CreateNotificationInput.t) (d : postgres.db) :
  s ≠ "" →
  Forall (λ i, CreateNotificationInput.SourceEventID i = s) inputs →
  (length (fst (postgres.insert_values now (postgres.args <$> inputs) d)) ≤ 1)%nat.
Proof.
  intros Hne Hall. destruct inputs as [| i inputs]; [simpl; lia |].
  apply Forall_cons in Hall as [Hi Hall].
  rewrite fmap_cons, insert_values_cons_fst.
  destruct (insert_tuple_cases now (postgres.args i) d)
    as [[Hc E] | [Hc (r & E & _ & Hk & _)]]; rewrite E; cbn [fst snd option_list].
  - rewrite args_key in Hc by congruence. rewrite Hi in Hc.
    apply conflicts_keys in Hc.
    rewrite (insert_values_all_conflict now s inputs d Hne Hc Hall). simpl. lia.
  - rewrite args_key in Hk by congruence. rewrite Hi in Hk.
    rewrite (insert_values_all_conflict now s inputs); [simpl; lia | done | | done].
    simpl. rewrite keys_app. apply elem_of_app. right.
    unfold keys. simpl. rewrite Hk. apply list_elem_of_singleton. done.
Qed.

(** What [Fanout] does to the table and to the hub, in terms of the rows
    the store appended. *)
Lemma Fanout_appends (order : gmap string (list string) → list (string * list string))
    (dbErr : option postgres.query_error) (now : Time) (input : FanoutInput.t)
    (s : Service R) :
  ∃ new,
    postgres.notifications (repo (snd (Fanout order dbErr now input s)))
    = postgres.notifications (repo s) ++ new
    ∧ hub (snd (Fanout order dbErr now input s))
      = hub s ++ (Broadcast <$> (postgres.scanNotification <$> reported dbErr new))
    ∧ (∀ r sid, r ∈ new → postgres.source_event_id r = Some sid →
                sid ∉ keys (postgres.notifications (repo s)))
    ∧ (FanoutInput.SourceEventID input ≠ "" → (length new ≤ 1)%nat).
Proof.
  assert (∀ (h : list broadcast) (d : postgres.db),
            ∃ new : list postgres.row,
              postgres.notifications d = postgres.notifications d ++ new
              ∧ h = h ++ (Broadcast <$> (postgres.scanNotification
                                           <$> reported dbErr new))
              ∧ (∀ r sid, r ∈ new → postgres.source_event_id r = Some sid →
                          sid ∉ keys (postgres.notifications d))
              ∧ (FanoutInput.SourceEventID input ≠ "" → (length new ≤ 1)%nat))
    as Hnothing.
  { intros h d. exists []. rewrite app_nil_r.
    assert (reported dbErr [] = []) as ->.
    { by destruct dbErr as [[e | e | k e] |]. }
    simpl. rewrite app_nil_r. repeat split; try done.
    - intros r sid Hr. by apply elem_of_nil in Hr.
    - intros; lia. }
  unfold Fanout.
  destruct (resolveTargets input (resolver s)) as [[m | e] r'];
    [| apply Hnothing].
  pose proof (flatten_key input (order m)) as Hkey.
  destruct (flatten input (order m)) as [| i batch] eqn:Hb; [apply Hnothing |].
  unfold postgres.BatchCreate.
  destruct dbErr as [[e | e | k e] |];
    [apply Hnothing
    | rewrite fmap_nil, app_nil_r; apply Hnothing | |].
  all: pose proof (insert_values_appends now (postgres.args <$> i :: batch) (repo s))
    as Happ.
  all: pose proof (insert_values_fresh now (postgres.args <$> i :: batch) (repo s))
    as Hfresh.
  all: pose proof (λ Hne, insert_values_shared_key now
    (FanoutInput.SourceEventID input) (i :: batch) (repo s) Hne Hkey) as Hone.
  all: destruct (postgres.insert_values now (postgres.args <$> i :: batch) (repo s))
    as [rs d2]; exists rs; cbn [fst snd repo hub reported] in *.
  - destruct (decide (k < length rs)%nat); cbn [fst snd repo hub];
      [| done]. split; [done |]. split; [| done]. simpl. by rewrite app_nil_r.
  - done.
Qed.

Lemma keyed_equiv (seen seen' : list string) (t : list postgres.row) :
  (∀ s, s ∈ seen ↔ s ∈ seen') → keyed seen t → keyed seen' t.
Proof.
  intros Heq (Hnd & Hlen & Hset). split; [done |]. split; [done |].
  intros s. by rewrite Hset.
Qed.

(** Idempotency at the level of events: a fan-out that the store executes,
    for a request with a source event id, leaves the table keyed; the key
    of the request is stored as soon as it reaches one recipient. *)
Lemma Fanout_keyed (order : gmap string (list string) → list (string * list string))
    (now : Time) (input : FanoutInput.t) (s : Service R) (seen : list string) :
  FanoutInput.SourceEventID input ≠ "" →
  keyed seen (postgres.notifications (repo s)) →
  (∀ usersByTenant r',
     resolveTargets input (resolver s) = (Ok usersByTenant, r') →
     flatten input (order usersByTenant) ≠ [] →
     keyed (seen ++ [FanoutInput.SourceEventID input])
       (postgres.notifications (repo (snd (Fanout order None now input s)))))
  ∧ ((is_Err (fst (resolveTargets input (resolver s))) = true
      ∨ ∃ usersByTenant r',
          resolveTargets input (resolver s) = (Ok usersByTenant, r')
          ∧ flatten input (order usersByTenant) = []) →
     postgres.notifications (repo (snd (Fanout order None now input s)))
     = postgres.notifications (repo s)).
Proof.
  intros Hne Hk. unfold Fanout. split.
  - intros m r' -> Hbatch.
    pose proof (flatten_key input (order m)) as Hkey.
    destruct (flatten input (order m)) as [| i batch] eqn:Hb; [done |].
    assert (Forall (λ i, CreateNotificationInput.SourceEventID i ≠ "")
              (i :: batch)) as Hall.
    { eapply Forall_impl; [exact Hkey |]. simpl. intros x ->. done. }
    pose proof (insert_values_keyed now (i :: batch) seen (repo s) Hall Hk) as H1.
    unfold postgres.BatchCreate.
    destruct (postgres.insert_values now (postgres.args <$> i :: batch) (repo s))
      as [rs d2]. cbn [fst snd repo] in *.
    eapply keyed_equiv; [| exact H1]. intros x. rewrite !elem_of_app.
    rewrite list_elem_of_singleton.
    assert (x ∈ CreateNotificationInput.SourceEventID <$> i :: batch
            ↔ x = FanoutInput.SourceEventID input) as ->; [| done].
    rewrite list_elem_of_fmap. split.
    + intros (y & -> & Hy). rewrite Forall_forall in Hkey. by apply Hkey.
    + intros ->. exists i. apply Forall_cons in Hkey as [Hi _].
      split; [done | apply elem_of_cons; by left].
  - intros [Herr | (m & r' & -> & ->)]; [| done].
    by destruct (resolveTargets input (resolver s)) as [[m | e] r'].
Qed.

(** C4.  Duplicates are neither failures nor pushed.  [Service.Create] on an
    input whose [source_event_id] is already stored returns success with no
    entity and leaves table and hub as they were.  [Service.Fanout], in any
    run and whatever the driver does, hands to the hub exactly the rows its
    [BatchCreate] reports: the rows appended to the table, in that order (all
    of them unless the scan of a returned row failed, and then none), and
    no appended row carries a [source_event_id] that was stored before; a
    redelivered request, whose [source_event_id] is already stored, succeeds
    with no broadcast and no new row. *)
Theorem duplicates_never_pushed :
  (∀ now input (s : Service R),
     CreateNotificationInput.SourceEventID input ≠ "" →
     CreateNotificationInput.SourceEventID input
       ∈ keys (postgres.notifications (repo s)) →
     Create None now input s = (Ok None, s))
  ∧ (∀ order dbErr now input (s : Service R),
       ∃ new,
         postgres.notifications (repo (snd (Fanout order dbErr now input s)))
         = postgres.notifications (repo s) ++ new
         ∧ hub (snd (Fanout order dbErr now input s))
           = hub s ++ (Broadcast <$> (postgres.scanNotification
                                        <$> reported dbErr new))
         ∧ ((∀ k e, dbErr ≠ Some (postgres.ScanError k e)) →
            hub (snd (Fanout order dbErr now input s))
            = hub s ++ (Broadcast <$> (postgres.scanNotification <$> new)))
         ∧ ∀ r sid, r ∈ new → postgres.source_event_id r = Some sid →
                    sid ∉ keys (postgres.notifications (repo s)))
  ∧ (∀ order now input (s : Service R) usersByTenant r',
       FanoutInput.SourceEventID input ≠ "" →
       FanoutInput.SourceEventID input
         ∈ keys (postgres.notifications (repo s)) →
       resolveTargets input (resolver s) = (Ok usersByTenant, r') →
       Fanout order None now input s
       = (Ok tt, mk_Service (repo s) (hub s) r')).
Proof.
  split; [| split].
  - intros now input [d h r] Hne Hin. unfold Create. cbn [repo hub resolver] in *.
    by rewrite (Create_stored_key now input d Hne Hin).
  - intros order dbErr now input s.
    destruct (Fanout_appends order dbErr now input s) as (new & H1 & H2 & H3 & _).
    exists new. split; [done |]. split; [done |]. split; [| done].
    intros Hscan. rewrite H2.
    destruct dbErr as [[e | e | k e] |]; try done. by destruct (Hscan k e).
  - intros order now input s m r' Hne Hin Hres. unfold Fanout. rewrite Hres.
    pose proof (flatten_key input (order m)) as Hkey.
    destruct (flatten input (order m)) as [| i batch]; [done |].
    unfold postgres.BatchCreate.
    rewrite (insert_values_all_conflict now _ (i :: batch) (repo s) Hne Hin Hkey).
    simpl. by rewrite app_nil_r.
Qed.

End fanout.

(** ** Rows per recipient *)

Section recipients.
Import domain application.

#[local] Arguments postgres.insert_tuple : simpl never.
#[local] Arguments postgres.args : simpl never.

(** The batch holds one input per (tenant, user) pair of the resolved map,
    whatever the visiting order. *)
Lemma flatten_pairs (input : FanoutInput.t) (m : gmap string (list string))
    (order : gmap string (list string) → list (string * list string))
    (tk uid : string) :
  order m ≡ₚ map_to_list m →
  (∃ i, i ∈ flatten input (order m)
        ∧ CreateNotificationInput.TenantKey i = tk
        ∧ CreateNotificationInput.UserID i = uid)
  ↔ ∃ uids, m !! tk = Some uids ∧ uid ∈ uids.
Proof.
  intros Hperm. unfold flatten. split.
  - intros (i & Hi & <- & <-).
    apply list_elem_of_bind in Hi as ([tk uids] & Hi & Hin).
    apply list_elem_of_fmap in Hi as (uid & -> & Hu). simpl.
    exists uids. split; [| done].
    apply elem_of_map_to_list. by rewrite <- Hperm.
  - intros (uids & Hlk & Hu).
    exists (CreateNotificationInput.mk tk uid (FanoutInput.Type_ input)
              (FanoutInput.Title input) (FanoutInput.Body input)
              (FanoutInput.Metadata_ input) (FanoutInput.SourceEventID input)).
    split; [| done].
    apply list_elem_of_bind. exists (tk, uids). split.
    + apply list_elem_of_fmap. by exists uid.
    + rewrite Hperm. by apply elem_of_map_to_list.
Qed.

(** With a NULL key the arbiter index never fires: every tuple is stored. *)
Lemma insert_values_NULL_key (now : Time)
    (inputs : list CreateNotificationInput.t) (d : postgres.db) :
  Forall (λ i, CreateNotificationInput.SourceEventID i = "") inputs →
  length (fst (postgres.insert_values now (postgres.args <$> inputs) d))
  = length inputs.
Proof.
  revert d. induction inputs as [| i inputs IH]; intros d Hall; [done |].
  apply Forall_cons in Hall as [Hi Hall].
  rewrite fmap_cons, insert_values_cons_fst, length_app, IH by done.
  destruct (insert_tuple_cases now (postgres.args i) d)
    as [[Hc _] | [_ (r & E & _)]].
  - unfold postgres.args in Hc. simpl in Hc. rewrite Hi in Hc. done.
  - rewrite E. done.
Qed.

(** A request that carries a source event id stores at most one row per
    call of [Fanout], however many recipients it resolves to. *)
Lemma Fanout_one_row_per_key {R : Type} `{IAMResolver R}
    (order : gmap string (list string) → list (string * list string))
    (dbErr : option postgres.query_error) (now : Time) (input : FanoutInput.t)
    (s : Service R) :
  FanoutInput.SourceEventID input ≠ "" →
  (length (postgres.notifications (repo (snd (Fanout order dbErr now input s))))
   ≤ length (postgres.notifications (repo s)) + 1)%nat.
Proof.
  intros Hne.
  destruct (Fanout_appends order dbErr now input s) as (new & -> & _ & _ & Hone).
  rewrite length_app. specialize (Hone Hne). lia.
Qed.

(** C2.  The ROLE scenario, run on the code.  The request resolves to three
    recipients in tenant "master" (A1 and A2 from the resolver, A3 as origin)
    and the batch holds three inputs sharing ["t1"]; the store keeps one row,
    for A1, and one broadcast is issued, where one row per recipient, three
    rows, is what the specification and the comment of [Fanout] ask for. *)
Theorem Fanout_role_scenario :
  let s0 := mk_Service postgres.empty_db [] admins in
  let out := Fanout map_to_list None 1%Z tenant_created s0 in
  fst (resolveTargets tenant_created admins)
  = Ok {["master" := ["A1"; "A2"; "A3"]]}
  ∧ ((λ i, (CreateNotificationInput.UserID i,
            CreateNotificationInput.SourceEventID i))
       <$> flatten tenant_created [("master", ["A1"; "A2"; "A3"])])
    = [("A1", "t1"); ("A2", "t1"); ("A3", "t1")]
  ∧ fst out = Ok tt
  ∧ (postgres.user_id <$> postgres.notifications (repo (snd out))) = ["A1"]
  ∧ length (hub (snd out)) = 1%nat.
Proof.
  vm_compute. repeat split; reflexivity.
Qed.

End recipients.

(** ** The command decoder *)

Section commands.
Import domain handlers.

(** C8.  [handleDirectCommand] on a record that decodes to [cmd].  A [type]
    outside SYSTEM, WORKFLOW, CRM, IAM, CUSTOM becomes CUSTOM and one of the
    five passes through; a [targetScope] outside USER, TENANT, PLATFORM, ROLE
    becomes USER when [targetId] is non-empty and makes the decoder skip the
    record when [targetId] is empty, and one of the four passes through;
    [commandId] becomes the [SourceEventID], and the other fields are copied
    (no origin user). *)
Theorem handleDirectCommand_contract
    (json_Unmarshal : string → option command.t) (data : string)
    (cmd : command.t) :
  json_Unmarshal data = Some cmd →
  let known_type :=
    command.Type_ cmd ∈ ["SYSTEM"; "WORKFLOW"; "CRM"; "IAM"; "CUSTOM"] in
  let known_scope :=
    command.TargetScope_ cmd ∈ ["USER"; "TENANT"; "PLATFORM"; "ROLE"] in
  (¬ known_scope ∧ command.TargetID cmd = "" →
     handleDirectCommand json_Unmarshal data = None)
  ∧ (known_scope ∨ command.TargetID cmd ≠ "" →
     ∃ f, handleDirectCommand json_Unmarshal data = Some f
          ∧ (known_type → FanoutInput.Type_ f = command.Type_ cmd)
          ∧ (¬ known_type → FanoutInput.Type_ f = "CUSTOM")
          ∧ (known_scope → FanoutInput.TargetScope_ f = command.TargetScope_ cmd)
          ∧ (¬ known_scope → FanoutInput.TargetScope_ f = "USER")
          ∧ FanoutInput.SourceEventID f = command.CommandID cmd
          ∧ FanoutInput.TargetID f = command.TargetID cmd
          ∧ FanoutInput.TenantKey f = command.TenantKey cmd
          ∧ FanoutInput.Title f = command.Title cmd
          ∧ FanoutInput.Body f = command.Body cmd
          ∧ FanoutInput.Metadata_ f = command.Metadata_ cmd
          ∧ FanoutInput.OriginUserID f = "").
Proof.
  intros Hdec known_type known_scope. unfold handleDirectCommand. rewrite Hdec.
  unfold TypeSystem, TypeWorkflow, TypeCRM, TypeIAM, TypeCustom,
    ScopeUser, ScopeTenant, ScopePlatform, ScopeRole.
  fold known_type known_scope. split.
  - intros [Hns Hid]. rewrite (bool_decide_eq_false_2 known_scope Hns).
    rewrite bool_decide_eq_false_2; [done |]. by intros Hne.
  - intros Hcase. destruct (decide known_scope) as [Hs | Hns].
    + rewrite (bool_decide_eq_true_2 known_scope Hs). eexists. split; [done |].
      simpl. repeat split; try done; intros Ht.
      * by rewrite (bool_decide_eq_true_2 known_type Ht).
      * by rewrite (bool_decide_eq_false_2 known_type Ht).
    + rewrite (bool_decide_eq_false_2 known_scope Hns).
      destruct Hcase as [Hs | Hid]; [done |].
      rewrite (bool_decide_eq_true_2 _ Hid). eexists. split; [done |].
      simpl. repeat split; try done; intros Ht.
      * by rewrite (bool_decide_eq_true_2 known_type Ht).
      * by rewrite (bool_decide_eq_false_2 known_type Ht).
Qed.

Lemma handleDirectCommand_contract_witness :
  (¬ command.TargetScope_ sample_command ∈ ["USER"; "TENANT"; "PLATFORM"; "ROLE"]
   ∧ command.TargetID sample_command = "" →
   handleDirectCommand (λ _, Some sample_command) "{}" = None)
  ∧ (command.TargetScope_ sample_command ∈ ["USER"; "TENANT"; "PLATFORM"; "ROLE"]
     ∨ command.TargetID sample_command ≠ "" →
     ∃ f, handleDirectCommand (λ _, Some sample_command) "{}" = Some f
          ∧ (command.Type_ sample_command
               ∈ ["SYSTEM"; "WORKFLOW"; "CRM"; "IAM"; "CUSTOM"] →
             FanoutInput.Type_ f = command.Type_ sample_command)
          ∧ (¬ command.Type_ sample_command
                 ∈ ["SYSTEM"; "WORKFLOW"; "CRM"; "IAM"; "CUSTOM"] →
             FanoutInput.Type_ f = "CUSTOM")
          ∧ (command.TargetScope_ sample_command
               ∈ ["USER"; "TENANT"; "PLATFORM"; "ROLE"] →
             FanoutInput.TargetScope_ f = command.TargetScope_ sample_command)
          ∧ (¬ command.TargetScope_ sample_command
                 ∈ ["USER"; "TENANT"; "PLATFORM"; "ROLE"] →
             FanoutInput.TargetScope_ f = "USER")
          ∧ FanoutInput.SourceEventID f = command.CommandID sample_command
          ∧ FanoutInput.TargetID f = command.TargetID sample_command
          ∧ FanoutInput.TenantKey f = command.TenantKey sample_command
          ∧ FanoutInput.Title f = command.Title sample_command
          ∧ FanoutInput.Body f = command.Body sample_command
          ∧ FanoutInput.Metadata_ f = command.Metadata_ sample_command
          ∧ FanoutInput.OriginUserID f = "").
Proof.
  apply (handleDirectCommand_contract (λ _, Some sample_command) "{}" sample_command).
  reflexivity.
Defined.

Example unknown_type_and_scope_fall_back :
  handleDirectCommand (λ _, Some sample_command) "{}"
  = Some (FanoutInput.mk "USER" "U1" "acme" "CUSTOM" "Hello" "World" ∅ "c1" "").
Proof. reflexivity. Qed.

End commands.

(** ** Paging of the list endpoint *)

Section paging.
Import domain transport.

Lemma List_filter_limit (filter : NotificationFilter.t) :
  NotificationFilter.Limit (application.List_filter filter)
  = (if (1 <=? NotificationFilter.Limit filter)%Z
        && (NotificationFilter.Limit filter <=? 100)%Z
     then NotificationFilter.Limit filter else 20%Z)
  ∧ NotificationFilter.Offset (application.List_filter filter)
    = NotificationFilter.Offset filter.
Proof.
  unfold application.List_filter.
  destruct (NotificationFilter.Limit filter <=? 0)%Z eqn:E1;
    destruct (100 <? NotificationFilter.Limit filter)%Z eqn:E2; simpl;
    destruct (1 <=? NotificationFilter.Limit filter)%Z eqn:E3;
    destruct (NotificationFilter.Limit filter <=? 100)%Z eqn:E4; simpl;
    split; try reflexivity; lia.
Qed.

Lemma parseIntQuery_nonneg (query : gmap string string) (key : string) (def : Z) :
  (0 ≤ def)%Z → (0 ≤ parseIntQuery query key def)%Z.
Proof.
  intros Hdef. unfold parseIntQuery.
  destruct (strconv.Atoi _) as [v |]; [| done].
  destruct (v <? 0)%Z eqn:E; lia.
Qed.

(** C9, as stated, fails: a requested limit of 150 is applied as 20, where
    the clamped value is 100. *)
Lemma limit_150_is_applied_as_20 :
  NotificationFilter.Limit (applied_filter "acme" "U1" {["limit" := "150"]}) = 20%Z
  ∧ spec_limit {["limit" := "150"]} = 100%Z
  ∧ ¬ (∀ query,
         NotificationFilter.Limit (applied_filter "acme" "U1" query)
         = spec_limit query).
Proof.
  split; [reflexivity |]. split; [reflexivity |].
  intros Hall. specialize (Hall {["limit" := "150"]}). vm_compute in Hall.
  discriminate Hall.
Qed.

(** C9, amended.  On a GET /notifications the filter that reaches the
    repository carries: as limit, the requested limit when it is a decimal
    integer in [1, 100], and 20 in every other case (absent, not a number,
    negative, zero, above 100), hence always a value in [1, 100]; as offset,
    the requested offset when it is a non-negative decimal integer and 0
    otherwise, hence never a negative value.  [Service.List] itself resets
    any limit outside [1, 100] to 20 and passes the offset through. *)
Theorem applied_paging (tenantKey userID : string) (query : gmap string string) :
  let f := applied_filter tenantKey userID query in
  NotificationFilter.Limit f
  = match strconv.Atoi (QueryParam query "limit") with
    | Some v => if (1 <=? v)%Z && (v <=? 100)%Z then v else 20%Z
    | None => 20%Z
    end
  ∧ (1 ≤ NotificationFilter.Limit f ≤ 100)%Z
  ∧ NotificationFilter.Offset f
    = match strconv.Atoi (QueryParam query "offset") with
      | Some v => if (0 <=? v)%Z then v else 0%Z
      | None => 0%Z
      end
  ∧ (0 ≤ NotificationFilter.Offset f)%Z
  ∧ ∀ filter,
      NotificationFilter.Limit (application.List_filter filter)
      = (if (1 <=? NotificationFilter.Limit filter)%Z
            && (NotificationFilter.Limit filter <=? 100)%Z
         then NotificationFilter.Limit filter else 20%Z)
      ∧ NotificationFilter.Offset (application.List_filter filter)
        = NotificationFilter.Offset filter.
Proof.
  intros f. subst f. unfold applied_filter.
  destruct (List_filter_limit (ListNotifications_filter tenantKey userID query))
    as [HL HO].
  rewrite HL, HO. unfold ListNotifications_filter, parseIntQuery. simpl.
  destruct (strconv.Atoi (QueryParam query "limit")) as [v |];
    destruct (strconv.Atoi (QueryParam query "offset")) as [o |];
    repeat match goal with
           | |- context [(?a <? ?b)%Z] => destruct (a <? b)%Z eqn:?
           | |- context [(?a <=? ?b)%Z] => destruct (a <=? b)%Z eqn:?
           end; simpl;
    repeat split; try reflexivity; try lia; apply List_filter_limit.
Qed.

End paging.

(** ** Bearer-token verification *)

Section verification.
Import mw.
Context {World : Type}.
Variable http_Get : string → World → result string * World.
Variable Now : World → Time.
Variable decode_jwks : string → result (list (gmap string any)).
Variable ParseUnverified : string → result (gmap string any).

Lemma substring_all (s : string) : String.substring 0 (String.length s) s = s.
Proof. induction s as [| c s IH]; simpl; [done | by rewrite IH]. Qed.

Lemma bearer_prefix (tokenStr : string) :
  strings.HasPrefix ("Bearer " +:+ tokenStr) "Bearer " = true
  ∧ strings.TrimPrefix ("Bearer " +:+ tokenStr) "Bearer " = tokenStr.
Proof.
  assert (strings.HasPrefix ("Bearer " +:+ tokenStr) "Bearer " = true) as Hp.
  { unfold strings.HasPrefix. simpl. by destruct tokenStr. }
  split; [done |]. unfold strings.TrimPrefix. rewrite Hp. simpl.
  rewrite Nat.sub_0_r. apply substring_all.
Qed.

Lemma verifyWithJWKS_available (jwt_Parse : string → option string)
    (jwksURL tokenStr : string) (jwksCache : gmap string cachedJWKS) (w : World) :
  jwks_available http_Get Now decode_jwks jwksURL jwksCache w →
  fst (fst (verifyWithJWKS http_Get Now decode_jwks jwt_Parse
              jwksURL tokenStr jwksCache w)) = Ok tt.
Proof.
  unfold verifyWithJWKS.
  destruct (jwksCache !! jwksURL) as [c |] eqn:Hc.
  - destruct (jwksTTL <? Now w - fetchAt c)%Z eqn:Hstale; [| done].
    intros [(c' & Heq & Hfresh) | (body & w1 & jwks & Hget & Hdec)].
    + simplify_eq. apply Z.ltb_lt in Hstale. lia.
    + by rewrite Hget, Hdec.
  - intros [(c' & Heq & _) | (body & w1 & jwks & Hget & Hdec)];
      [congruence | by rewrite Hget, Hdec].
Qed.

(** C10.  Verification is structural only.  Whatever [jwt.Parse] reports
    about a token (method, signature, expiry), [verifyWithJWKS] returns
    success for every token string as soon as the key set can be had, and its
    result and effects are the same for any two verdicts of the library.
    Hence [JWTAuth] calls the next handler, with the token's [sub] as user and
    the realm of its [iss], for every header ["Bearer " ++ token] whose token
    parses structurally and whose issuer yields a realm. *)
Theorem verification_structural_only (jwt_Parse : string → option string)
    (keycloakBaseURL tokenStr : string) (claims : gmap string any)
    (jwksCache : gmap string cachedJWKS) (w : World) :
  let realm := extractRealm (as_string (claims !! "iss")) in
  let jwksURL :=
    keycloakBaseURL +:+ "/realms/" +:+ realm +:+ "/protocol/openid-connect/certs" in
  ParseUnverified tokenStr = Ok claims →
  realm ≠ "" →
  jwks_available http_Get Now decode_jwks jwksURL jwksCache w →
  fst (fst (verifyWithJWKS http_Get Now decode_jwks jwt_Parse
              jwksURL tokenStr jwksCache w)) = Ok tt
  ∧ (∀ jwt_Parse' : string → option string,
       verifyWithJWKS http_Get Now decode_jwks jwt_Parse'
         jwksURL tokenStr jwksCache w
       = verifyWithJWKS http_Get Now decode_jwks jwt_Parse
           jwksURL tokenStr jwksCache w)
  ∧ fst (fst (JWTAuth http_Get Now decode_jwks ParseUnverified jwt_Parse
                keycloakBaseURL ("Bearer " +:+ tokenStr) jwksCache w))
    = Next (as_string (claims !! "sub")) realm.
Proof.
  intros realm jwksURL Hparse Hrealm Havail.
  pose proof (verifyWithJWKS_available jwt_Parse jwksURL tokenStr jwksCache w
                Havail) as Hok.
  split; [done |]. split; [done |].
  unfold JWTAuth. destruct (bearer_prefix tokenStr) as [-> ->]. simpl.
  rewrite Hparse. fold realm. rewrite (bool_decide_eq_false_2 _ Hrealm).
  fold jwksURL.
  destruct (verifyWithJWKS http_Get Now decode_jwks jwt_Parse
              jwksURL tokenStr jwksCache w) as [[[[] | e] c'] w'];
    simpl in *; [done | discriminate Hok].
Qed.

End verification.

Lemma verification_structural_only_witness :
  fst (fst (mw.verifyWithJWKS (World := unit)
              (λ _ w, (Ok "{}", w)) (λ _, 0%Z) (λ _, Ok [])
              (λ _, Some "crypto/rsa: verification error")
              "http://keycloak:8080/realms/acme/protocol/openid-connect/certs"
              "forged" ∅ tt)) = Ok tt
  ∧ fst (fst (mw.JWTAuth (World := unit)
                (λ _ w, (Ok "{}", w)) (λ _, 0%Z) (λ _, Ok [])
                (λ _, Ok sample_claims)
                (λ _, Some "crypto/rsa: verification error")
                "http://keycloak:8080" "Bearer forged" ∅ tt))
    = mw.Next "mallory" "acme".
Proof.
  destruct (verification_structural_only (World := unit)
              (λ _ w, (Ok "{}", w)) (λ _, 0%Z) (λ _, Ok [])
              (λ _, Ok sample_claims)
              (λ _, Some "crypto/rsa: verification error")
              "http://keycloak:8080" "forged" sample_claims ∅ tt)
    as (H1 & _ & H3).
  - reflexivity.
  - vm_compute. discriminate.
  - right. exists "{}", tt, []. split; reflexivity.
  - split; [exact H1 | exact H3].
Defined.

(** ** Platform-wide enumeration *)

Section platform.
Import keycloak.
Context {World : Type}.
Variable Do : Request → World → result Response * World.
Variable Now : World → Time.
Variable decode_token : string → result string.
Variable decode_users : string → result (list keycloakUser.t).
Variable decode_realms : string → result (list realmRep.t).

Abbreviation listUsers' := (listUsers Do decode_token decode_users).
Abbreviation eachRealm' := (eachRealm Do decode_token decode_users).
Abbreviation adminToken' := (adminToken Do decode_token).
Abbreviation AllActiveUsers' :=
  (AllActiveUsers Do Now decode_token decode_users decode_realms).

Lemma eachRealm_sound (r : Resolver) (all realms : list realmRep.t)
    (result : gmap string (list string)) (w : World) :
  (∀ realm, realm ∈ realms → realm ∈ all) →
  sound Do decode_token decode_users r all result → sound Do decode_token decode_users r all (fst (eachRealm' r realms result w)).
Proof.
  revert result w. induction realms as [| realm realms IH];
    intros result w Hsub Hres; [done |].
  assert (∀ x, x ∈ realms → x ∈ all) as Hsub'.
  { intros x Hx. apply Hsub. apply elem_of_cons. by right. }
  simpl. destruct (realmRep.Enabled realm) eqn:Hen; simpl; [| by apply IH].
  destruct (bool_decide (realmRep.Realm realm = adminRealm r)) eqn:Hadm;
    [by apply IH |].
  apply bool_decide_eq_false in Hadm.
  destruct (listUsers' r (realmRep.Realm realm) w) as [[users | e] w'] eqn:Hlist;
    [| by apply IH].
  destruct (0 <? length (enabledIDs users))%nat eqn:Hlen; [| by apply IH].
  apply IH; [done |]. intros tk ids Hlk.
  destruct (decide (tk = realmRep.Realm realm)) as [-> | Hne].
  - rewrite lookup_insert_eq in Hlk. injection Hlk as <-.
    split; [| split; [done | split]].
    + apply Nat.ltb_lt in Hlen. intros E. rewrite E in Hlen. simpl in Hlen. lia.
    + exists realm. split; [| done]. apply Hsub. apply elem_of_cons. by left.
    + exists w, users. by rewrite Hlist.
  - rewrite lookup_insert_ne in Hlk by done. by apply Hres.
Qed.

Lemma eachRealm_complete (r : Resolver) (realms : list realmRep.t)
    (result : gmap string (list string)) (w : World)
    (tk : string) (users : list keycloakUser.t) :
  tk ≠ adminRealm r → enabledIDs users ≠ [] →
  (∀ w0, fst (listUsers' r tk w0) = Ok users) →
  listed_enabled realms tk ∨ result !! tk = Some (enabledIDs users) →
  fst (eachRealm' r realms result w) !! tk = Some (enabledIDs users).
Proof.
  intros Hadm Hnonempty Hlist. revert result w.
  induction realms as [| realm realms IH]; intros result w Hcase.
  - destruct Hcase as [(x & Hx & _) | Hlk]; [by apply elem_of_nil in Hx | done].
  - assert (realmRep.Realm realm ≠ tk ∨ realmRep.Enabled realm = false →
            listed_enabled realms tk ∨ result !! tk = Some (enabledIDs users))
      as Hrest.
    { intros Hother. destruct Hcase as [(x & Hx & Hname & Hen) | Hlk]; [| by right].
      apply elem_of_cons in Hx as [-> | Hx]; [| left; by exists x].
      destruct Hother as [Hne | Hdis]; congruence. }
    simpl. destruct (realmRep.Enabled realm) eqn:Hen; simpl;
      [| apply IH, Hrest; by right].
    destruct (bool_decide (realmRep.Realm realm = adminRealm r)) eqn:Hisadm.
    { apply IH, Hrest. left. apply bool_decide_eq_true in Hisadm. congruence. }
    destruct (decide (realmRep.Realm realm = tk)) as [Heq | Hne].
    + rewrite Heq. specialize (Hlist w).
      destruct (listUsers' r tk w) as [[users' | e] w']; simpl in Hlist;
        [| discriminate Hlist].
      injection Hlist as ->.
      assert ((0 <? length (enabledIDs users))%nat = true) as ->.
      { apply Nat.ltb_lt. destruct (enabledIDs users); [done | simpl; lia]. }
      apply IH. right. apply lookup_insert_eq.
    + destruct (listUsers' r (realmRep.Realm realm) w) as [[users' | e] w'];
        [| apply IH, Hrest; by left].
      destruct (0 <? length (enabledIDs users'))%nat; [| apply IH, Hrest; by left].
      apply IH. destruct (Hrest (or_introl Hne)) as [Hl | Hlk]; [by left | right].
      by rewrite lookup_insert_ne.
Qed.

(** What [AllActiveUsers] does, case by case.  On a cache hit the cached
    map is returned and the provider is not contacted.  On a cache miss:
    - If the admin token cannot be obtained, the call returns that error.
    - If the realm listing fails (the request fails, or the reply does not
      decode as a list of realms), the call returns an error.
    - Otherwise the call succeeds, whatever happens to the per-realm user
      requests, and in the map it returns: the administrative realm is never
      a key; every key is an enabled realm of the listing, mapped to the
      non-empty list of enabled user ids of a successful user listing of that
      realm; a realm all of whose user listings fail is not a key; and an
      enabled, non-administrative realm of the listing whose user listing
      succeeds with at least one enabled user is a key, mapped to its enabled
      user ids. *)
Theorem AllActiveUsers_contract (r : Resolver) (w : World) :
  (∀ users, fromCache r "platform" (Now w) = Some (CachedPlatform users) →
     AllActiveUsers' r w = (Ok users, r, w))
  ∧ (fromCache r "platform" (Now w) = None →
  (∀ e w1, adminToken' r w = (Err e, w1) →
     AllActiveUsers' r w = (Err e, r, w1))
  ∧ (∀ token w1, adminToken' r w = (Ok token, w1) →
     (∀ e w2, Do (realmsRequest r token) w1 = (Err e, w2) →
        AllActiveUsers' r w = (Err ("keycloak list realms: " +:+ e), r, w2))
     ∧ (∀ resp w2 e, Do (realmsRequest r token) w1 = (Ok resp, w2) →
        decode_realms (Body resp) = Err e →
        AllActiveUsers' r w = (Err e, r, w2))
     ∧ (∀ resp w2 realms, Do (realmsRequest r token) w1 = (Ok resp, w2) →
        decode_realms (Body resp) = Ok realms →
        ∃ result,
          fst (fst (AllActiveUsers' r w)) = Ok result
          ∧ result !! adminRealm r = None
          ∧ sound Do decode_token decode_users r realms result
          ∧ (∀ tk, (∀ w0, is_Err (fst (listUsers' r tk w0)) = true) →
                   result !! tk = None)
          ∧ (∀ tk users,
               listed_enabled realms tk → tk ≠ adminRealm r →
               (∀ w0, fst (listUsers' r tk w0) = Ok users) →
               enabledIDs users ≠ [] →
               result !! tk = Some (enabledIDs users))))).
Proof.
  unfold AllActiveUsers. split; [by intros users -> |].
  intros Hmiss. rewrite Hmiss. split.
  - intros e w1 ->. done.
  - intros token w1 ->. split; [| split].
    + intros e w2 ->. done.
    + intros resp w2 e -> ->. done.
    + intros resp w2 realms -> ->.
      pose proof (eachRealm_sound r realms realms ∅ w2 (λ _ Hx, Hx)) as Hsound.
      pose proof (λ tk users, eachRealm_complete r realms ∅ w2 tk users) as Hcompl.
      destruct (eachRealm' r realms ∅ w2) as [result w3]. simpl in *.
      exists result. split; [done |].
      assert (sound Do decode_token decode_users r realms result) as Hs.
      { apply Hsound. intros tk ids Hlk. by rewrite lookup_empty in Hlk. }
      split; [| split; [done | split]].
      * destruct (result !! adminRealm r) as [ids |] eqn:Hlk; [| done].
        destruct (Hs _ _ Hlk) as (_ & Hne & _). done.
      * intros tk Hfail. destruct (result !! tk) as [ids |] eqn:Hlk; [| done].
        destruct (Hs _ _ Hlk) as (_ & _ & _ & w0 & users & Hok & _).
        specialize (Hfail w0). rewrite Hok in Hfail. discriminate Hfail.
      * intros tk users Hlisted Hadm Hlist Hnonempty.
        apply Hcompl; [done | done | done | by left].
Qed.

(** C7.  [AllActiveUsers] does not read the status of the reply to the
    realm listing.  On a cache miss, once the admin token is obtained, a
    reply to [GET /admin/realms] with a status outside 2xx whose body
    decodes as a list of realms does not fail the call: the call succeeds
    with the map built from that list and stores it in the cache, where the
    specification (provider "non-2xx", "a failure to enumerate realms") asks
    for an error.  [adminToken], [listUsers] and [UsersByRole] do check
    [resp.StatusCode != http.StatusOK]. *)
Theorem AllActiveUsers_ignores_listing_status (r : Resolver) (w w1 w2 : World)
    (token : string) (resp : Response) (realms : list realmRep.t) :
  fromCache r "platform" (Now w) = None →
  adminToken' r w = (Ok token, w1) →
  Do (realmsRequest r token) w1 = (Ok resp, w2) →
  (StatusCode resp < 200 ∨ 300 ≤ StatusCode resp)%Z →
  decode_realms (Body resp) = Ok realms →
  AllActiveUsers' r w
  = (Ok (fst (eachRealm' r realms ∅ w2)),
     toCache r "platform" (CachedPlatform (fst (eachRealm' r realms ∅ w2)))
       (Now (snd (eachRealm' r realms ∅ w2))),
     snd (eachRealm' r realms ∅ w2)).
Proof.
  intros Hmiss Htok Hdo _ Hdec. unfold AllActiveUsers.
  rewrite Hmiss, Htok, Hdo, Hdec.
  by destruct (eachRealm' r realms ∅ w2) as [result w3].
Qed.

End platform.

(** The realm listing answered 503 with an empty list: the call succeeds with
    no recipient at all. *)
Lemma AllActiveUsers_ignores_listing_status_witness :
  fst (fst (keycloak.AllActiveUsers (World := unit)
              (λ req w,
                 if bool_decide (keycloak.Method req = "POST")
                 then (Ok (keycloak.mk_Response 200 "token"), w)
                 else (Ok (keycloak.mk_Response 503 "[]"), w))
              (λ _, 0%Z) (λ _, Ok "t0k3n") (λ _, Ok []) (λ _, Ok [])
              sample_resolver tt))
  = Ok ∅.
Proof.
  rewrite (AllActiveUsers_ignores_listing_status (World := unit)
             (λ req w,
                if bool_decide (keycloak.Method req = "POST")
                then (Ok (keycloak.mk_Response 200 "token"), w)
                else (Ok (keycloak.mk_Response 503 "[]"), w))
             (λ _, 0%Z) (λ _, Ok "t0k3n") (λ _, Ok []) (λ _, Ok [])
             sample_resolver tt tt tt "t0k3n" (keycloak.mk_Response 503 "[]") []);
    [reflexivity | reflexivity | reflexivity | reflexivity
    | right; simpl; lia | reflexivity].
Defined.

Lemma AllActiveUsers_contract_witness :
  keycloak.fromCache sample_resolver "platform" 0%Z = None
  ∧ ∃ users,
      fst (fst (keycloak.AllActiveUsers sample_Do (λ _, 0%Z)
                  (λ _, Ok "t0k3n") (λ _, Ok sample_users) (λ _, Ok sample_realms)
                  sample_resolver tt)) = Ok users
      ∧ users !! "master" = None
      ∧ users !! "beta" = None
      ∧ users !! "acme" = Some ["u1"].
Proof.
  split; [reflexivity |].
  destruct (AllActiveUsers_contract sample_Do (λ _, 0%Z)
              (λ _, Ok "t0k3n") (λ _, Ok sample_users) (λ _, Ok sample_realms)
              sample_resolver tt) as [_ Hmiss].
  destruct (Hmiss eq_refl) as [_ Hok].
  destruct (Hok "t0k3n" tt eq_refl) as (_ & _ & Hlisted).
  destruct (Hlisted (keycloak.mk_Response 200 "realms") tt sample_realms
              eq_refl eq_refl) as (users & Hres & Hadmin & _ & Hfail & Hcompl).
  exists users. split; [exact Hres |]. split; [exact Hadmin |]. split.
  - apply Hfail. intros []. reflexivity.
  - apply (Hcompl "acme" sample_users).
    + exists (keycloak.realmRep.mk "acme" true).
      split; [| split; reflexivity]. apply elem_of_cons. right.
      apply elem_of_cons. by left.
    + discriminate.
    + intros []. reflexivity.
    + discriminate.
Defined.

(** ** Worked examples *)

Example extractRealm_examples :
  mw.extractRealm "http://keycloak:8080/realms/acme" = "acme"
  ∧ mw.extractRealm "http://keycloak:8080/realms/acme/" = "acme"
  ∧ mw.extractRealm "http://keycloak:8080/realms/" = ""
  ∧ mw.extractRealm "http://keycloak:8080/realms/a/realms/b" = ""
  ∧ mw.extractRealm "http://keycloak:8080/auth" = "".
Proof. repeat split; reflexivity. Qed.

Example Atoi_examples :
  strconv.Atoi "150" = Some 150%Z
  ∧ strconv.Atoi "-5" = Some (-5)%Z
  ∧ strconv.Atoi "+7" = Some 7%Z
  ∧ strconv.Atoi "" = None
  ∧ strconv.Atoi "-" = None
  ∧ strconv.Atoi "1_0" = None
  ∧ strconv.Atoi "9223372036854775808" = None.
Proof. repeat split; reflexivity. Qed.

Example paging_examples :
  let limit q :=
    domain.NotificationFilter.Limit (transport.applied_filter "acme" "U1" q) in
  let offset q :=
    domain.NotificationFilter.Offset (transport.applied_filter "acme" "U1" q) in
  limit ∅ = 20%Z
  ∧ limit {["limit" := "0"]} = 20%Z
  ∧ limit {["limit" := "1"]} = 1%Z
  ∧ limit {["limit" := "100"]} = 100%Z
  ∧ limit {["limit" := "101"]} = 20%Z
  ∧ limit {["limit" := "ten"]} = 20%Z
  ∧ offset ∅ = 0%Z
  ∧ offset {["offset" := "40"]} = 40%Z
  ∧ offset {["offset" := "-3"]} = 0%Z.
Proof. repeat split; reflexivity. Qed.

(** Marking a row read twice: the first call succeeds and stamps the row,
    the second finds nothing unread and changes nothing. *)
Example MarkRead_twice :
  let d0 := postgres.step
              (postgres.CallCreate None 10%Z (sample_input "U1" "e1"))
              postgres.empty_db in
  let first := postgres.MarkRead None 20%Z 0%N "acme" "U1" d0 in
  let second := postgres.MarkRead None 30%Z 0%N "acme" "U1" (snd first) in
  fst first = Ok tt
  ∧ (postgres.read_at <$> postgres.notifications (snd first)) = [Some 20%Z]
  ∧ fst second = Err "notification not found or already read"
  ∧ snd second = snd first.
Proof. vm_compute. repeat split; reflexivity. Qed.

(** A request without a source event id is stored once per recipient. *)
Example Fanout_without_key_stores_every_recipient :
  let input :=
    domain.FanoutInput.mk domain.ScopeRole "PLATFORM_ADMIN" "master"
      domain.TypeSystem "Maintenance" "Tonight" ∅ "" "A3" in
  let out :=
    application.Fanout map_to_list None 1%Z input
      (application.mk_Service postgres.empty_db [] admins) in
  (postgres.user_id <$> postgres.notifications (application.repo (snd out)))
  = ["A1"; "A2"; "A3"]
  ∧ length (application.hub (snd out)) = 3%nat.
Proof. vm_compute. split; reflexivity. Qed.

(** * Further properties of the code *)

(** ** The store: deletion, counting, purging, listing *)

Section store_operations.
Import domain postgres.

#[local] Arguments insert_tuple : simpl never.
#[local] Arguments args : simpl never.

Lemma length_filter_split {A : Type} (p : A → bool) (l : list A) :
  (length (filter (λ x, p x = true) l) + length (filter (λ x, p x = false) l)
   = length l)%nat.
Proof.
  induction l as [| a l IH]; [done |]. rewrite !filter_cons.
  destruct (p a) eqn:E; repeat case_decide; try done; simpl; lia.
Qed.

Lemma filter_all {A : Type} (P : A → Prop) `{∀ x, Decision (P x)} (l : list A) :
  (∀ x, x ∈ l → P x) → filter P l = l.
Proof.
  induction l as [| a l IH]; intros Hall; [done |].
  rewrite filter_cons. rewrite decide_True.
  - f_equal. apply IH. intros x Hx. apply Hall. apply elem_of_cons. by right.
  - apply Hall. apply elem_of_cons. by left.
Qed.

(** X1.  [Delete] on an executed statement removes exactly the rows that
    match [id], [tenant_key] and [user_id], and nothing else; it returns the
    "not found" error if and only if no row matches, and then the database is
    unchanged.  A row of another user is never removed, whatever its id. *)
Theorem Delete_contract (i : UUID) (tk u : string) (d : db) :
  let res := Delete None i tk u d in
  notifications (snd res)
  = filter (λ r, owned_by i tk u r = false) (notifications d)
  ∧ (fst res = Err "notification not found"
     ↔ ∀ r, r ∈ notifications d → owned_by i tk u r = false)
  ∧ (fst res = Ok tt ∨ fst res = Err "notification not found")
  ∧ (is_Err (fst res) = true → snd res = d)
  ∧ (∀ r, r ∈ notifications d → owner_is tk u r = false →
          r ∈ notifications (snd res)).
Proof.
  intros res. subst res. unfold Delete, sql_delete.
  destruct (filter (λ r, owned_by i tk u r = true) (notifications d))
    as [| r0 l] eqn:E.
  - assert (∀ r, r ∈ notifications d → owned_by i tk u r = false) as Hnone.
    { intros r Hr. destruct (owned_by i tk u r) eqn:Ho; [| done].
      by destruct (filter_nil_not_elem_of _ _ r E). }
    simpl. rewrite (filter_all _ _ Hnone).
    split; [done |]. split; [done |]. split; [by right |].
    split; [intros _; by destruct d | done].
  - assert (owned_by i tk u r0 = true ∧ r0 ∈ notifications d) as [Ho0 Hr0].
    { apply (list_elem_of_filter (λ r, owned_by i tk u r = true)).
      rewrite E. apply elem_of_cons. by left. }
    simpl. repeat split; try done.
    + intros Hall. specialize (Hall r0 Hr0). congruence.
    + by left.
    + intros r Hr Hother. apply list_elem_of_filter. split; [| done].
      unfold owned_by. unfold owner_is in Hother.
      destruct (bool_decide (id r = i)); simpl; done.
Qed.

(** The rows [CountUnread] counts. *)
Lemma CountUnread_nat (tk u : string) (d : db) :
  CountUnread tk u d
  = Z.of_nat (length (filter
      (λ r, (owner_is tk u r && negb (is_read r)) = true) (notifications d))).
Proof. reflexivity. Qed.

Lemma unread_after_update (p q : row → bool) (now : Time) (t : list row) :
  (∀ r, q r = true → p r = true) →
  (∀ r, p (set_read now r) = p r) →
  (length (filter (λ r, (p r && negb (is_read r)) = true)
             ((λ r, if q r && negb (is_read r) then set_read now r else r) <$> t))
   + length (filter (λ r, (q r && negb (is_read r)) = true) t)
   = length (filter (λ r, (p r && negb (is_read r)) = true) t))%nat.
Proof.
  intros Hqp Hp. induction t as [| r t IH]; [done |].
  rewrite fmap_cons, !filter_cons.
  destruct (q r) eqn:Hq; destruct (is_read r) eqn:Hr; simpl.
  - rewrite Hr. rewrite !andb_false_r.
    repeat case_decide; simpl; try done; try lia.
  - rewrite Hp, (Hqp r Hq). simpl.
    repeat case_decide; simpl; try done; try lia.
  - rewrite Hr, !andb_false_r. repeat case_decide; simpl; try done; try lia.
  - rewrite Hr, !andb_true_r.
    destruct (p r); repeat case_decide; simpl; try done; try lia.
Qed.

Lemma filter_update_others (p q : row → bool) (f : row → row) (t : list row) :
  (∀ r, q r = true → p r = true) →
  (∀ r, p (f r) = p r) →
  filter (λ r, p r = false) ((λ r, if q r then f r else r) <$> t)
  = filter (λ r, p r = false) t.
Proof.
  intros Hqp Hp. induction t as [| r t IH]; [done |].
  rewrite fmap_cons, !filter_cons, IH. destruct (q r) eqn:Hq.
  - rewrite !decide_False; [done | |].
    + rewrite (Hqp r Hq). done.
    + rewrite Hp, (Hqp r Hq). done.
  - done.
Qed.

(** X2.  [MarkAllRead] on an executed statement returns the number of rows
    [CountUnread] counted for that user just before; afterwards
    [CountUnread] for the user is 0, no row of any other user has changed,
    and a second call returns 0 and changes nothing. *)
Theorem MarkAllRead_contract (now : Time) (tk u : string) (d : db) :
  let res := MarkAllRead None now tk u d in
  fst res = Ok (CountUnread tk u d)
  ∧ CountUnread tk u (snd res) = 0%Z
  ∧ filter (λ r, owner_is tk u r = false) (notifications (snd res))
    = filter (λ r, owner_is tk u r = false) (notifications d)
  ∧ length (notifications (snd res)) = length (notifications d)
  ∧ ∀ now', MarkAllRead None now' tk u (snd res) = (Ok 0%Z, snd res).
Proof.
  intros res. subst res. unfold MarkAllRead, sql_update. cbn [fst snd].
  set (g := λ r, if owner_is tk u r && negb (is_read r) then set_read now r else r).
  assert (∀ t, filter (λ r, (owner_is tk u r && negb (is_read r)) = true) (g <$> t)
               = []) as Hzero.
  { intros t. apply filter_none. intros r Hr.
    apply list_elem_of_fmap in Hr as (r0 & -> & _). unfold g.
    destruct (owner_is tk u r0) eqn:Ho; destruct (is_read r0) eqn:Hread; simpl;
      rewrite ?Ho, ?Hread; simpl; try done.
    unfold owner_is in *. simpl. by rewrite Ho. }
  split; [done |]. split; [| split; [| split]].
  - unfold CountUnread. cbn [notifications with_table]. by rewrite Hzero.
  - cbn [notifications with_table]. unfold g.
    apply (filter_update_others (owner_is tk u)
             (λ r, owner_is tk u r && negb (is_read r)) (set_read now)).
    + intros r Hq. by apply andb_true_iff in Hq as [Hq _].
    + done.
  - cbn [notifications with_table]. by rewrite length_fmap.
  - intros now'. cbn [notifications with_table]. rewrite Hzero. simpl.
    f_equal. unfold with_table. simpl. f_equal.
    rewrite <- (list_fmap_id (g <$> notifications d)) at 2.
    apply list_fmap_ext. intros k r Hk. simpl.
    destruct (owner_is tk u r && negb (is_read r)) eqn:E; [| done].
    apply list_elem_of_lookup_2 in Hk.
    assert (r ∈ filter (λ r, (owner_is tk u r && negb (is_read r)) = true)
                  (g <$> notifications d)) as Hin
      by (by apply list_elem_of_filter).
    rewrite Hzero in Hin. by apply elem_of_nil in Hin.
Qed.

Lemma owned_at_most_one (i : UUID) (tk u : string) (t : list row) :
  NoDup (id <$> t) →
  (length (filter (λ r, (owned_by i tk u r && negb (is_read r)) = true) t) ≤ 1)%nat.
Proof.
  induction t as [| r t IH]; intros Hnd; [simpl; lia |].
  rewrite fmap_cons in Hnd. apply NoDup_cons in Hnd as [Hnotin Hnd].
  rewrite filter_cons. case_decide as Hc; [| by apply IH].
  simpl. rewrite (filter_none _ t); [simpl; lia |].
  intros r' Hr' Hc'. apply Hnotin.
  apply andb_true_iff in Hc as [Hc _]. apply andb_true_iff in Hc' as [Hc' _].
  unfold owned_by in Hc, Hc'.
  apply andb_true_iff in Hc as [Hc _]. apply andb_true_iff in Hc as [Hc _].
  apply andb_true_iff in Hc' as [Hc' _]. apply andb_true_iff in Hc' as [Hc' _].
  apply bool_decide_eq_true in Hc, Hc'. rewrite Hc, <- Hc'.
  by apply list_elem_of_fmap_2.
Qed.

(** X3.  In every database the repository can reach, a successful
    [MarkRead] lowers [CountUnread] of the caller by exactly one and leaves
    the table as long as it was; a failed one leaves the count as it is. *)
Theorem MarkRead_counts_down (cs : list call) (now : Time) (i : UUID)
    (tk u : string) :
  let d := run cs empty_db in
  let res := MarkRead None now i tk u d in
  (fst res = Ok tt → (CountUnread tk u (snd res) + 1 = CountUnread tk u d)%Z)
  ∧ (is_Err (fst res) = true → CountUnread tk u (snd res) = CountUnread tk u d)
  ∧ length (notifications (snd res)) = length (notifications d).
Proof.
  intros d res. subst res.
  pose proof (run_wf cs empty_db empty_db_wf) as (Hnd & _ & _). fold d in Hnd.
  pose proof (owned_at_most_one i tk u (notifications d) Hnd) as Hone.
  pose proof (unread_after_update (owner_is tk u) (owned_by i tk u) now
                (notifications d)) as Hsum.
  assert (∀ r, owned_by i tk u r = true → owner_is tk u r = true) as Hqp.
  { intros r Ho. unfold owned_by in Ho. unfold owner_is.
    apply andb_true_iff in Ho as [Ho Hu]. apply andb_true_iff in Ho as [_ Ht].
    by rewrite Ht, Hu. }
  specialize (Hsum Hqp (λ r, eq_refl)).
  unfold MarkRead, sql_update, CountUnread in *. cbn [fst snd].
  destruct (filter (λ r, (owned_by i tk u r && negb (is_read r)) = true)
              (notifications d)) as [| r0 l] eqn:E; simpl in *.
  - split; [done |]. split; [| by rewrite length_fmap]. intros _. lia.
  - split; [| split; [done | by rewrite length_fmap]]. intros _.
    assert (length l = 0)%nat by lia. lia.
Qed.

(** X4.  [PurgeOlderThan] on an executed statement keeps exactly the rows
    with [created_at >= cutoff], in their order, and returns the number of
    rows it removed; purging again with the same or an earlier cutoff removes
    nothing. *)
Theorem PurgeOlderThan_contract (cutoff : Time) (d : db) :
  let res := PurgeOlderThan None cutoff d in
  notifications (snd res)
  = filter (λ r, (cutoff ≤ created_at r)%Z) (notifications d)
  ∧ (∃ n, fst res = Ok n
          ∧ (Z.to_nat n + length (notifications (snd res))
             = length (notifications d))%nat
          ∧ (0 ≤ n)%Z)
  ∧ ∀ cutoff', (cutoff' ≤ cutoff)%Z →
      PurgeOlderThan None cutoff' (snd res) = (Ok 0%Z, snd res).
Proof.
  intros res. subst res. unfold PurgeOlderThan, sql_delete. cbn [fst snd].
  cbn [notifications with_table].
  assert (∀ t : list row, filter (λ r, (created_at r <? cutoff)%Z = false) t
               = filter (λ r, (cutoff ≤ created_at r)%Z) t) as Hsame.
  { intros t. induction t as [| r t IH]; [done |]. rewrite !filter_cons, IH.
    destruct (created_at r <? cutoff)%Z eqn:E.
    - apply Z.ltb_lt in E. rewrite decide_False by done.
      rewrite decide_False by lia. done.
    - apply Z.ltb_ge in E. rewrite decide_True by done.
      rewrite decide_True by lia. done. }
  rewrite Hsame. split; [done |]. split.
  - eexists. split; [done |]. rewrite Nat2Z.id. split; [| lia].
    rewrite <- Hsame.
    apply (length_filter_split (λ r, (created_at r <? cutoff)%Z)).
  - intros cutoff' Hle.
    assert (filter (λ r, (created_at r <? cutoff')%Z = true)
              (filter (λ r, (cutoff ≤ created_at r)%Z) (notifications d)) = [])
      as Hnone.
    { apply filter_none. intros r Hr Hlt.
      apply list_elem_of_filter in Hr as [Hge _]. apply Z.ltb_lt in Hlt. lia. }
    rewrite Hnone. simpl. f_equal. unfold with_table. simpl. f_equal.
    apply filter_all. intros r Hr.
    apply list_elem_of_filter in Hr as [Hge _]. apply Z.ltb_ge. lia.
Qed.

End store_operations.

Section store_queries.
Import domain postgres.

#[local] Arguments insert_tuple : simpl never.
#[local] Arguments args : simpl never.

#[local] Instance newer_first_transitive : Transitive newer_first.
Proof. intros a b c. unfold newer_first. lia. Qed.

#[local] Instance newer_first_total : Total newer_first.
Proof. intros a b. unfold newer_first. lia. Qed.

Lemma StronglySorted_sublist {A : Type} (R : relation A) (l k : list A) :
  l `sublist_of` k → StronglySorted R k → StronglySorted R l.
Proof.
  induction 1 as [| x l k Hsub IH | x l k Hsub IH]; intros Hs.
  - constructor.
  - apply StronglySorted_inv in Hs as [Hs Hall]. constructor; [by apply IH |].
    rewrite Forall_forall in *. intros y Hy. apply Hall.
    by eapply elem_of_sublist.
  - apply StronglySorted_inv in Hs as [Hs _]. by apply IH.
Qed.

(** X5.  [List] on an executed query returns at most [Limit] notifications;
    each of them is a row of the table that belongs to the filter's tenant and
    user and passes its optional read-flag and type conditions; and they come
    newest first (non-increasing [created_at]). *)
Theorem List_contract (f : NotificationFilter.t) (d : db) :
  ∃ ns, List None f d = Ok ns
        ∧ (length ns ≤ Z.to_nat (NotificationFilter.Limit f))%nat
        ∧ Forall (λ n, selected f n ∧ n ∈ scanNotification <$> notifications d) ns
        ∧ StronglySorted
            (λ a b, (Notification.CreatedAt b ≤ Notification.CreatedAt a)%Z) ns.
Proof.
  unfold List. eexists. split; [reflexivity |].
  set (cond := λ r, (owner_is (NotificationFilter.TenantKey f)
                       (NotificationFilter.UserID f) r
                     && match NotificationFilter.IsRead f with
                        | Some b => bool_decide (is_read r = b)
                        | None => true
                        end
                     && (bool_decide (NotificationFilter.Type_ f = "")
                         || bool_decide (type_ r = NotificationFilter.Type_ f)))
                    = true).
  set (matching := filter cond (notifications d)).
  set (ordered := merge_sort newer_first matching).
  set (page := take (Z.to_nat (NotificationFilter.Limit f))
                 (drop (Z.to_nat (NotificationFilter.Offset f)) ordered)).
  assert (page `sublist_of` ordered) as Hsub.
  { unfold page. etrans; [apply sublist_take | apply sublist_drop]. }
  split; [| split].
  - rewrite length_fmap. unfold page. rewrite length_take. lia.
  - apply Forall_fmap, Forall_forall. intros r Hr.
    assert (r ∈ matching) as Hm.
    { rewrite <- (merge_sort_Permutation newer_first matching).
      by eapply elem_of_sublist. }
    apply list_elem_of_filter in Hm as [Hc Hin]. unfold cond in Hc.
    apply andb_true_iff in Hc as [Hc Hty]. apply andb_true_iff in Hc as [Ho Hrd].
    unfold owner_is in Ho. apply andb_true_iff in Ho as [Htk Hu].
    apply bool_decide_eq_true in Htk, Hu.
    split; [| by apply list_elem_of_fmap_2].
    unfold selected. simpl. split; [done |]. split; [done |]. split.
    + intros b Hb. rewrite Hb in Hrd. by apply bool_decide_eq_true in Hrd.
    + intros Hne. apply orb_true_iff in Hty as [Hty | Hty];
        apply bool_decide_eq_true in Hty; done.
  - apply (StronglySorted_fmap _ newer_first); [done |].
    apply (StronglySorted_sublist _ page ordered Hsub).
    apply StronglySorted_merge_sort; apply _.
Qed.

Lemma filter_by_id_fresh (i : UUID) (t : list row) :
  Forall (λ r, (id r < i)%N) t → filter (λ r, id r = i) t = [].
Proof.
  intros Hall. apply filter_none. intros r Hr Hid.
  rewrite Forall_forall in Hall. specialize (Hall r Hr). lia.
Qed.

(** X6.  Insert then look up.  In every database the repository can reach,
    the notification [Create] returns is the one [GetByID] finds under its id
    afterwards, whoever asks; and whatever [GetByID] finds, in any table, is a
    stored row with the id asked for. *)
Theorem GetByID_after_Create (cs : list call) (now : Time)
    (input : CreateNotificationInput.t) :
  let d := run cs empty_db in
  (∀ n d', Create None now input d = (Ok (Some n), d') →
           GetByID (Notification.ID n) d' = Some n)
  ∧ (∀ t i n, GetByID i t = Some n →
              Notification.ID n = i ∧ n ∈ scanNotification <$> notifications t).
Proof.
  intros d. split.
  - intros n d' Hc. unfold Create in Hc.
    pose proof (run_wf cs empty_db empty_db_wf) as (_ & Hlt & _). fold d in Hlt.
    destruct (insert_tuple_cases now (args input) d)
      as [[_ E] | [_ (r & E & Hid & _)]]; rewrite E in Hc; [done |].
    injection Hc as <- <-. unfold GetByID. simpl. rewrite filter_app, Hid.
    rewrite (filter_by_id_fresh _ _ Hlt). simpl.
    rewrite filter_cons, decide_True by done. done.
  - intros t i n Hget. unfold GetByID in Hget.
    destruct (filter (λ r, id r = i) (notifications t)) as [| r l] eqn:E;
      [done |]. simpl in Hget. injection Hget as <-.
    assert (r ∈ filter (λ r, id r = i) (notifications t)) as Hin
      by (rewrite E; apply elem_of_cons; by left).
    apply list_elem_of_filter in Hin as [Hid Hin].
    split; [done | by apply list_elem_of_fmap_2].
Qed.

Lemma owned_is_owner (i : UUID) (tk u : string) (r : row) :
  owned_by i tk u r = true → owner_is tk u r = true.
Proof.
  unfold owned_by, owner_is. intros Ho.
  apply andb_true_iff in Ho as [Ho Hu]. apply andb_true_iff in Ho as [_ Ht].
  by rewrite Ht, Hu.
Qed.

(** X7.  Containment of the three mutations a user can ask for.  [MarkRead],
    [MarkAllRead] and [Delete], called for [(tenantKey, userID)], executed or
    rejected by the driver, leave every row of every other [(tenant_key,
    user_id)] in the table exactly as it was, whatever id is passed. *)
Theorem mutations_contained (e : option string) (now : Time) (i : UUID)
    (tk u : string) (d : db) :
  let others (t : db) := filter (λ r, owner_is tk u r = false) (notifications t) in
  others (snd (MarkRead e now i tk u d)) = others d
  ∧ others (snd (MarkAllRead e now tk u d)) = others d
  ∧ others (snd (Delete e i tk u d)) = others d.
Proof.
  intros others. unfold others. destruct e as [e |]; [done |].
  split; [| split].
  - unfold MarkRead, sql_update.
    destruct (_ =? 0)%Z; cbn [snd notifications with_table];
      apply (filter_update_others (owner_is tk u)
               (λ r, owned_by i tk u r && negb (is_read r)) (set_read now));
      try done; intros r Hq; apply andb_true_iff in Hq as [Hq _];
      by eapply owned_is_owner.
  - unfold MarkAllRead, sql_update. cbn [snd notifications with_table].
    apply (filter_update_others (owner_is tk u)
             (λ r, owner_is tk u r && negb (is_read r)) (set_read now));
      [| done]. intros r Hq. by apply andb_true_iff in Hq as [Hq _].
  - unfold Delete, sql_delete.
    destruct (_ =? 0)%Z; cbn [snd notifications with_table];
      induction (notifications d) as [| r t IH]; try done;
      rewrite !filter_cons;
      destruct (owned_by i tk u r) eqn:Ho;
      destruct (owner_is tk u r) eqn:Hw;
      try (rewrite (owned_is_owner _ _ _ _ Ho) in Hw; discriminate Hw);
      repeat case_decide; try done; rewrite ?filter_cons, ?Hw;
      repeat case_decide; try done; by rewrite IH.
Qed.

(** X8.  What [Create] stores is what it was given.  When [Create] inserts,
    the notification it returns carries the tenant, user, type, title, body,
    metadata and source event id of the input (the empty id going through
    NULL and back), is unread with no read time, is stamped [now], and is the
    last row of the table. *)
Theorem Create_returns_input (now : Time) (input : CreateNotificationInput.t)
    (d d' : db) (n : Notification.t) :
  Create None now input d = (Ok (Some n), d') →
  Notification.TenantKey n = CreateNotificationInput.TenantKey input
  ∧ Notification.UserID n = CreateNotificationInput.UserID input
  ∧ Notification.Type_ n = CreateNotificationInput.Type_ input
  ∧ Notification.Title n = CreateNotificationInput.Title input
  ∧ Notification.Body n = CreateNotificationInput.Body input
  ∧ Notification.Metadata_ n = CreateNotificationInput.Metadata_ input
  ∧ Notification.SourceEventID n = CreateNotificationInput.SourceEventID input
  ∧ Notification.IsRead n = false
  ∧ Notification.ReadAt n = None
  ∧ Notification.CreatedAt n = now
  ∧ ∃ r, notifications d' = notifications d ++ [r] ∧ n = scanNotification r.
Proof.
  unfold Create, insert_tuple, args. simpl.
  destruct (conflicts _ (notifications d)); [done |].
  intros [= <- <-]. simpl. repeat split; try done.
  - by case_bool_decide.
  - eexists. split; reflexivity.
Qed.

Lemma Create_returns_input_witness :
  ∃ n d', Create None 7%Z (sample_input "U1" "") empty_db = (Ok (Some n), d')
          ∧ Notification.SourceEventID n = ""
          ∧ Notification.UserID n = "U1".
Proof.
  eexists _, _. split; [reflexivity |].
  destruct (Create_returns_input 7%Z (sample_input "U1" "") empty_db _ _ eq_refl)
    as (_ & Hu & _ & _ & _ & _ & Hs & _).
  split; [exact Hs | exact Hu].
Defined.

End store_queries.

(** ** Joining and splitting strings *)

Section string_round_trip.

#[local] Arguments String.append !_ _ / : simpl nomatch.

Lemma string_app_assoc (a b c : string) : (a +:+ b) +:+ c = a +:+ (b +:+ c).
Proof. induction a as [| x a IH]; simpl; [done | by rewrite IH]. Qed.

Lemma string_app_nil_r (a : string) : a +:+ "" = a.
Proof. induction a as [| x a IH]; simpl; [done | by rewrite IH]. Qed.

Lemma string_app_length (a b : string) :
  String.length (a +:+ b) = (String.length a + String.length b)%nat.
Proof. induction a as [| x a IH]; simpl; [done | by rewrite IH]. Qed.

Lemma prefix_split (p s : string) :
  String.prefix p s = true → ∃ s', s = p +:+ s'.
Proof.
  revert s. induction p as [| x p IH]; intros s Hp; [by exists s |].
  destruct s as [| y s]; [done |]. simpl in Hp.
  destruct (Ascii.ascii_dec x y) as [-> | _]; [| done].
  destruct (IH s Hp) as (s' & ->). by exists s'.
Qed.

Lemma prefix_app (p s : string) : String.prefix p (p +:+ s) = true.
Proof.
  induction p as [| x p IH]; simpl; [by destruct s |].
  by destruct (Ascii.ascii_dec x x).
Qed.

Lemma skip_bytes_app (a b : string) : skip_bytes (String.length a) (a +:+ b) = b.
Proof. induction a as [| x a IH]; simpl; [by destruct b | done]. Qed.

(** While a separator is being stepped over, the scan is the scan of what
    follows it. *)
Lemma Split_scan_skip (sep : string) (k : nat) (cur s : string) :
  (k ≤ String.length s)%nat →
  strings.Split_scan sep k cur s = strings.Split_scan sep 0 cur (skip_bytes k s).
Proof.
  revert k. induction s as [| c s IH]; intros k Hk.
  - simpl in Hk. by replace k with 0%nat by lia.
  - destruct k as [| k]; [done |]. simpl in *. apply IH. lia.
Qed.

Lemma foldl_join_app (sep x y : string) (l : list string) :
  foldl (λ result p, result +:+ (sep +:+ p)) (x +:+ y) l
  = x +:+ foldl (λ result p, result +:+ (sep +:+ p)) y l.
Proof.
  revert y. induction l as [| c l IH]; intros y; simpl; [done |].
  by rewrite string_app_assoc, IH.
Qed.

Lemma joinStrings_cons (a b : string) (l : list string) (sep : string) :
  postgres.joinStrings (a :: b :: l) sep
  = a +:+ (sep +:+ postgres.joinStrings (b :: l) sep).
Proof.
  unfold postgres.joinStrings. simpl. by rewrite !foldl_join_app.
Qed.

Lemma joinStrings_Split_scan (sep : string) (n : nat) :
  sep ≠ "" →
  ∀ s cur, (String.length s ≤ n)%nat →
    ∃ piece pieces,
      strings.Split_scan sep 0 cur s = piece :: pieces
      ∧ postgres.joinStrings (piece :: pieces) sep = cur +:+ s.
Proof.
  intros Hsep. induction n as [| n IH]; intros s cur Hlen.
  - destruct s; [| simpl in Hlen; lia]. exists cur, []. simpl.
    by rewrite string_app_nil_r.
  - destruct s as [| c s]; [exists cur, []; simpl; by rewrite string_app_nil_r |].
    simpl in Hlen. cbn [strings.Split_scan].
    destruct (String.prefix sep (String c s)) eqn:Hp.
    + destruct (prefix_split _ _ Hp) as (s' & Hs).
      destruct sep as [| x sep']; [done |]. simpl in Hs.
      injection Hs as -> ->.
      rewrite Split_scan_skip
        by (simpl; rewrite string_app_length; lia).
      replace (String.length (String x sep') - 1)%nat with (String.length sep')
        by (simpl; lia).
      rewrite skip_bytes_app.
      destruct (IH s' "") as (piece & pieces & E & Hj).
      { rewrite string_app_length in Hlen. lia. }
      exists cur, (piece :: pieces). rewrite E. split; [done |].
      rewrite joinStrings_cons, Hj. simpl. done.
    + destruct (IH s (cur +:+ String c "")) as (piece & pieces & E & Hj);
        [lia |].
      exists piece, pieces. split; [done |]. rewrite Hj.
      rewrite string_app_assoc. done.
Qed.

(** X9.  [joinStrings] undoes [strings.Split]: for a non-empty separator,
    splitting a string and joining the pieces with the same separator gives
    the string back; and [Split] never returns an empty list. *)
Theorem joinStrings_Split (s sep : string) :
  sep ≠ "" →
  postgres.joinStrings (strings.Split s sep) sep = s
  ∧ strings.Split s sep ≠ [].
Proof.
  intros Hsep. unfold strings.Split.
  destruct (joinStrings_Split_scan sep (String.length s) Hsep s "" (le_n _))
    as (piece & pieces & E & Hj).
  rewrite E. split; [exact Hj | done].
Qed.

Lemma joinStrings_Split_witness :
  postgres.joinStrings (strings.Split "a,b,,c" ",") "," = "a,b,,c"
  ∧ strings.Split "a,b,,c" "," ≠ [].
Proof. apply joinStrings_Split. discriminate. Defined.

Lemma substring_split (s : string) (n : nat) :
  (n ≤ String.length s)%nat →
  s = String.substring 0 n s
      +:+ String.substring n (String.length s - n) s.
Proof.
  revert n. induction s as [| c s IH]; intros n Hn.
  - simpl in Hn. replace n with 0%nat by lia. done.
  - destruct n as [| n]; simpl.
    + f_equal. symmetry. apply substring_all.
    + f_equal. apply IH. simpl in Hn. lia.
Qed.

Lemma TrimSuffix_sound (s suffix : string) :
  strings.TrimSuffix s suffix = s
  ∨ s = strings.TrimSuffix s suffix +:+ suffix.
Proof.
  unfold strings.TrimSuffix, strings.HasSuffix.
  destruct (String.length suffix <=? String.length s)%nat eqn:Hlen; [| by left].
  case_bool_decide as Hsuf; simpl; [| by left]. right.
  apply Nat.leb_le in Hlen.
  rewrite (substring_split s (String.length s - String.length suffix)) at 1
    by lia.
  f_equal.
  replace (String.length s - (String.length s - String.length suffix))%nat
    with (String.length suffix) by lia.
  exact Hsuf.
Qed.

(** X10.  [extractRealm] is sound: a non-empty realm it returns is what
    follows the single ["/realms/"] of the issuer, up to one trailing slash. *)
Theorem extractRealm_sound (issuer : string) :
  mw.extractRealm issuer ≠ "" →
  ∃ base,
    issuer = base +:+ "/realms/" +:+ mw.extractRealm issuer
    ∨ issuer = base +:+ "/realms/" +:+ mw.extractRealm issuer +:+ "/".
Proof.
  unfold mw.extractRealm.
  destruct (joinStrings_Split issuer "/realms/") as [Hj _]; [done |].
  destruct (strings.Split issuer "/realms/") as [| base [| rest [| x l]]];
    try done.
  intros _. exists base. rewrite joinStrings_cons in Hj.
  unfold postgres.joinStrings in Hj at 1. simpl foldl in Hj.
  destruct (TrimSuffix_sound rest "/") as [E | E].
  - left. rewrite E. by rewrite Hj.
  - right. rewrite <- Hj at 1. f_equal. f_equal. exact E.
Qed.

Lemma extractRealm_sound_witness :
  ∃ base,
    "http://keycloak:8080/realms/acme/"
    = base +:+ "/realms/" +:+ mw.extractRealm "http://keycloak:8080/realms/acme/"
    ∨ "http://keycloak:8080/realms/acme/"
      = base +:+ "/realms/"
        +:+ mw.extractRealm "http://keycloak:8080/realms/acme/" +:+ "/".
Proof.
  apply (extractRealm_sound "http://keycloak:8080/realms/acme/"). discriminate.
Defined.

End string_round_trip.

(** ** The service: creation and fan-out *)

Section service_operations.
Import domain application.
Context {R : Type} `{IAMResolver R}.

#[local] Arguments postgres.insert_tuple : simpl never.
#[local] Arguments postgres.args : simpl never.

(** A tuple that meets no conflict is stored with exactly its seven
    columns. *)
Lemma insert_tuple_columns (now : Time) (v : postgres.values) (d : postgres.db) :
  postgres.conflicts (snd v) (postgres.notifications d) = false →
  ∃ r, postgres.insert_tuple now v d
       = (Some r, postgres.mk_db (postgres.notifications d ++ [r])
                    (N.succ (postgres.uuid_supply d)))
       ∧ columns r = v ∧ postgres.id r = postgres.uuid_supply d
       ∧ postgres.is_read r = false ∧ postgres.read_at r = None
       ∧ postgres.created_at r = now.
Proof.
  destruct v as [[[[[[tk uid] ty] ti] bo] me] sid]. unfold postgres.insert_tuple.
  cbn [snd]. intros ->. eexists. split; [reflexivity |]. done.
Qed.

Lemma insert_values_NULL_columns (now : Time)
    (inputs : list CreateNotificationInput.t) (d : postgres.db) :
  Forall (λ i, CreateNotificationInput.SourceEventID i = "") inputs →
  columns <$> fst (postgres.insert_values now (postgres.args <$> inputs) d)
  = postgres.args <$> inputs.
Proof.
  revert d. induction inputs as [| i inputs IH]; intros d Hall; [done |].
  apply Forall_cons in Hall as [Hi Hall].
  rewrite fmap_cons, insert_values_cons_fst, fmap_app, IH by done.
  destruct (insert_tuple_columns now (postgres.args i) d) as (r & E & Hc & _).
  { unfold postgres.args. cbn [snd]. by rewrite Hi. }
  rewrite E. simpl. by rewrite Hc.
Qed.

Lemma insert_values_next_id (now : Time) (vs : list postgres.values)
    (d : postgres.db) :
  postgres.uuid_supply (snd (postgres.insert_values now vs d))
  = (postgres.uuid_supply d
     + N.of_nat (length (fst (postgres.insert_values now vs d))))%N.
Proof.
  revert d. induction vs as [| v vs IH]; intros d; [simpl; lia |].
  rewrite insert_values_cons_snd, insert_values_cons_fst, IH, length_app.
  destruct (insert_tuple_cases now v d) as [[_ E] | [_ (r & E & _)]];
    rewrite E; simpl; lia.
Qed.

Lemma insert_values_unread (now : Time) (vs : list postgres.values)
    (d : postgres.db) :
  Forall (λ r, postgres.is_read r = false ∧ postgres.read_at r = None
               ∧ postgres.created_at r = now)
    (fst (postgres.insert_values now vs d)).
Proof.
  revert d. induction vs as [| v vs IH]; intros d; [by apply Forall_nil |].
  rewrite insert_values_cons_fst. apply Forall_app. split; [| apply IH].
  destruct (insert_tuple_cases now v d)
    as [[_ E] | [_ (r & E & _ & _ & H1 & H2 & H3 & _)]]; rewrite E; simpl.
  - by apply Forall_nil.
  - apply Forall_cons. split; [done | by apply Forall_nil].
Qed.

Lemma insert_values_db (now : Time) (vs : list postgres.values) (d : postgres.db) :
  snd (postgres.insert_values now vs d)
  = postgres.mk_db
      (postgres.notifications d ++ fst (postgres.insert_values now vs d))
      (postgres.uuid_supply d
       + N.of_nat (length (fst (postgres.insert_values now vs d))))%N.
Proof.
  rewrite <- insert_values_next_id, <- insert_values_appends.
  by destruct (snd (postgres.insert_values now vs d)).
Qed.

(** X11.  When [resolveTargets] succeeds, its map is the one the scope
    resolved to with at most the origin user added: every list of the
    resolved map is still there, as a prefix of the list now stored under its
    tenant; every user of the result is the origin user or was resolved under
    the same tenant; and a non-empty [OriginUserID] is in some list of the
    result. *)
Theorem resolveTargets_reaches_origin (input : FanoutInput.t) (r r' : R)
    (m : gmap string (list string)) :
  resolveTargets input r = (Ok m, r') →
  ∃ m0, resolveScope input r = (Ok m0, r')
    ∧ (∀ tk uids, m0 !! tk = Some uids →
         ∃ uids', m !! tk = Some uids' ∧ uids `prefix_of` uids')
    ∧ (∀ tk uids uid, m !! tk = Some uids → uid ∈ uids →
         uid = FanoutInput.OriginUserID input
         ∨ ∃ uids0, m0 !! tk = Some uids0 ∧ uid ∈ uids0)
    ∧ (FanoutInput.OriginUserID input ≠ "" →
       ∃ tk uids, m !! tk = Some uids ∧ FanoutInput.OriginUserID input ∈ uids).
Proof.
  unfold resolveTargets.
  destruct (resolveScope input r) as [[m0 | e] r0]; [| done].
  intros [= <- <-]. exists m0. split; [done |].
  unfold includeOrigin.
  destruct (bool_decide (FanoutInput.OriginUserID input = "")) eqn:Ho.
  { apply bool_decide_eq_true in Ho. split; [| split].
    - intros tk uids Hlk. by exists uids.
    - intros tk uids uid Hlk Hin. right. by exists uids.
    - done. }
  destruct (found (FanoutInput.OriginUserID input) m0) eqn:Hf.
  { split; [| split].
    - intros tk uids Hlk. by exists uids.
    - intros tk uids uid Hlk Hin. right. by exists uids.
    - intros _. by apply found_spec. }
  set (tenant := if bool_decide (FanoutInput.TenantKey input = "")
                 then "master" else FanoutInput.TenantKey input).
  split; [| split].
  - intros tk uids Hlk. destruct (decide (tk = tenant)) as [-> | Hne].
    + rewrite lookup_insert_eq, Hlk. eexists. split; [done |].
      by apply prefix_app_r.
    + rewrite lookup_insert_ne by done. by exists uids.
  - intros tk uids uid Hlk Hin. destruct (decide (tk = tenant)) as [-> | Hne].
    + rewrite lookup_insert_eq in Hlk. injection Hlk as <-.
      apply elem_of_app in Hin as [Hin | Hin].
      * right. destruct (m0 !! tenant) as [uids0 |]; [by exists uids0 |].
        by apply elem_of_nil in Hin.
      * left. by apply list_elem_of_singleton in Hin.
    + rewrite lookup_insert_ne in Hlk by done. right. by exists uids.
  - intros _. exists tenant. eexists. rewrite lookup_insert_eq. split; [done |].
    apply elem_of_app. right. by apply list_elem_of_singleton.
Qed.

(** X12.  [Service.Fanout] fails in exactly three cases: the scope could not
    be resolved; the batch was not empty and [Query] returned an error; or
    the batch was not empty and a returned row could not be scanned.  A failed
    fan-out broadcasts nothing, and leaves the table as it was unless it
    failed on a scan, which happens after the INSERT has run.  An INSERT that
    the server rejects while it executes is not reported: the fan-out then
    returns success, with nothing stored and nothing broadcast.  A request
    that resolves to nobody succeeds without reaching the database. *)
Theorem Fanout_failure_cases
    (order : gmap string (list string) → list (string * list string))
    (dbErr : option postgres.query_error) (now : Time) (input : FanoutInput.t)
    (s : Service R) :
  let out := Fanout order dbErr now input s in
  (is_Err (fst out) = true
   ↔ is_Err (fst (resolveTargets input (resolver s))) = true
     ∨ ∃ m r', resolveTargets input (resolver s) = (Ok m, r')
               ∧ flatten input (order m) ≠ []
               ∧ ((∃ e, dbErr = Some (postgres.QueryError e))
                  ∨ ∃ k e, dbErr = Some (postgres.ScanError k e)
                           ∧ (k < length (fst (postgres.insert_values now
                                                 (postgres.args
                                                    <$> flatten input (order m))
                                                 (repo s))))%nat))
  ∧ (is_Err (fst out) = true → hub (snd out) = hub s)
  ∧ (is_Err (fst out) = true →
     (∀ k e, dbErr ≠ Some (postgres.ScanError k e)) → repo (snd out) = repo s)
  ∧ (∀ e m r', dbErr = Some (postgres.RowsError e) →
               resolveTargets input (resolver s) = (Ok m, r') →
               out = (Ok tt, mk_Service (repo s) (hub s) r'))
  ∧ (∀ m r', resolveTargets input (resolver s) = (Ok m, r') →
             flatten input (order m) = [] →
             out = (Ok tt, mk_Service (repo s) (hub s) r')).
Proof.
  intros out. subst out. unfold Fanout.
  destruct (resolveTargets input (resolver s)) as [[m | e] r'].
  2: { cbn [fst snd is_Err repo hub].
       split; [split; [by left | done] |]. repeat split; done. }
  destruct (flatten input (order m)) as [| i batch] eqn:Hb.
  { cbn [fst snd is_Err repo hub]. split; [| split; [| split; [| split]]].
    - split; [done |]. intros [Hf | (m' & r'' & [= <- <-] & Hne & _)]; [done |].
      by rewrite Hb in Hne.
    - done.
    - done.
    - intros e m' r'' _ [= <- <-]. done.
    - intros m' r'' [= <- <-] _. done. }
  unfold postgres.BatchCreate. destruct dbErr as [[e | e | k e] |].
  - cbn [fst snd is_Err repo hub]. split; [| split; [| split; [| split]]].
    + split; [| done]. intros _. right. exists m, r'. rewrite Hb.
      split; [done |]. split; [done |]. left. by exists e.
    + done.
    + done.
    + intros e' m' r'' [=]. 
    + intros m' r'' [= <- <-] Hnil. by rewrite Hb in Hnil.
  - cbn [fst snd is_Err repo hub]. split; [| split; [| split; [| split]]].
    + split; [done |].
      intros [Hf | (m' & r'' & _ & _ & [(e' & [=]) | (k & e' & [=] & _)])].
      done.
    + done.
    + done.
    + intros e' m' r'' _ [= <- <-]. by rewrite fmap_nil, app_nil_r.
    + intros m' r'' [= <- <-] Hnil. by rewrite Hb in Hnil.
  - destruct (postgres.insert_values now (postgres.args <$> i :: batch) (repo s))
      as [rs d2] eqn:Hins.
    destruct (decide (k < length rs)%nat) as [Hk | Hk];
      cbn [fst snd is_Err repo hub]; (split; [| split; [| split; [| split]]]).
    + split; [| done]. intros _. right. exists m, r'. rewrite Hb, Hins.
      split; [done |]. split; [done |]. right. by exists k, e.
    + done.
    + intros _ Hscan. by destruct (Hscan k e).
    + intros e' m' r'' [=].
    + intros m' r'' [= <- <-] Hnil. by rewrite Hb in Hnil.
    + split; [done |].
      intros [Hf | (m' & r'' & [= <- <-] & _ & [(e' & [=]) | (k' & e' & [= <- <-] & Hlt)])];
        [done |]. rewrite Hb, Hins in Hlt. done.
    + done.
    + done.
    + intros e' m' r'' [=].
    + intros m' r'' [= <- <-] Hnil. by rewrite Hb in Hnil.
  - destruct (postgres.insert_values now (postgres.args <$> i :: batch) (repo s))
      as [rs d2]. cbn [fst snd is_Err repo hub].
    split; [| split; [| split; [| split]]].
    + split; [done |].
      intros [Hf | (m' & r'' & _ & _ & [(e' & [=]) | (k & e' & [=] & _)])].
      done.
    + done.
    + done.
    + intros e' m' r'' [=].
    + intros m' r'' [= <- <-] Hnil. by rewrite Hb in Hnil.
Qed.

(** X13.  A fan-out without a source event id, on a statement the driver
    executes, stores one row per entry of the batch, in batch order, each
    with the columns of its input and a NULL key, unread, stamped [now]; the
    hub receives these rows, in that order.  When the map is visited entry
    by entry, the (tenant, user) pairs of the new rows are exactly the pairs
    of the resolved map. *)
Theorem Fanout_without_key
    (order : gmap string (list string) → list (string * list string))
    (now : Time) (input : FanoutInput.t) (s : Service R)
    (m : gmap string (list string)) (r' : R) :
  FanoutInput.SourceEventID input = "" →
  resolveTargets input (resolver s) = (Ok m, r') →
  ∃ new,
    Fanout order None now input s
    = (Ok tt,
       mk_Service
         (postgres.mk_db (postgres.notifications (repo s) ++ new)
            (postgres.uuid_supply (repo s) + N.of_nat (length new))%N)
         (hub s ++ (Broadcast <$> (postgres.scanNotification <$> new))) r')
    ∧ columns <$> new = postgres.args <$> flatten input (order m)
    ∧ Forall (λ r, postgres.is_read r = false ∧ postgres.read_at r = None
                   ∧ postgres.created_at r = now
                   ∧ postgres.source_event_id r = None) new
    ∧ (order m ≡ₚ map_to_list m →
       ∀ tk uid, (∃ uids, m !! tk = Some uids ∧ uid ∈ uids)
                 ↔ ∃ r, r ∈ new ∧ postgres.tenant_key r = tk
                        ∧ postgres.user_id r = uid).
Proof.
  intros Hkey Hres. unfold Fanout. rewrite Hres.
  pose proof (flatten_key input (order m)) as Hall. rewrite Hkey in Hall.
  pose proof (insert_values_NULL_columns now _ (repo s) Hall) as Hcols.
  pose proof (insert_values_unread now
                (postgres.args <$> flatten input (order m)) (repo s)) as Hnew.
  pose proof (insert_values_db now
                (postgres.args <$> flatten input (order m)) (repo s)) as Hdb.
  exists (fst (postgres.insert_values now
                 (postgres.args <$> flatten input (order m)) (repo s))).
  assert (∀ r, r ∈ fst (postgres.insert_values now
                          (postgres.args <$> flatten input (order m)) (repo s)) →
               ∃ i, i ∈ flatten input (order m) ∧ columns r = postgres.args i)
    as Hfrom.
  { intros r Hr. apply (list_elem_of_fmap_2 columns) in Hr.
    rewrite Hcols in Hr. apply list_elem_of_fmap in Hr as (i & E & Hi).
    by exists i. }
  assert (∀ i, i ∈ flatten input (order m) →
               ∃ r, r ∈ fst (postgres.insert_values now
                          (postgres.args <$> flatten input (order m)) (repo s))
                    ∧ columns r = postgres.args i) as Hto.
  { intros i Hi. apply (list_elem_of_fmap_2 postgres.args) in Hi.
    rewrite <- Hcols in Hi. apply list_elem_of_fmap in Hi as (r & E & Hr).
    by exists r. }
  split; [| split; [done | split]].
  - destruct (flatten input (order m)) as [| i batch] eqn:Hb.
    + simpl. rewrite !app_nil_r, N.add_0_r. by destruct (repo s).
    + unfold postgres.BatchCreate.
      destruct (postgres.insert_values now (postgres.args <$> i :: batch) (repo s))
        as [rs d2]. cbn [fst snd] in *. by rewrite Hdb.
  - apply Forall_forall. intros r Hr. rewrite Forall_forall in Hnew.
    destruct (Hnew r Hr) as (H1 & H2 & H3). repeat split; try done.
    destruct (Hfrom r Hr) as (i & Hi & Hc).
    rewrite Forall_forall in Hall. specialize (Hall i Hi).
    unfold columns, postgres.args in Hc. rewrite Hall in Hc.
    by injection Hc.
  - intros Hperm tk uid. rewrite <- (flatten_pairs input m order tk uid Hperm).
    split.
    + intros (i & Hi & <- & <-). destruct (Hto i Hi) as (r & Hr & Hc).
      exists r. split; [done |]. unfold columns, postgres.args in Hc.
      by injection Hc.
    + intros (r & Hr & <- & <-). destruct (Hfrom r Hr) as (i & Hi & Hc).
      exists i. split; [done |]. unfold columns, postgres.args in Hc.
      by injection Hc.
Qed.

Lemma Fanout_USER_single
    (order : gmap string (list string) → list (string * list string))
    (dbErr : option string) (now : Time) (input : FanoutInput.t) (s : Service R) :
  FanoutInput.TargetScope_ input = ScopeUser →
  FanoutInput.OriginUserID input = "" →
  (∀ m, order m ≡ₚ map_to_list m) →
  (∀ q, q = postgres.QueryError <$> dbErr ∨ q = postgres.RowsError <$> dbErr →
        snd (Fanout order q now input s) = snd (Create dbErr now (single input) s))
  ∧ is_Err (fst (Fanout order (postgres.QueryError <$> dbErr) now input s))
    = is_Err (fst (Create dbErr now (single input) s))
  ∧ (∀ e, fst (Fanout order (Some (postgres.RowsError e)) now input s) = Ok tt
          ∧ is_Err (fst (Create (Some e) now (single input) s)) = true).
Proof.
  intros Hscope Horigin Horder.
  assert (resolveTargets input (resolver s)
          = (Ok {[FanoutInput.TenantKey input := [FanoutInput.TargetID input]]},
             resolver s)) as Hres.
  { unfold resolveTargets, resolveScope, includeOrigin.
    rewrite Hscope, Horigin. simpl. by rewrite insert_empty. }
  assert (order {[FanoutInput.TenantKey input := [FanoutInput.TargetID input]]}
          = [(FanoutInput.TenantKey input, [FanoutInput.TargetID input])]) as Hord.
  { apply Permutation_singleton_r. rewrite Horder. by rewrite map_to_list_singleton. }
  unfold Fanout, Create. rewrite Hres, Hord.
  change (flatten input
            [(FanoutInput.TenantKey input, [FanoutInput.TargetID input])])
    with [single input].
  unfold postgres.BatchCreate, postgres.Create.
  split; [| split].
  - intros q [-> | ->]; destruct dbErr as [e |]; cbn [fmap option_fmap option_map].
    + by destruct s.
    + rewrite fmap_cons, fmap_nil. simpl.
      destruct (postgres.insert_tuple now (postgres.args (single input)) (repo s))
        as [[r |] d1]; simpl; [done |]. by rewrite app_nil_r.
    + cbn [snd hub repo]. rewrite fmap_nil, app_nil_r. by destruct s.
    + rewrite fmap_cons, fmap_nil. simpl.
      destruct (postgres.insert_tuple now (postgres.args (single input)) (repo s))
        as [[r |] d1]; simpl; [done |]. by rewrite app_nil_r.
  - destruct dbErr as [e |]; cbn [fmap option_fmap option_map]; [done |].
    rewrite fmap_cons, fmap_nil. simpl.
    by destruct (postgres.insert_tuple now (postgres.args (single input)) (repo s))
      as [[r |] d1].
  - intros e. done.
Qed.

(** X14.  A USER-scoped request without an origin user is [Service.Create]
    on the one input it denotes, as far as table and hub go: both leave the
    same table and the same hub when the statement executes, when the driver
    cannot send it, and when the server rejects it.  They differ in what they
    report: an executed statement and one the driver could not send are
    reported alike, but a statement the server rejects while it executes
    fails [Create], whose [Scan] returns the error, and is reported as
    success by [Fanout], whose [BatchCreate] never reads [rows.Err()]. *)
Theorem Fanout_USER_is_Create
    (order : gmap string (list string) → list (string * list string))
    (dbErr : option string) (now : Time) (input : FanoutInput.t) (s : Service R) :
  FanoutInput.TargetScope_ input = ScopeUser →
  FanoutInput.OriginUserID input = "" →
  (∀ m, order m ≡ₚ map_to_list m) →
  let single :=
    CreateNotificationInput.mk (FanoutInput.TenantKey input)
      (FanoutInput.TargetID input) (FanoutInput.Type_ input)
      (FanoutInput.Title input) (FanoutInput.Body input)
      (FanoutInput.Metadata_ input) (FanoutInput.SourceEventID input) in
  (∀ q, q = postgres.QueryError <$> dbErr ∨ q = postgres.RowsError <$> dbErr →
        snd (Fanout order q now input s) = snd (Create dbErr now single s))
  ∧ is_Err (fst (Fanout order (postgres.QueryError <$> dbErr) now input s))
    = is_Err (fst (Create dbErr now single s))
  ∧ (∀ e, fst (Fanout order (Some (postgres.RowsError e)) now input s) = Ok tt
          ∧ is_Err (fst (Create (Some e) now single s)) = true).
Proof.
  intros Hscope Horigin Horder single0.
  by apply Fanout_USER_single.
Qed.

(** X15.  The three outcomes of [Service.Create].  It returns a notification
    exactly when the driver executed the INSERT and no stored row carries the
    input's key: then one row is appended and one broadcast, addressed to the
    input's tenant and user and carrying the returned notification, is handed
    to the hub.  It returns success without a notification exactly when the
    key is non-empty and already stored, and an error exactly when the driver
    rejected the statement; in both cases table and hub are unchanged. *)
Theorem Service_Create_cases (dbErr : option string) (now : Time)
    (input : CreateNotificationInput.t) (s : Service R) :
  match Create dbErr now input s with
  | (Ok (Some n), s') =>
      dbErr = None
      ∧ postgres.conflicts (snd (postgres.args input))
          (postgres.notifications (repo s)) = false
      ∧ (∃ r, postgres.scanNotification r = n
              ∧ columns r = postgres.args input
              ∧ repo s'
                = postgres.mk_db (postgres.notifications (repo s) ++ [r])
                    (N.succ (postgres.uuid_supply (repo s))))
      ∧ hub s'
        = hub s ++ [(CreateNotificationInput.TenantKey input,
                     CreateNotificationInput.UserID input, n)]
      ∧ resolver s' = resolver s
  | (Ok None, s') =>
      dbErr = None
      ∧ CreateNotificationInput.SourceEventID input ≠ ""
      ∧ CreateNotificationInput.SourceEventID input
          ∈ keys (postgres.notifications (repo s))
      ∧ s' = s
  | (Err e, s') =>
      (∃ e0, dbErr = Some e0
             ∧ e = "create notification: insert notification: " +:+ e0)
      ∧ s' = s
  end.
Proof.
  unfold Create, postgres.Create. destruct dbErr as [e0 |].
  { split; [by exists e0 | by destruct s]. }
  destruct (postgres.conflicts (snd (postgres.args input))
              (postgres.notifications (repo s))) eqn:Hc.
  - destruct (insert_tuple_cases now (postgres.args input) (repo s))
      as [[_ E] | [Hc' _]]; [| congruence].
    rewrite E. split; [done |].
    destruct (decide (CreateNotificationInput.SourceEventID input = ""))
      as [He | Hne].
    { unfold postgres.args in Hc. cbn [snd] in Hc.
      by rewrite He in Hc. }
    split; [done |]. split; [| by destruct s].
    rewrite args_key in Hc by done. by apply conflicts_keys.
  - destruct (insert_tuple_columns now (postgres.args input) (repo s) Hc)
      as (r & E & Hcol & _).
    rewrite E. split; [done |]. split; [done |]. split; [by exists r |].
    split; [| done]. cbn [hub]. unfold Broadcast.
    unfold columns, postgres.args in Hcol. injection Hcol as H1 H2 _ _ _ _ _.
    simpl. by rewrite H1, H2.
Qed.

End service_operations.

Lemma Fanout_without_key_witness :
  ∃ new,
    application.Fanout map_to_list None 1%Z
      (domain.FanoutInput.mk domain.ScopeRole "PLATFORM_ADMIN" "master"
         domain.TypeSystem "Maintenance" "Tonight" ∅ "" "A3")
      (application.mk_Service postgres.empty_db [] admins)
    = (Ok tt,
       application.mk_Service
         (postgres.mk_db new (0 + N.of_nat (length new))%N)
         (application.Broadcast <$> (postgres.scanNotification <$> new)) admins)
    ∧ (postgres.user_id <$> new) = ["A1"; "A2"; "A3"].
Proof.
  destruct (Fanout_without_key map_to_list 1%Z
              (domain.FanoutInput.mk domain.ScopeRole "PLATFORM_ADMIN" "master"
                 domain.TypeSystem "Maintenance" "Tonight" ∅ "" "A3")
              (application.mk_Service postgres.empty_db [] admins)
              {["master" := ["A1"; "A2"; "A3"]]} admins)
    as (new & E & Hc & _); [reflexivity | by vm_compute |].
  exists new. split; [exact E |].
  assert (postgres.user_id <$> new
          = (λ v : postgres.values, snd (fst (fst (fst (fst (fst v))))))
              <$> (columns <$> new)) as ->.
  { rewrite <- list_fmap_compose. done. }
  rewrite Hc. reflexivity.
Defined.


Lemma resolveTargets_reaches_origin_witness :
  ∃ m0, application.resolveScope tenant_created admins = (Ok m0, admins)
    ∧ (∀ tk uids, m0 !! tk = Some uids →
         ∃ uids', ({["master" := ["A1"; "A2"; "A3"]]} : gmap string (list string)) !! tk
                  = Some uids' ∧ uids `prefix_of` uids')
    ∧ (∀ tk uids uid,
         ({["master" := ["A1"; "A2"; "A3"]]} : gmap string (list string)) !! tk
         = Some uids → uid ∈ uids →
         uid = "A3" ∨ ∃ uids0, m0 !! tk = Some uids0 ∧ uid ∈ uids0)
    ∧ ("A3" ≠ "" →
       ∃ tk uids,
         ({["master" := ["A1"; "A2"; "A3"]]} : gmap string (list string)) !! tk
         = Some uids ∧ "A3" ∈ uids).
Proof.
  apply (resolveTargets_reaches_origin tenant_created admins admins
           {["master" := ["A1"; "A2"; "A3"]]}).
  by vm_compute.
Defined.

Lemma Fanout_USER_is_Create_witness :
  fst (application.Fanout map_to_list (Some (postgres.RowsError "value too long"))
         1%Z
         (domain.FanoutInput.mk domain.ScopeUser "U1" "acme" domain.TypeWorkflow
            "Review PR" "Onboarding" ∅ "e1" "")
         (application.mk_Service postgres.empty_db [] admins)) = Ok tt
  ∧ is_Err (fst (application.Create (Some "value too long") 1%Z
                   (sample_input "U1" "e1")
                   (application.mk_Service postgres.empty_db [] admins))) = true.
Proof.
  destruct (Fanout_USER_is_Create map_to_list None 1%Z
              (domain.FanoutInput.mk domain.ScopeUser "U1" "acme"
                 domain.TypeWorkflow "Review PR" "Onboarding" ∅ "e1" "")
              (application.mk_Service postgres.empty_db [] admins))
    as (_ & _ & Hrow);
    [reflexivity | reflexivity | intros m; reflexivity |].
  exact (Hrow "value too long").
Defined.


(** ** The pull API: replies of the mark-read and delete endpoints *)

Section pull_handlers.
Import domain postgres.
Context {R : Type}.

Lemma Delete_nothing_owned (i : UUID) (tk u : string) (d : db) :
  (∀ r, r ∈ notifications d → owned_by i tk u r = false) →
  Delete None i tk u d = (Err "notification not found", d).
Proof.
  intros Hnone. unfold Delete, sql_delete.
  rewrite (filter_none (λ r, owned_by i tk u r = true)).
  2: { intros r Hr. rewrite (Hnone r Hr). done. }
  rewrite (filter_all _ _ Hnone). simpl. by destruct d.
Qed.

Lemma Delete_some_owned (i : UUID) (tk u : string) (d : db) (r : row) :
  r ∈ notifications d → owned_by i tk u r = true →
  fst (Delete None i tk u d) = Ok tt.
Proof.
  intros Hr Ho. unfold Delete, sql_delete.
  destruct (filter (λ r, owned_by i tk u r = true) (notifications d))
    as [| r0 l] eqn:E.
  - exfalso. by apply (filter_nil_not_elem_of _ _ r E).
  - done.
Qed.

Lemma MarkRead_decided (now : Time) (i : UUID) (tk u : string) (d : db) :
  ((∃ r, r ∈ notifications d ∧ owned_by i tk u r = true ∧ is_read r = false)
   ∧ fst (MarkRead None now i tk u d) = Ok tt)
  ∨ ((¬ ∃ r, r ∈ notifications d ∧ owned_by i tk u r = true ∧ is_read r = false)
     ∧ MarkRead None now i tk u d
       = (Err "notification not found or already read", d)).
Proof.
  destruct (decide (Exists (λ r, owned_by i tk u r = true ∧ is_read r = false)
                      (notifications d))) as [Hex | Hnex];
    rewrite Exists_exists in *.
  - left. split; [done |]. destruct Hex as (r & Hr & Ho & Hu).
    by apply (MarkRead_some_unread now i tk u d r).
  - right. split; [done |]. apply MarkRead_nothing_unread.
    intros r Hr Ho. destruct (is_read r) eqn:Hread; [done |].
    exfalso. apply Hnex. by exists r.
Qed.

Lemma Delete_decided (i : UUID) (tk u : string) (d : db) :
  ((∃ r, r ∈ notifications d ∧ owned_by i tk u r = true)
   ∧ fst (Delete None i tk u d) = Ok tt)
  ∨ ((¬ ∃ r, r ∈ notifications d ∧ owned_by i tk u r = true)
     ∧ Delete None i tk u d = (Err "notification not found", d)).
Proof.
  destruct (decide (Exists (λ r, owned_by i tk u r = true) (notifications d)))
    as [Hex | Hnex]; rewrite Exists_exists in *.
  - left. split; [done |]. destruct Hex as (r & Hr & Ho).
    by apply (Delete_some_owned i tk u d r).
  - right. split; [done |]. apply Delete_nothing_owned.
    intros r Hr. destruct (owned_by i tk u r) eqn:Ho; [| done].
    exfalso. apply Hnex. by exists r.
Qed.

(** X16.  What the two endpoints that take an id answer.  An id that
    [uuid.Parse] rejects is answered 400 by mark-read and 404 by delete, with
    the store untouched and the driver never reached.  For a parsed id and a
    statement the driver executes, mark-read answers 204 exactly when the
    caller owns an unread row of that id and otherwise 400 "notification not
    found or already read"; delete answers 204 exactly when the caller owns a
    row of that id and otherwise 404 "notification not found"; both leave the
    store unchanged when they refuse.  A statement the driver rejects is also
    answered 400, respectively 404, never 500. *)
Theorem MarkRead_Delete_replies (uuid_Parse : string → result UUID)
    (dbErr : option string) (now : Time) (tk u idParam : string)
    (s : application.Service R) :
  (∀ e, uuid_Parse idParam = Err e →
     transport.MarkRead uuid_Parse dbErr now tk u idParam s
     = (transport.HTTPError 400 ("invalid notification id: " +:+ e), s)
     ∧ transport.Delete uuid_Parse dbErr tk u idParam s
       = (transport.HTTPError 404 ("invalid notification id: " +:+ e), s))
  ∧ (∀ i, uuid_Parse idParam = Ok i →
       (fst (transport.MarkRead uuid_Parse None now tk u idParam s)
        = transport.NoContent 204
        ↔ ∃ r, r ∈ notifications (application.repo s)
               ∧ owned_by i tk u r = true ∧ is_read r = false)
       ∧ (fst (transport.MarkRead uuid_Parse None now tk u idParam s)
          = transport.NoContent 204
          ∨ transport.MarkRead uuid_Parse None now tk u idParam s
            = (transport.HTTPError 400 "notification not found or already read", s))
       ∧ (fst (transport.Delete uuid_Parse None tk u idParam s)
          = transport.NoContent 204
          ↔ ∃ r, r ∈ notifications (application.repo s)
                 ∧ owned_by i tk u r = true)
       ∧ (fst (transport.Delete uuid_Parse None tk u idParam s)
          = transport.NoContent 204
          ∨ transport.Delete uuid_Parse None tk u idParam s
            = (transport.HTTPError 404 "notification not found", s)))
  ∧ (∀ i e, uuid_Parse idParam = Ok i → dbErr = Some e →
       transport.MarkRead uuid_Parse dbErr now tk u idParam s
       = (transport.HTTPError 400 ("mark read: " +:+ e), s)
       ∧ transport.Delete uuid_Parse dbErr tk u idParam s
         = (transport.HTTPError 404 ("delete notification: " +:+ e), s)).
Proof.
  unfold transport.MarkRead, transport.Delete, application.Service_MarkRead,
    application.Service_Delete, application.MarkRead.
  split; [| split].
  - intros e ->. done.
  - intros i ->.
    destruct (MarkRead_decided now i tk u (application.repo s))
      as [[Hex E] | [Hnex E]];
      destruct (Delete_decided i tk u (application.repo s))
        as [[Hex' E'] | [Hnex' E']].
    all: try (destruct (MarkRead None now i tk u (application.repo s))
                as [res d] eqn:Em; cbn [fst] in E; subst res).
    all: try (destruct (Delete None i tk u (application.repo s))
                as [res' d'] eqn:Ed; cbn [fst] in E'; subst res').
    all: try rewrite E; try rewrite E'; cbn [fst].
    all: repeat split; try done; try (by left); try (right; by destruct s).
  - intros i e -> ->. simpl. by destruct s.
Qed.

End pull_handlers.

(** ** The SSE hub *)

Section hub_registry.
Import sse_hub.

(** Sums over a map, as [ConnectedCount] computes them. *)
Lemma fold_sum_insert {V : Type} (g : V → Z) (m : gmap string V)
    (i : string) (x : V) :
  map_fold (λ _ v t, (t + g v)%Z) 0%Z (<[i := x]> m)
  = (map_fold (λ _ v t, (t + g v)%Z) 0%Z m - from_option g 0%Z (m !! i) + g x)%Z.
Proof.
  assert (∀ (m' : gmap string V) (j : string) (y : V), m' !! j = None →
            map_fold (λ _ v t, (t + g v)%Z) 0%Z (<[j := y]> m')
            = (map_fold (λ _ v t, (t + g v)%Z) 0%Z m' + g y)%Z) as Hfresh.
  { intros m' j y Hj. apply (map_fold_insert_L (λ _ v t, (t + g v)%Z)); [| done].
    intros; lia. }
  destruct (m !! i) as [old |] eqn:Hi; simpl.
  - rewrite <- (insert_delete_eq m i x), Hfresh by apply lookup_delete_eq.
    rewrite (map_fold_delete_L (λ _ v t, (t + g v)%Z) 0%Z i old m); [lia | | done].
    intros; lia.
  - rewrite Hfresh by done. lia.
Qed.

Lemma fold_sum_delete {V : Type} (g : V → Z) (m : gmap string V) (i : string) :
  map_fold (λ _ v t, (t + g v)%Z) 0%Z (delete i m)
  = (map_fold (λ _ v t, (t + g v)%Z) 0%Z m - from_option g 0%Z (m !! i))%Z.
Proof.
  destruct (m !! i) as [old |] eqn:Hi; simpl.
  - rewrite (map_fold_delete_L (λ _ v t, (t + g v)%Z) 0%Z i old m); [lia | | done].
    intros; lia.
  - rewrite delete_id by done. lia.
Qed.

Lemma fold_sum_acc {V : Type} (g : V → Z) (b : Z) (m : gmap string V) :
  map_fold (λ _ v t, (t + g v)%Z) b m
  = (b + map_fold (λ _ v t, (t + g v)%Z) 0%Z m)%Z.
Proof.
  rewrite <- (Z.add_0_r b) at 1.
  apply (map_fold_comm_acc (λ _ v t, (t + g v)%Z) (Z.add b)). intros; lia.
Qed.

Lemma fold_sum_zero {V : Type} (g : V → Z) (m : gmap string V) :
  (∀ v, 0 ≤ g v)%Z →
  (0 ≤ map_fold (λ _ v t, (t + g v)%Z) 0%Z m)%Z
  ∧ (map_fold (λ _ v t, (t + g v)%Z) 0%Z m = 0%Z
     ↔ ∀ i v, m !! i = Some v → g v = 0%Z).
Proof.
  intros Hg.
  apply (map_fold_weak_ind
           (λ (res : Z) (m : gmap string V),
              (0 ≤ res)%Z ∧ (res = 0%Z ↔ ∀ i v, m !! i = Some v → g v = 0%Z))).
  - split; [done |]. split; [| done]. intros _ i v Hi.
    by rewrite lookup_empty in Hi.
  - intros i x m' res Hi [Hpos IH]. specialize (Hg x). split; [lia |]. split.
    + intros Hz j v Hj. destruct (decide (j = i)) as [-> | Hne].
      * rewrite lookup_insert_eq in Hj. injection Hj as <-. lia.
      * rewrite lookup_insert_ne in Hj by done. apply IH in Hj; [done | lia].
    + intros Hall. assert (g x = 0%Z) as Hx.
      { apply (Hall i). by rewrite lookup_insert_eq. }
      assert (res = 0%Z); [| lia]. apply IH. intros j v Hj. apply (Hall j).
      rewrite lookup_insert_ne; [done |]. intros ->. congruence.
Qed.

(** [ConnectedCount] is the sum, over the tenants, of the sums of the list
    lengths. *)
Lemma ConnectedCount_sum (h : Hub) :
  ConnectedCount h
  = map_fold (λ _ users t,
       (t + map_fold (λ _ cs t, (t + Z.of_nat (length cs))%Z) 0%Z users)%Z)
      0%Z (clients h).
Proof.
  unfold ConnectedCount. rewrite !map_fold_foldr.
  induction (map_to_list (clients h)) as [| [tk users] l IH]; [done |].
  simpl. rewrite IH. apply (fold_sum_acc (λ cs, Z.of_nat (length cs))).
Qed.

Lemma listeners_insert (tk tk' u' : string) (users : gmap string (list Client))
    (n : N) (h : Hub) :
  listeners tk' u' (mk_Hub (<[tk := users]> (clients h)) n)
  = if decide (tk' = tk) then default [] (users !! u') else listeners tk' u' h.
Proof.
  unfold listeners. cbn [clients]. destruct (decide (tk' = tk)) as [-> | Hne].
  - by rewrite lookup_insert_eq.
  - by rewrite lookup_insert_ne.
Qed.

Lemma listeners_Register (tk u : string) (ch : N) (h : Hub) (tk' u' : string) :
  listeners tk' u' (snd (Register tk u ch h))
  = if decide (tk' = tk ∧ u' = u)
    then listeners tk u h ++ [mk_Client (next h) tk u ch]
    else listeners tk' u' h.
Proof.
  unfold Register. cbn [snd]. rewrite listeners_insert.
  destruct (decide (tk' = tk)) as [-> | Hne].
  - destruct (decide (u' = u)) as [-> | Hne].
    + rewrite decide_True by done. by rewrite lookup_insert_eq.
    + rewrite decide_False by (intros [_ ?]; done). by rewrite lookup_insert_ne.
  - rewrite decide_False by (intros [? _]; done). done.
Qed.

Lemma ConnectedCount_Register (tk u : string) (ch : N) (h : Hub) :
  ConnectedCount (snd (Register tk u ch h)) = (ConnectedCount h + 1)%Z.
Proof.
  unfold Register. cbn [snd]. rewrite !ConnectedCount_sum. cbn [clients].
  rewrite (fold_sum_insert
             (λ users, map_fold (λ _ cs t, (t + Z.of_nat (length cs))%Z) 0%Z users)).
  rewrite (fold_sum_insert (λ cs, Z.of_nat (length cs))).
  destruct (clients h !! tk) as [users |]; simpl.
  - destruct (users !! u) as [cs |]; simpl; rewrite ?length_app; simpl; lia.
  - rewrite lookup_empty, map_fold_empty. simpl. lia.
Qed.

Lemma length_filter_addr (a : N) (cs : list Client) :
  (length (filter (λ e, addr e ≠ a) cs) + length (filter (λ e, addr e = a) cs)
   = length cs)%nat.
Proof.
  induction cs as [| c cs IH]; [done |]. rewrite !filter_cons.
  destruct (decide (addr c = a)).
  - rewrite decide_False by (intros Hn; done). simpl. lia.
  - rewrite decide_True by done. simpl. lia.
Qed.

Lemma listeners_Unregister (c : Client) (h : Hub) (tk u : string) :
  listeners tk u (Unregister c h)
  = if decide (tk = tenantKey c ∧ u = userID c)
    then filter (λ e, addr e ≠ addr c) (listeners tk u h)
    else listeners tk u h.
Proof.
  unfold Unregister. destruct (clients h !! tenantKey c) as [users |] eqn:Htk.
  - rewrite listeners_insert. destruct (decide (tk = tenantKey c)) as [-> | Hne].
    + unfold listeners. rewrite Htk. simpl.
      destruct (decide (u = userID c)) as [-> | Hne].
      * rewrite decide_True by done.
        destruct (filter (λ e, addr e ≠ addr c) (default [] (users !! userID c)))
          as [| x l].
        -- by rewrite lookup_delete_eq.
        -- by rewrite lookup_insert_eq.
      * rewrite decide_False by (intros [_ ?]; done).
        destruct (filter (λ e, addr e ≠ addr c) (default [] (users !! userID c)))
          as [| x l].
        -- by rewrite lookup_delete_ne.
        -- by rewrite lookup_insert_ne.
    + rewrite decide_False by (intros [? _]; done). done.
  - case_decide as Hd; [| done]. destruct Hd as [-> ->].
    unfold listeners. by rewrite Htk.
Qed.

Lemma ConnectedCount_Unregister (c : Client) (h : Hub) :
  ConnectedCount (Unregister c h)
  = (ConnectedCount h
     - Z.of_nat (length (filter (λ e, addr e = addr c)
                           (listeners (tenantKey c) (userID c) h))))%Z.
Proof.
  unfold Unregister, listeners.
  destruct (clients h !! tenantKey c) as [users |] eqn:Htk; simpl.
  2: { rewrite lookup_empty. simpl. lia. }
  rewrite !ConnectedCount_sum. cbn [clients].
  rewrite (fold_sum_insert
             (λ users, map_fold (λ _ cs t, (t + Z.of_nat (length cs))%Z) 0%Z users)).
  rewrite Htk. simpl.
  pose proof (length_filter_addr (addr c) (default [] (users !! userID c))) as Hlen.
  destruct (filter (λ e, addr e ≠ addr c) (default [] (users !! userID c)))
    as [| x l] eqn:Hf.
  - rewrite (fold_sum_delete (λ cs, Z.of_nat (length cs))).
    destruct (users !! userID c) as [cs |]; simpl in *; lia.
  - rewrite (fold_sum_insert (λ cs, Z.of_nat (length cs))).
    destruct (users !! userID c) as [cs |]; simpl in *; lia.
Qed.

Lemma stored_listeners (h : Hub) (tk u : string)
    (users : gmap string (list Client)) (cs : list Client) :
  clients h !! tk = Some users → users !! u = Some cs → listeners tk u h = cs.
Proof. intros Htk Hu. unfold listeners. by rewrite Htk; simpl; rewrite Hu. Qed.

Lemma listeners_wf (h : Hub) (tk u : string) :
  hub_wf h →
  Forall (λ c, tenantKey c = tk ∧ userID c = u ∧ (addr c < next h)%N)
    (listeners tk u h)
  ∧ NoDup (addr <$> listeners tk u h).
Proof.
  intros Hwf. unfold listeners.
  destruct (clients h !! tk) as [users |] eqn:Htk; simpl.
  - destruct (users !! u) as [cs |] eqn:Hu; simpl.
    + by destruct (Hwf tk users u cs Htk Hu) as (_ & ? & ?).
    + rewrite lookup_empty || idtac. split; [by apply Forall_nil | apply NoDup_nil_2].
  - rewrite lookup_empty. simpl. split; [by apply Forall_nil | apply NoDup_nil_2].
Qed.

Lemma Register_wf (tk u : string) (ch : N) (h : Hub) :
  hub_wf h → hub_wf (snd (Register tk u ch h)).
Proof.
  intros Hwf tk' users' u' cs Htk Hu.
  pose proof (stored_listeners _ _ _ _ _ Htk Hu) as Hl.
  rewrite listeners_Register in Hl.
  unfold Register in Htk |- *. cbn [snd clients next] in *.
  destruct (listeners_wf h tk u Hwf) as [Hall Hnd].
  case_decide as Hd.
  - destruct Hd as [-> ->]. subst cs. split; [| split].
    + intros Hnil. by apply app_eq_nil in Hnil as [_ ?].
    + apply Forall_app. split.
      * eapply Forall_impl; [exact Hall |]. simpl. intros c (? & ? & ?).
        repeat split; try done. lia.
      * apply Forall_singleton. simpl. repeat split; try done. lia.
    + rewrite fmap_app. apply NoDup_app. split; [done |]. split.
      * intros a Ha Hin. simpl in Hin. apply list_elem_of_singleton in Hin.
        subst a. apply list_elem_of_fmap in Ha as (c & Hc & Hin).
        rewrite Forall_forall in Hall. destruct (Hall c Hin) as (_ & _ & Hlt). lia.
      * simpl. apply NoDup_singleton.
  - assert (∃ users0, clients h !! tk' = Some users0 ∧ users0 !! u' = Some cs)
      as (users0 & Htk0 & Hu0).
    { destruct (decide (tk' = tk)) as [-> | Hne].
      - rewrite lookup_insert_eq in Htk. injection Htk as <-.
        rewrite lookup_insert_ne in Hu by (intros ->; by apply Hd).
        destruct (clients h !! tk) as [users0 |]; simpl in Hu.
        + by exists users0.
        + by rewrite lookup_empty in Hu.
      - rewrite lookup_insert_ne in Htk by done. by exists users'. }
    destruct (Hwf tk' users0 u' cs Htk0 Hu0) as (Hne & Hall' & Hnd').
    split; [done |]. split; [| done].
    eapply Forall_impl; [exact Hall' |]. simpl. intros c (? & ? & ?).
    repeat split; try done. lia.
Qed.

Lemma Unregister_wf (c : Client) (h : Hub) : hub_wf h → hub_wf (Unregister c h).
Proof.
  intros Hwf tk' users' u' cs Htk Hu.
  pose proof (stored_listeners _ _ _ _ _ Htk Hu) as Hl.
  rewrite listeners_Unregister in Hl.
  destruct (listeners_wf h tk' u' Hwf) as [Hall Hnd].
  assert (next (Unregister c h) = next h) as ->.
  { unfold Unregister. by destruct (clients h !! tenantKey c). }
  assert (cs ≠ []) as Hne.
  { unfold Unregister in Htk.
    destruct (clients h !! tenantKey c) as [users |] eqn:Hc.
    2: { by destruct (Hwf tk' users' u' cs Htk Hu). }
    cbn [clients] in Htk. destruct (decide (tk' = tenantKey c)) as [-> | Hne].
    - rewrite lookup_insert_eq in Htk. injection Htk as <-.
      destruct (decide (u' = userID c)) as [-> | Hne].
      + destruct (filter (λ e, addr e ≠ addr c) (default [] (users !! userID c)))
          as [| x l] eqn:Hf.
        * by rewrite lookup_delete_eq in Hu.
        * rewrite lookup_insert_eq in Hu. by injection Hu as <-.
      + assert (users !! u' = Some cs) as Hu'.
        { destruct (filter (λ e, addr e ≠ addr c) (default [] (users !! userID c)));
            [by rewrite lookup_delete_ne in Hu
            | by rewrite lookup_insert_ne in Hu]. }
        by destruct (Hwf _ users u' cs Hc Hu').
    - rewrite lookup_insert_ne in Htk by done.
      by destruct (Hwf tk' users' u' cs Htk Hu). }
  split; [done |]. case_decide as Hd.
  - subst cs. split.
    + apply Forall_forall. intros e He.
      apply list_elem_of_filter in He as [_ He].
      rewrite Forall_forall in Hall. by apply Hall.
    + eapply sublist_NoDup; [exact Hnd |]. apply fmap_sublist, sublist_filter.
  - by subst cs.
Qed.

Lemma NewHub_wf : hub_wf NewHub.
Proof. intros tk users u cs Htk. simpl in Htk. by rewrite lookup_empty in Htk. Qed.

Lemma run_hub_wf (cs : list call) (h : Hub) : hub_wf h → hub_wf (run cs h).
Proof.
  revert h. induction cs as [| c cs IH]; intros h Hwf; [done |].
  simpl. apply IH. destruct c as [tk u ch | c]; simpl.
  - by apply Register_wf.
  - by apply Unregister_wf.
Qed.

(** X17.  [Hub.Register] returns a client with the given tenant, user and
    channel at an address no earlier client has; the client is appended to
    the list of its tenant and user, every other list is as it was, and
    [ConnectedCount] grows by exactly one. *)
Theorem Register_contract (tk u : string) (ch : N) (h : Hub) :
  let c := fst (Register tk u ch h) in
  let h' := snd (Register tk u ch h) in
  c = mk_Client (next h) tk u ch
  ∧ (∀ tk' u', listeners tk' u' h'
               = if decide (tk' = tk ∧ u' = u) then listeners tk u h ++ [c]
                 else listeners tk' u' h)
  ∧ ConnectedCount h' = (ConnectedCount h + 1)%Z
  ∧ next h' = N.succ (next h).
Proof.
  intros c h'. subst c h'. split; [done |]. split; [| split; [| done]].
  - intros tk' u'. apply listeners_Register.
  - apply ConnectedCount_Register.
Qed.

(** X18.  The registry invariant.  In every hub built from [NewHub] by
    [Register] and [Unregister] calls, no empty list is stored (an entry is
    deleted with its last client), every client is filed under its own
    tenant and user, and no address occurs twice in a list; and
    [ConnectedCount] is zero exactly when no tenant and user has a client. *)
Theorem registry_invariant (cs : list call) :
  let h := run cs NewHub in
  hub_wf h
  ∧ (0 ≤ ConnectedCount h)%Z
  ∧ (ConnectedCount h = 0%Z ↔ ∀ tk u, listeners tk u h = []).
Proof.
  intros h. split; [apply run_hub_wf, NewHub_wf |].
  rewrite ConnectedCount_sum.
  assert (∀ users : gmap string (list Client),
            (0 ≤ map_fold (λ _ cs t, (t + Z.of_nat (length cs))%Z) 0%Z users)%Z
            ∧ (map_fold (λ _ cs t, (t + Z.of_nat (length cs))%Z) 0%Z users = 0%Z
               ↔ ∀ u l, users !! u = Some l → Z.of_nat (length l) = 0%Z)) as Hin.
  { intros users. apply (fold_sum_zero (λ cs : list Client, Z.of_nat (length cs))).
    intros; lia. }
  destruct (fold_sum_zero
              (λ users : gmap string (list Client),
                 map_fold (λ _ cs t, (t + Z.of_nat (length cs))%Z) 0%Z users)
              (clients h)) as [Hpos Hzero].
  { intros users. apply Hin. }
  split; [done |]. rewrite Hzero. split.
  - intros Hall tk u. unfold listeners.
    destruct (clients h !! tk) as [users |] eqn:Htk; simpl; [| by rewrite lookup_empty].
    destruct (users !! u) as [l |] eqn:Hu; simpl; [| done].
    specialize (Hall tk users Htk).
    pose proof (proj1 (proj2 (Hin users)) Hall u l Hu) as Hl.
    destruct l; [done | simpl in Hl; lia].
  - intros Hall tk users Htk. apply (proj2 (Hin users)). intros u l Hu.
    rewrite <- (stored_listeners h tk u users l Htk Hu), Hall. done.
Qed.

Lemma Unregister_idem (c : Client) (h : Hub) :
  Unregister c (Unregister c h) = Unregister c h.
Proof.
  unfold Unregister at 2 3.
  destruct (clients h !! tenantKey c) as [users |] eqn:Htk.
  2: { unfold Unregister. by rewrite Htk. }
  unfold Unregister. cbn [clients next]. rewrite lookup_insert_eq, insert_insert_eq.
  destruct (filter (λ e, addr e ≠ addr c) (default [] (users !! userID c)))
    as [| x l] eqn:Hf.
  - rewrite lookup_delete_eq. simpl. by rewrite delete_delete_eq.
  - rewrite lookup_insert_eq. simpl.
    rewrite (filter_all (λ e, addr e ≠ addr c) (x :: l)).
    + by rewrite insert_insert_eq.
    + intros y Hy. rewrite <- Hf in Hy. by apply list_elem_of_filter in Hy as [? _].
Qed.

Lemma filter_addr_NoDup (a : N) (l : list Client) :
  NoDup (addr <$> l) → a ∈ addr <$> l →
  length (filter (λ e, addr e = a) l) = 1%nat.
Proof.
  induction l as [| c l IH]; intros Hnd Hin; [by apply elem_of_nil in Hin |].
  rewrite fmap_cons in Hnd, Hin. apply NoDup_cons in Hnd as [Hc Hnd].
  rewrite filter_cons. destruct (decide (addr c = a)) as [<- | Hne].
  - rewrite (filter_none (λ e, addr e = addr c) l); [done |].
    intros x Hx E. apply Hc. rewrite <- E. by apply list_elem_of_fmap_2.
  - apply elem_of_cons in Hin as [-> | Hin]; [done |]. by apply IH.
Qed.

Lemma Unregister_absent (c : Client) (h : Hub) :
  hub_wf h → addr c ∉ addr <$> listeners (tenantKey c) (userID c) h →
  Unregister c h = h.
Proof.
  intros Hwf Hout. unfold Unregister, listeners in *.
  destruct (clients h !! tenantKey c) as [users |] eqn:Htk; [| done].
  simpl in Hout.
  rewrite (filter_all (λ e, addr e ≠ addr c) (default [] (users !! userID c))).
  2: { intros x Hx E. apply Hout. rewrite <- E. by apply list_elem_of_fmap_2. }
  destruct (users !! userID c) as [l |] eqn:Hu; simpl.
  - destruct (Hwf _ _ _ _ Htk Hu) as (Hne & _). destruct l as [| x l]; [done |].
    rewrite (insert_id users) by done. rewrite insert_id by done. by destruct h.
  - rewrite delete_id by done. rewrite insert_id by done. by destruct h.
Qed.

(** X19.  [Hub.Unregister] removes from the list of the client's tenant and
    user the entries at the client's address and touches no other list; it
    never allocates; repeating it changes nothing.  On a hub built from
    [NewHub], unregistering a client that is registered lowers
    [ConnectedCount] by exactly one, and unregistering one that is not leaves
    the hub as it is. *)
Theorem Unregister_contract (cs : list call) (c : Client) :
  let h := run cs NewHub in
  (∀ tk u, listeners tk u (Unregister c h)
           = if decide (tk = tenantKey c ∧ u = userID c)
             then filter (λ e, addr e ≠ addr c) (listeners tk u h)
             else listeners tk u h)
  ∧ next (Unregister c h) = next h
  ∧ Unregister c (Unregister c h) = Unregister c h
  ∧ (addr c ∈ addr <$> listeners (tenantKey c) (userID c) h →
     ConnectedCount (Unregister c h) = (ConnectedCount h - 1)%Z)
  ∧ (addr c ∉ addr <$> listeners (tenantKey c) (userID c) h →
     Unregister c h = h).
Proof.
  intros h. pose proof (run_hub_wf cs NewHub NewHub_wf) as Hwf. fold h in Hwf.
  split; [| split; [| split; [| split]]].
  - intros tk u. apply listeners_Unregister.
  - unfold Unregister. by destruct (clients h !! tenantKey c).
  - apply Unregister_idem.
  - intros Hin. rewrite ConnectedCount_Unregister.
    destruct (listeners_wf h (tenantKey c) (userID c) Hwf) as [_ Hnd].
    by rewrite (filter_addr_NoDup _ _ Hnd Hin).
  - by apply Unregister_absent.
Qed.

(** X20.  A stream that opens and closes leaves the registry as it found it:
    on a hub built from [NewHub], [Unregister] of the client that [Register]
    has just returned restores every list, also the list of the same user
    when other streams of that user are open, and restores
    [ConnectedCount]. *)
Theorem Register_then_Unregister (cs : list call) (tk u : string) (ch : N) :
  let h := run cs NewHub in
  let c := fst (Register tk u ch h) in
  let h' := Unregister c (snd (Register tk u ch h)) in
  (∀ tk' u', listeners tk' u' h' = listeners tk' u' h)
  ∧ ConnectedCount h' = ConnectedCount h.
Proof.
  intros h c h'. subst c h'.
  pose proof (run_hub_wf cs NewHub NewHub_wf) as Hwf. fold h in Hwf.
  destruct (listeners_wf h tk u Hwf) as [Hall Hnd].
  assert (filter (λ e, addr e ≠ next h) (listeners tk u h) = listeners tk u h)
    as Hkeep.
  { apply filter_all. intros e He. rewrite Forall_forall in Hall.
    destruct (Hall e He) as (_ & _ & Hlt). lia. }
  assert (filter (λ e, addr e = next h) (listeners tk u h) = []) as Hnone.
  { apply filter_none. intros e He. rewrite Forall_forall in Hall.
    destruct (Hall e He) as (_ & _ & Hlt). lia. }
  split.
  - intros tk' u'. rewrite listeners_Unregister. cbn [fst Register tenantKey userID addr].
    rewrite listeners_Register. case_decide as Hd; [| done].
    destruct Hd as [-> ->]. rewrite filter_app, Hkeep.
    rewrite filter_cons, decide_False by (simpl; intros Hn; by apply Hn).
    rewrite filter_nil. by rewrite app_nil_r.
  - rewrite ConnectedCount_Unregister, ConnectedCount_Register.
    cbn [fst Register tenantKey userID addr].
    rewrite listeners_Register, decide_True by done.
    rewrite filter_app, Hnone. rewrite filter_cons, decide_True by done.
    simpl. lia.
Qed.

Lemma foldl_try_send (msg : string) (cs : list Client) (chs : channels) (ch : N) :
  foldl (λ chs c, try_send (send c) msg chs) chs cs !! ch
  = (λ c, mk_channel (capacity c)
            (buffer c
             ++ replicate
                  (length (filter (λ e, send e = ch) cs)
                   `min` (capacity c - length (buffer c)))
                  msg))
    <$> chs !! ch.
Proof.
  revert chs. induction cs as [| a cs IH]; intros chs.
  - simpl. destruct (chs !! ch) as [c |]; simpl; [| done].
    rewrite app_nil_r. by destruct c.
  - cbn [foldl]. rewrite IH, filter_cons. unfold try_send.
    destruct (decide (send a = ch)) as [E | Hne].
    + rewrite E. destruct (chs !! ch) as [c |] eqn:Hc; [| by rewrite Hc].
      destruct (decide (length (buffer c) < capacity c)%nat) as [Hroom | Hfull].
      * rewrite lookup_insert_eq. cbn [fmap option_fmap option_map capacity buffer].
        f_equal. f_equal. rewrite <- app_assoc. f_equal.
        rewrite length_app. cbn [length app].
        replace (S (length (filter (λ e, send e = ch) cs))
                 `min` (capacity c - length (buffer c)))%nat
          with (S (length (filter (λ e, send e = ch) cs)
                   `min` (capacity c - (length (buffer c) + 1))))%nat by lia.
        done.
      * rewrite Hc. cbn [fmap option_fmap option_map]. f_equal. f_equal. f_equal.
        replace (capacity c - length (buffer c))%nat with 0%nat by lia.
        by rewrite !Nat.min_0_r.
    + destruct (chs !! send a) as [c |] eqn:Hc; [| done].
      destruct (decide (length (buffer c) < capacity c)%nat); [| done].
      by rewrite lookup_insert_ne.
Qed.

(** X21.  What [Hub.Broadcast] does to every channel.  The registry is only
    read.  A channel receives the frame of the notification once for each
    client registered under the notification's tenant and user that sends to
    it, as long as its buffer has room: frames that do not fit are dropped,
    nothing already buffered is lost or reordered, and the capacity is never
    exceeded.  A channel no such client sends to is left as it is: a frame
    never reaches a stream opened under another tenant or user. *)
Theorem Broadcast_delivery (json_Marshal : domain.Notification.t → string)
    (tk u : string) (n : domain.Notification.t) (h : Hub) (chs : channels)
    (ch : N) :
  let chs' := Broadcast json_Marshal tk u n h chs in
  let frame := buildSSEMessage json_Marshal n in
  let addressed := length (filter (λ e, send e = ch) (listeners tk u h)) in
  chs' !! ch
  = (λ c, mk_channel (capacity c)
            (buffer c
             ++ replicate (addressed `min` (capacity c - length (buffer c)))
                  frame))
    <$> chs !! ch
  ∧ (addressed = 0%nat → chs' !! ch = chs !! ch)
  ∧ (∀ c c', chs !! ch = Some c → chs' !! ch = Some c' →
       (length (buffer c) ≤ capacity c → length (buffer c') ≤ capacity c')%nat).
Proof.
  intros chs' frame addressed.
  assert (chs' !! ch
          = (λ c, mk_channel (capacity c)
                    (buffer c
                     ++ replicate (addressed `min` (capacity c - length (buffer c)))
                          frame))
            <$> chs !! ch) as Hmain.
  { subst chs' addressed frame. unfold Broadcast, listeners.
    destruct (clients h !! tk) as [users |]; simpl.
    - destruct (default [] (users !! u)) as [| a cs] eqn:Hl.
      + simpl. destruct (chs !! ch) as [c |]; simpl; [| done].
        rewrite app_nil_r. by destruct c.
      + apply (foldl_try_send _ (a :: cs)).
    - rewrite lookup_empty. simpl. destruct (chs !! ch) as [c |]; simpl; [| done].
      rewrite app_nil_r. by destruct c. }
  split; [exact Hmain |]. split.
  - intros Hz. rewrite Hmain, Hz. destruct (chs !! ch) as [c |]; simpl; [| done].
    rewrite app_nil_r. by destruct c.
  - intros c c' Hc Hc'. rewrite Hmain, Hc in Hc'. simpl in Hc'.
    injection Hc' as <-. simpl. rewrite length_app, length_replicate. lia.
Qed.


End hub_registry.

(** ** From a Kafka record to a fan-out *)

Section event_pipeline.
Import domain.
Variable json_command : string → option handlers.command.t.
Variable json_tenantEnv : string → option handlers.tenantEnv.t.
Variable json_bpmEnv : string → option handlers.bpmEnv.t.
Variable json_iamEnv : string → option handlers.iamEnv.t.
Variable json_crmEnv : string → option handlers.crmEnv.t.

#[local] Arguments String.append !_ _ / : simpl nomatch.

Lemma key_inj (t1 e1 t2 e2 : string) :
  mentions ":" t1 = false → mentions ":" t2 = false →
  registry.key t1 e1 = registry.key t2 e2 → t1 = t2 ∧ e1 = e2.
Proof.
  unfold registry.key. revert t2.
  induction t1 as [| c1 t1 IH]; intros [| c2 t2] H1 H2 E; simpl in *.
  - injection E as ->. done.
  - injection E as <- _. by rewrite bool_decide_eq_true_2 in H2.
  - injection E as -> _. by rewrite bool_decide_eq_true_2 in H1.
  - injection E as -> E. apply orb_false_iff in H1 as [_ H1].
    apply orb_false_iff in H2 as [_ H2].
    destruct (IH t2 H1 H2 E) as [-> ->]. done.
Qed.

(** X22.  Registration and dispatch.  After [Register topic eventType h]
    returned without a panic, [Dispatch] on that topic hands every record
    whose probed event type is [eventType] to [h], and [DispatchDirect] does
    so when [eventType] is empty; a record that probes to another key is
    dispatched as before; registering the same topic and event type again
    panics.  The key determines topic and event type as long as topics hold
    no colon. *)
Theorem Register_then_Dispatch (json_probe : string → option string)
    (topic eventType : string) (h : registry.EventHandler)
    (mu mu' : gmap string registry.EventHandler) :
  registry.Register topic eventType h mu = Ok mu' →
  mu !! registry.key topic eventType = None
  ∧ (∀ data, json_probe data = Some eventType →
             registry.Dispatch json_probe mu' topic data = h data)
  ∧ (eventType = "" → ∀ data, registry.DispatchDirect mu' topic data = h data)
  ∧ (∀ topic' eventType' data,
       registry.key topic' eventType' ≠ registry.key topic eventType →
       (json_probe data = Some eventType' →
        registry.Dispatch json_probe mu' topic' data
        = registry.Dispatch json_probe mu topic' data)
       ∧ (eventType' = "" →
          registry.DispatchDirect mu' topic' data
          = registry.DispatchDirect mu topic' data))
  ∧ (∀ h', is_Err (registry.Register topic eventType h' mu') = true)
  ∧ (∀ topic' eventType',
       mentions ":" topic = false → mentions ":" topic' = false →
       registry.key topic' eventType' = registry.key topic eventType →
       topic' = topic ∧ eventType' = eventType).
Proof.
  unfold registry.Register.
  destruct (mu !! registry.key topic eventType) eqn:Hk; [done |].
  intros [= <-]. split; [done |]. split; [| split; [| split; [| split]]].
  - intros data Hp. unfold registry.Dispatch. by rewrite Hp, lookup_insert_eq.
  - intros -> data. unfold registry.DispatchDirect. by rewrite lookup_insert_eq.
  - intros topic' eventType' data Hne. split.
    + intros Hp. unfold registry.Dispatch. by rewrite Hp, lookup_insert_ne.
    + intros ->. unfold registry.DispatchDirect. by rewrite lookup_insert_ne.
  - intros h'. by rewrite lookup_insert_eq.
  - intros topic' eventType' H1 H2 E. by apply key_inj.
Qed.

(** Registering calls whose keys are distinct and unbound never panics and
    binds each key to its handler. *)
Lemma init_from (calls : list (string * string * registry.EventHandler))
    (mu : gmap string registry.EventHandler) :
  NoDup (fst <$> (binding <$> calls)) →
  (∀ k, k ∈ fst <$> (binding <$> calls) → mu !! k = None) →
  foldl (λ acc '(topic, eventType, h),
           match acc with
           | Err e => Err e
           | Ok mu_handlers => registry.Register topic eventType h mu_handlers
           end)
    (Ok mu) calls
  = Ok (list_to_map (binding <$> calls) ∪ mu).
Proof.
  revert mu. induction calls as [| [[t e] h] calls IH]; intros mu Hnd Hfree.
  - simpl. by rewrite (left_id_L ∅ (∪)).
  - rewrite !fmap_cons in Hnd, Hfree. apply NoDup_cons in Hnd as [Hk Hnd].
    cbn [foldl]. unfold registry.Register at 2.
    rewrite (Hfree (registry.key t e)) by (apply elem_of_cons; by left).
    rewrite IH.
    + rewrite fmap_cons. unfold binding at 2. cbn [fst snd].
      rewrite list_to_map_cons. f_equal.
      rewrite <- insert_union_l. rewrite <- insert_union_r; [done |].
      by apply not_elem_of_list_to_map_1.
    + done.
    + intros k Hin. rewrite lookup_insert_ne.
      * apply Hfree. apply elem_of_cons. by right.
      * intros <-. done.
Qed.

Lemma registrations_keys :
  fst <$> (binding <$> handlers.registrations json_command json_tenantEnv
                         json_bpmEnv json_iamEnv json_crmEnv)
  = ["bpm-events:TASK_ASSIGNED"; "bpm-events:TASK_COMPLETED";
     "bpm-events:APPROVAL_REQUIRED"; "iam-events:LOGIN_NEW_DEVICE";
     "iam-events:PASSWORD_CHANGED"; "crm-events:LEAD_STATUS_CHANGED";
     "crm-events:DEAL_UPDATED"; "notification-commands:";
     "tenant-events:TENANT_CREATED"; "tenant-events:TENANT_UPDATED";
     "tenant-events:TENANT_STATUS_UPDATED"; "tenant-events:TENANT_DELETED"].
Proof. reflexivity. Qed.

Lemma registrations_NoDup :
  NoDup (fst <$> (binding <$> handlers.registrations json_command json_tenantEnv
                                json_bpmEnv json_iamEnv json_crmEnv)).
Proof.
  rewrite registrations_keys.
  refine (bool_decide_unpack (NoDup _) _). vm_compute. exact I.
Qed.

Lemma init_registrations (calls : list (string * string * registry.EventHandler)) :
  calls ≡ₚ handlers.registrations json_command json_tenantEnv json_bpmEnv
             json_iamEnv json_crmEnv →
  handlers.init calls
  = Ok (list_to_map
          (binding <$> handlers.registrations json_command json_tenantEnv
                         json_bpmEnv json_iamEnv json_crmEnv)).
Proof.
  intros Hperm. unfold handlers.init. rewrite init_from.
  - rewrite (right_id_L ∅ (∪)). f_equal. apply list_to_map_proper.
    + rewrite Hperm. apply registrations_NoDup.
    + by rewrite Hperm.
  - rewrite Hperm. apply registrations_NoDup.
  - intros k _. apply lookup_empty.
Qed.

(** X23.  Package initialisation never panics, in whatever order the files
    of the package are initialised: the twelve registrations have twelve
    different keys, every order binds each key to its handler and yields the
    same table. *)
Theorem init_never_panics (calls : list (string * string * registry.EventHandler)) :
  calls ≡ₚ handlers.registrations json_command json_tenantEnv json_bpmEnv
             json_iamEnv json_crmEnv →
  ∃ mu, handlers.init calls = Ok mu
    ∧ handlers.init (handlers.registrations json_command json_tenantEnv
                       json_bpmEnv json_iamEnv json_crmEnv) = Ok mu
    ∧ size mu = 12%nat
    ∧ ∀ topic eventType h,
        (topic, eventType, h) ∈ calls →
        mu !! registry.key topic eventType = Some h.
Proof.
  intros Hperm. eexists. split; [by apply init_registrations |].
  split; [by apply init_registrations |]. split.
  - rewrite <- (length_map_to_list (M := gmap string)).
    rewrite map_to_list_to_map by apply registrations_NoDup.
    reflexivity.
  - intros topic eventType h Hin. apply elem_of_list_to_map_1.
    + apply registrations_NoDup.
    + rewrite <- Hperm. by apply (list_elem_of_fmap_2 binding) in Hin.
Qed.

Lemma scope_known (sc : string) :
  sc ∈ [ScopeUser; ScopeTenant; ScopePlatform; ScopeRole] →
  sc ∈ [ScopeUser; ScopeTenant; ScopeRole; ScopePlatform].
Proof. rewrite !elem_of_cons. tauto. Qed.

(** What a registered handler can return. *)
Lemma handlers_emit_cases (topic eventType : string) (h : registry.EventHandler)
    (data : string) (f : FanoutInput.t) :
  (topic, eventType, h)
    ∈ handlers.registrations json_command json_tenantEnv json_bpmEnv
        json_iamEnv json_crmEnv →
  h data = Some f →
  FanoutInput.TargetScope_ f ∈ [ScopeUser; ScopeTenant; ScopeRole; ScopePlatform]
  ∧ FanoutInput.Type_ f
      ∈ [TypeSystem; TypeWorkflow; TypeCRM; TypeIAM; TypeCustom]
  ∧ (topic ≠ "tenant-events" → FanoutInput.OriginUserID f = "")
  ∧ (topic ∈ ["bpm-events"; "iam-events"; "crm-events"] →
     FanoutInput.TargetScope_ f = ScopeUser)
  ∧ (topic ∈ ["bpm-events"; "crm-events"] → FanoutInput.TargetID f ≠ "")
  ∧ (topic = "tenant-events" →
     FanoutInput.TargetScope_ f = ScopeRole
     ∧ FanoutInput.TargetID f = "PLATFORM_ADMIN"
     ∧ FanoutInput.TenantKey f = "master"
     ∧ FanoutInput.Type_ f = TypeSystem).
Proof.
  intros Hin Hf. unfold handlers.registrations in Hin.
  repeat (apply elem_of_cons in Hin as [Hin | Hin]);
    [.. | by apply elem_of_nil in Hin]; injection Hin as -> -> ->.
  all: try (unfold handlers.handleTaskAssigned, handlers.handleTaskCompleted,
              handlers.handleApprovalRequired, handlers.parseBPMEnv in Hf;
            destruct (json_bpmEnv data) as [env |]; [| done];
            case_bool_decide; [done |]; injection Hf as <-).
  all: try (unfold handlers.handleLoginNewDevice, handlers.handlePasswordChanged,
              handlers.parseIAMEnv in Hf;
            destruct (json_iamEnv data) as [env |]; [| done]; injection Hf as <-).
  all: try (unfold handlers.handleLeadStatusChanged, handlers.handleDealUpdated,
              handlers.parseCRMEnv in Hf;
            destruct (json_crmEnv data) as [env |]; [| done];
            case_bool_decide; [done |]; injection Hf as <-).
  all: try (unfold handlers.handleTenantCreated, handlers.handleTenantUpdated,
              handlers.handleTenantStatusUpdated, handlers.handleTenantDeleted,
              handlers.parseTenantEnv in Hf;
            destruct (json_tenantEnv data) as [env |]; [| done];
            injection Hf as <-).
  all: try (unfold handlers.handleDirectCommand in Hf;
            destruct (json_command data) as [cmd |]; [| done];
            repeat case_bool_decide; try done; injection Hf as <-).
  all: cbn [FanoutInput.TargetScope_ FanoutInput.Type_ FanoutInput.OriginUserID
            FanoutInput.TargetID FanoutInput.TenantKey handlers.bpmFanout
            handlers.iamFanout handlers.crmFanout handlers.tenantFanout].
  all: repeat split; try done; try (by apply scope_known);
    try (intros _; done);
    try (intros Ht;
         repeat (apply elem_of_cons in Ht as [Ht | Ht]; [discriminate Ht |]);
         by apply elem_of_nil in Ht);
    try (by rewrite !elem_of_cons; repeat ((by left) || right)).
Qed.

(** X24.  Every request that a registered handler returns has one of the
    four scopes and one of the five types.  Requests from the BPM, IAM and
    CRM topics are addressed to a single user and carry no origin user, and
    those from the BPM and CRM topics always name a recipient; requests
    from the tenant topic go to the PLATFORM_ADMIN role of "master" as
    SYSTEM notifications; only they carry an origin user. *)
Theorem handlers_emit_valid_requests (topic eventType : string)
    (h : registry.EventHandler) (data : string) (f : FanoutInput.t) :
  (topic, eventType, h)
    ∈ handlers.registrations json_command json_tenantEnv json_bpmEnv
        json_iamEnv json_crmEnv →
  h data = Some f →
  FanoutInput.TargetScope_ f ∈ [ScopeUser; ScopeTenant; ScopeRole; ScopePlatform]
  ∧ FanoutInput.Type_ f
      ∈ [TypeSystem; TypeWorkflow; TypeCRM; TypeIAM; TypeCustom]
  ∧ (topic ≠ "tenant-events" → FanoutInput.OriginUserID f = "")
  ∧ (topic ∈ ["bpm-events"; "iam-events"; "crm-events"] →
     FanoutInput.TargetScope_ f = ScopeUser)
  ∧ (topic ∈ ["bpm-events"; "crm-events"] → FanoutInput.TargetID f ≠ "")
  ∧ (topic = "tenant-events" →
     FanoutInput.TargetScope_ f = ScopeRole
     ∧ FanoutInput.TargetID f = "PLATFORM_ADMIN"
     ∧ FanoutInput.TenantKey f = "master"
     ∧ FanoutInput.Type_ f = TypeSystem).
Proof. apply handlers_emit_cases. Qed.

Lemma registrations_topics (topic eventType : string) (h : registry.EventHandler) :
  (topic, eventType, h)
    ∈ handlers.registrations json_command json_tenantEnv json_bpmEnv
        json_iamEnv json_crmEnv →
  mentions ":" topic = false
  ∧ (eventType = "" → topic = "notification-commands").
Proof.
  intros Hin. unfold handlers.registrations in Hin.
  repeat (apply elem_of_cons in Hin as [Hin | Hin]);
    [.. | by apply elem_of_nil in Hin]; injection Hin as -> -> ->; done.
Qed.

(** The table after initialisation, read by topic and event type. *)
Lemma registered_lookup (mu : gmap string registry.EventHandler)
    (topic eventType : string) (h : registry.EventHandler) :
  handlers.init (handlers.registrations json_command json_tenantEnv json_bpmEnv
                   json_iamEnv json_crmEnv) = Ok mu →
  mentions ":" topic = false →
  mu !! registry.key topic eventType = Some h
  ↔ (topic, eventType, h)
      ∈ handlers.registrations json_command json_tenantEnv json_bpmEnv
          json_iamEnv json_crmEnv.
Proof.
  rewrite init_registrations by done. intros Hmu Htopic.
  assert (mu = list_to_map
                 (binding <$> handlers.registrations json_command json_tenantEnv
                                json_bpmEnv json_iamEnv json_crmEnv)) as ->
    by congruence.
  clear Hmu. split.
  - intros Hlk. apply elem_of_list_to_map_2 in Hlk.
    apply list_elem_of_fmap in Hlk as ([[t e] h'] & E & Hin).
    unfold binding in E. cbn [fst snd] in E. injection E as E <-.
    destruct (registrations_topics t e h Hin) as [Ht _].
    by destruct (key_inj topic eventType t e Htopic Ht E) as [-> ->].
  - intros Hin. apply elem_of_list_to_map_1; [apply registrations_NoDup |].
    by apply (list_elem_of_fmap_2 binding) in Hin.
Qed.

End event_pipeline.

Section record_processing.
Import domain.
Context {R : Type} `{application.IAMResolver R}.
Variable json_command : string → option handlers.command.t.
Variable json_tenantEnv : string → option handlers.tenantEnv.t.
Variable json_bpmEnv : string → option handlers.bpmEnv.t.
Variable json_iamEnv : string → option handlers.iamEnv.t.
Variable json_crmEnv : string → option handlers.crmEnv.t.

(** X25.  From a record to rows, on the table the package initialises.  A
    record of the BPM, IAM or CRM topic whose probed event type has a
    handler, and which that handler accepts, has exactly the effect of
    [Service.Create] on the one input it denotes: at most one row and one
    broadcast for the addressed user, none when the event id is already
    stored, and none when the driver cannot send the INSERT or the server
    rejects it.  A record for which no handler is registered, neither under
    its event type nor directly under its topic, leaves the service as it
    is. *)
Theorem process_record (json_probe : string → option string)
    (mu : gmap string registry.EventHandler)
    (order : gmap string (list string) → list (string * list string))
    (dbErr : option string) (now : Time) (topic value : string)
    (s : application.Service R) :
  handlers.init (handlers.registrations json_command json_tenantEnv json_bpmEnv
                   json_iamEnv json_crmEnv) = Ok mu →
  mentions ":" topic = false →
  (∀ m, order m ≡ₚ map_to_list m) →
  (∀ eventType h f,
     (topic, eventType, h)
       ∈ handlers.registrations json_command json_tenantEnv json_bpmEnv
           json_iamEnv json_crmEnv →
     topic ∈ ["bpm-events"; "iam-events"; "crm-events"] →
     json_probe value = Some eventType →
     h value = Some f →
     ∀ q, q = postgres.QueryError <$> dbErr ∨ q = postgres.RowsError <$> dbErr →
          kafka.process json_probe mu order q now topic value s
          = snd (application.Create dbErr now (single f) s))
  ∧ ((∀ h, (topic, "", h)
             ∉ handlers.registrations json_command json_tenantEnv json_bpmEnv
                 json_iamEnv json_crmEnv) →
     (∀ eventType h,
        json_probe value = Some eventType →
        (topic, eventType, h)
          ∉ handlers.registrations json_command json_tenantEnv json_bpmEnv
              json_iamEnv json_crmEnv) →
     ∀ q, kafka.process json_probe mu order q now topic value s = s).
Proof.
  intros Hinit Htopic Horder.
  pose proof (λ e h, registered_lookup json_command json_tenantEnv json_bpmEnv
                       json_iamEnv json_crmEnv mu topic e h Hinit Htopic) as Hlk.
  unfold kafka.process, registry.DispatchDirect, registry.Dispatch. split.
  - intros eventType h f Hin Ht Hp Hf q Hq.
    destruct (mu !! registry.key topic "") as [h0 |] eqn:Hd.
    { apply Hlk in Hd.
      destruct (registrations_topics _ _ _ _ _ _ _ _ Hd) as [_ Hdirect].
      rewrite (Hdirect eq_refl) in Ht.
      repeat (apply elem_of_cons in Ht as [Ht | Ht]; [discriminate Ht |]).
      by apply elem_of_nil in Ht. }
    rewrite Hp. apply Hlk in Hin as Hh. rewrite Hh, Hf.
    destruct (handlers_emit_cases _ _ _ _ _ _ _ _ _ _ Hin Hf)
      as (_ & _ & Horigin & Hscope & _).
    apply Fanout_USER_single; [by apply Hscope | | done | done].
    apply Horigin. intros ->.
    repeat (apply elem_of_cons in Ht as [Ht | Ht]; [discriminate Ht |]).
    by apply elem_of_nil in Ht.
  - intros Hdirect Htyped q.
    destruct (mu !! registry.key topic "") as [h0 |] eqn:Hd.
    { apply Hlk in Hd. by destruct (Hdirect h0). }
    destruct (json_probe value) as [e |]; [| done].
    destruct (mu !! registry.key topic e) as [h1 |] eqn:He; [| done].
    apply Hlk in He. by destruct (Htyped e h1).
Qed.

End record_processing.

Lemma Register_then_Dispatch_witness :
  registry.Dispatch (λ _, Some "TASK_ASSIGNED")
    (<[registry.key "bpm-events" "TASK_ASSIGNED" :=
         handlers.handleTaskAssigned (λ _, Some sample_bpmEnv)]> ∅)
    "bpm-events" "{}"
  = handlers.handleTaskAssigned (λ _, Some sample_bpmEnv) "{}".
Proof.
  destruct (Register_then_Dispatch (λ _, Some "TASK_ASSIGNED")
              "bpm-events" "TASK_ASSIGNED"
              (handlers.handleTaskAssigned (λ _, Some sample_bpmEnv)) ∅
              (<[registry.key "bpm-events" "TASK_ASSIGNED" :=
                   handlers.handleTaskAssigned (λ _, Some sample_bpmEnv)]> ∅))
    as (_ & Hd & _); [reflexivity |].
  apply Hd. reflexivity.
Defined.

Lemma init_never_panics_witness :
  ∃ mu,
    handlers.init
      (handlers.registrations (λ _, None) (λ _, None)
         (λ _, Some sample_bpmEnv) (λ _, None) (λ _, None)) = Ok mu
    ∧ size mu = 12%nat.
Proof.
  destruct (init_never_panics (λ _, None) (λ _, None) (λ _, Some sample_bpmEnv)
              (λ _, None) (λ _, None)
              (handlers.registrations (λ _, None) (λ _, None)
                 (λ _, Some sample_bpmEnv) (λ _, None) (λ _, None)))
    as (mu & H1 & _ & H2 & _).
  - reflexivity.
  - by exists mu.
Defined.

Lemma handlers_emit_valid_requests_witness :
  domain.FanoutInput.TargetScope_
    (handlers.bpmFanout sample_bpmEnv
       (fst (messages.TaskAssigned "Review" "Onboarding"))
       (snd (messages.TaskAssigned "Review" "Onboarding")))
  ∈ [domain.ScopeUser; domain.ScopeTenant; domain.ScopeRole; domain.ScopePlatform].
Proof.
  destruct (handlers_emit_valid_requests (λ _, None) (λ _, None)
              (λ _, Some sample_bpmEnv) (λ _, None) (λ _, None)
              "bpm-events" "TASK_ASSIGNED"
              (handlers.handleTaskAssigned (λ _, Some sample_bpmEnv)) "{}"
              (handlers.bpmFanout sample_bpmEnv
                 (fst (messages.TaskAssigned "Review" "Onboarding"))
                 (snd (messages.TaskAssigned "Review" "Onboarding"))))
    as (Hscope & _).
  - unfold handlers.registrations. apply elem_of_cons. by left.
  - reflexivity.
  - exact Hscope.
Defined.

Lemma process_record_witness :
  kafka.process (λ _, Some "TASK_ASSIGNED")
    (list_to_map
       (binding <$> handlers.registrations (λ _, None) (λ _, None)
                      (λ _, Some sample_bpmEnv) (λ _, None) (λ _, None)))
    map_to_list None 1%Z "bpm-events" "{}"
    (application.mk_Service postgres.empty_db [] admins)
  = snd (application.Create None 1%Z
           (single (handlers.bpmFanout sample_bpmEnv
                      (fst (messages.TaskAssigned "Review" "Onboarding"))
                      (snd (messages.TaskAssigned "Review" "Onboarding"))))
           (application.mk_Service postgres.empty_db [] admins)).
Proof.
  destruct (process_record (λ _, None) (λ _, None) (λ _, Some sample_bpmEnv)
              (λ _, None) (λ _, None) (λ _, Some "TASK_ASSIGNED")
              (list_to_map
                 (binding <$> handlers.registrations (λ _, None) (λ _, None)
                                (λ _, Some sample_bpmEnv) (λ _, None) (λ _, None)))
              map_to_list None 1%Z "bpm-events" "{}"
              (application.mk_Service postgres.empty_db [] admins))
    as [Htyped _].
  - apply init_registrations. reflexivity.
  - reflexivity.
  - intros m. reflexivity.
  - apply (Htyped "TASK_ASSIGNED"
             (handlers.handleTaskAssigned (λ _, Some sample_bpmEnv))).
    + unfold handlers.registrations. apply elem_of_cons. by left.
    + apply elem_of_cons. by left.
    + reflexivity.
    + reflexivity.
    + left. reflexivity.
Defined.

(** ** The authenticated group of the router *)

Section authenticated_group.
Context {World : Type}.
Variable http_Get : string → World → result string * World.
Variable Now : World → Time.
Variable decode_jwks : string → result (list (gmap string any)).
Variable ParseUnverified : string → result (gmap string any).
Variable jwt_Parse : string → option string.

(** What [JWTAuth] can answer, and what it touches. *)
Lemma JWTAuth_cases (keycloakBaseURL authHeader : string)
    (jwksCache : gmap string mw.cachedJWKS) (w : World) :
  match mw.JWTAuth http_Get Now decode_jwks ParseUnverified jwt_Parse
          keycloakBaseURL authHeader jwksCache w with
  | (mw.HTTPError code message, jwksCache', w') =>
      code = 401%Z
      ∧ (message ≠ "invalid token signature" → jwksCache' = jwksCache ∧ w' = w)
  | (mw.Next userID realm, _, _) =>
      realm ≠ ""
      ∧ strings.HasPrefix authHeader "Bearer " = true
      ∧ ∃ claims,
          ParseUnverified (strings.TrimPrefix authHeader "Bearer ") = Ok claims
          ∧ userID = as_string (claims !! "sub")
          ∧ realm = mw.extractRealm (as_string (claims !! "iss"))
  end.
Proof.
  unfold mw.JWTAuth.
  destruct (strings.HasPrefix authHeader "Bearer "); simpl; [| done].
  destruct (ParseUnverified (strings.TrimPrefix authHeader "Bearer "))
    as [claims | e]; [| done].
  case_bool_decide as Hrealm; [done |].
  destruct (mw.verifyWithJWKS _ _ _ _ _ _ _ _) as [[[u | e] c'] w'].
  - split; [done |]. split; [done |]. by exists claims.
  - split; [done |]. intros Hm. done.
Qed.

(** X26.  The middleware chain in front of every notification endpoint.  A
    request is refused only with status 401: once [JWTAuth] has accepted the
    token, [TenantResolver] finds a tenant (its 400 answer is unreachable
    behind [JWTAuth]) and [mustClaims] does not panic.  The handler then
    runs with the [sub] claim as user and, as tenant, the X-Tenant-Key
    header when the request has one, whatever realm issued the token, and
    that realm otherwise.  A request without a Bearer token is refused
    without any network access. *)
Theorem v1_contract (keycloakBaseURL authHeader xTenantKey : string)
    (jwksCache : gmap string mw.cachedJWKS) (w : World) :
  match router.v1 http_Get Now decode_jwks ParseUnverified jwt_Parse
          keycloakBaseURL authHeader xTenantKey jwksCache w with
  | (inl (code, message), jwksCache', w') =>
      code = 401%Z
      ∧ (message ≠ "invalid token signature" → jwksCache' = jwksCache ∧ w' = w)
  | (inr claims, _, _) =>
      ∃ token,
        ParseUnverified (strings.TrimPrefix authHeader "Bearer ") = Ok token
        ∧ mw.extractRealm (as_string (token !! "iss")) ≠ ""
        ∧ claims
          = Some (if bool_decide (xTenantKey = "")
                  then mw.extractRealm (as_string (token !! "iss"))
                  else xTenantKey,
                  as_string (token !! "sub"))
  end
  ∧ (strings.HasPrefix authHeader "Bearer " = false →
     router.v1 http_Get Now decode_jwks ParseUnverified jwt_Parse
       keycloakBaseURL authHeader xTenantKey jwksCache w
     = (inl (401%Z, "missing bearer token"), jwksCache, w)).
Proof.
  split.
  - unfold router.v1.
    pose proof (JWTAuth_cases keycloakBaseURL authHeader jwksCache w) as Hj.
    destruct (mw.JWTAuth _ _ _ _ _ _ _ _ _) as [[[code message | userID realm] c'] w'].
    + done.
    + destruct Hj as (Hrealm & _ & token & Htok & -> & ->).
      unfold mw.TenantResolver. rewrite lookup_insert_eq. cbn [as_string].
      assert ((if bool_decide (xTenantKey = "")
               then mw.extractRealm (as_string (token !! "iss"))
               else xTenantKey) ≠ "") as Hne.
      { case_bool_decide; done. }
      rewrite (bool_decide_eq_false_2 _ Hne).
      exists token. split; [done |]. split; [done |].
      unfold router.mustClaims. rewrite lookup_insert_eq.
      rewrite lookup_insert_ne by done. rewrite lookup_insert_ne by done.
      by rewrite lookup_insert_eq.
  - intros Hp. unfold router.v1, mw.JWTAuth. by rewrite Hp.
Qed.

End authenticated_group.

(** ** The resolver cache *)

Section resolver_cache.
Import keycloak.
Context {World : Type}.
Variable Do : Request → World → result Response * World.
Variable Now : World → Time.
Variable decode_token : string → result string.
Variable decode_users : string → result (list keycloakUser.t).
Variable decode_realms : string → result (list realmRep.t).

#[local] Arguments String.append !_ _ / : simpl nomatch.

Lemma fromCache_Some (r : Resolver) (k : string) (now : Time) (v : cached) :
  fromCache r k now = Some v
  ↔ ∃ e, cacheData r !! k = Some e ∧ data e = v ∧ (now ≤ expiresAt e)%Z.
Proof.
  unfold fromCache. destruct (cacheData r !! k) as [e |].
  - destruct (expiresAt e <? now)%Z eqn:Hexp.
    + apply Z.ltb_lt in Hexp. split; [done |].
      intros (e' & [= <-] & _ & Hle). lia.
    + apply Z.ltb_ge in Hexp. split.
      * intros [= <-]. by exists e.
      * intros (e' & [= <-] & <- & _). done.
  - split; [done |]. by intros (e & ? & _).
Qed.

Lemma fromCache_toCache (r : Resolver) (k : string) (v : cached) (t now : Time) :
  (now ≤ t + cacheTTL r)%Z → fromCache (toCache r k v t) k now = Some v.
Proof.
  intros Hle. apply fromCache_Some. eexists. unfold toCache. cbn [cacheData].
  rewrite lookup_insert_eq. split; [done |]. split; [done |]. done.
Qed.

(** What each call leaves of the resolver: the resolver itself, or the
    resolver with one entry stored under the key of the call. *)
Lemma UsersByTenant_resolver (r : Resolver) (tk : string) (w : World) :
  snd (fst (UsersByTenant Do Now decode_token decode_users r tk w)) = r
  ∨ ∃ ids t,
      snd (fst (UsersByTenant Do Now decode_token decode_users r tk w))
      = toCache r ("tenant:" +:+ tk) (CachedIDs ids) t.
Proof.
  unfold UsersByTenant.
  destruct (fromCache r _ _) as [[ids | m] |]; [by left | by left |].
  destruct (listUsers _ _ _ _ _ _) as [[users | e] w1]; [| by left].
  right. by eexists _, _.
Qed.

Lemma UsersByRole_resolver (r : Resolver) (tk role : string) (w : World) :
  snd (fst (UsersByRole Do Now decode_token decode_users r tk role w)) = r
  ∨ ∃ ids t,
      snd (fst (UsersByRole Do Now decode_token decode_users r tk role w))
      = toCache r ("role:" +:+ tk +:+ ":" +:+ role) (CachedIDs ids) t.
Proof.
  unfold UsersByRole.
  destruct (fromCache r _ _) as [[ids | m] |]; [by left | by left |].
  destruct (adminToken _ _ _ _) as [[token | e] w1]; [| by left].
  destruct (Do _ w1) as [[resp | e] w2]; [| by left].
  destruct (negb _); [by left |].
  destruct (decode_users _) as [users | e]; [| by left].
  right. by eexists _, _.
Qed.

Lemma AllActiveUsers_resolver (r : Resolver) (w : World) :
  snd (fst (AllActiveUsers Do Now decode_token decode_users decode_realms r w)) = r
  ∨ ∃ m t,
      snd (fst (AllActiveUsers Do Now decode_token decode_users decode_realms r w))
      = toCache r "platform" (CachedPlatform m) t.
Proof.
  unfold AllActiveUsers.
  destruct (fromCache r _ _) as [[ids | m] |]; [by left | by left |].
  destruct (adminToken _ _ _ _) as [[token | e] w1]; [| by left].
  destruct (Do _ w1) as [[resp | e] w2]; [| by left].
  destruct (decode_realms _) as [realms | e]; [| by left].
  destruct (eachRealm _ _ _ _ _ _ _) as [result w3].
  right. by eexists _, _.
Qed.

Lemma toCache_typed (r : Resolver) (k : string) (v : cached) (t : Time) :
  cache_typed r →
  match v with CachedPlatform _ => k = "platform" | CachedIDs _ => k ≠ "platform" end →
  cache_typed (toCache r k v t).
Proof.
  intros Hr Hv k' e. unfold toCache. cbn [cacheData].
  destruct (decide (k' = k)) as [-> | Hne].
  - rewrite lookup_insert_eq. intros [= <-]. done.
  - rewrite lookup_insert_ne by done. apply Hr.
Qed.

Lemma step_typed (c : call) (rw : Resolver * World) :
  cache_typed (fst rw) →
  cache_typed (fst (step Do Now decode_token decode_users decode_realms c rw))
  ∧ adminURL (fst (step Do Now decode_token decode_users decode_realms c rw))
    = adminURL (fst rw)
  ∧ adminRealm (fst (step Do Now decode_token decode_users decode_realms c rw))
    = adminRealm (fst rw)
  ∧ clientID (fst (step Do Now decode_token decode_users decode_realms c rw))
    = clientID (fst rw)
  ∧ clientSecret (fst (step Do Now decode_token decode_users decode_realms c rw))
    = clientSecret (fst rw)
  ∧ cacheTTL (fst (step Do Now decode_token decode_users decode_realms c rw))
    = cacheTTL (fst rw).
Proof.
  intros Hr. destruct rw as [r w]. cbn [fst snd] in *.
  destruct c as [tk | tk role |]; unfold step; cbn [fst snd].
  - pose proof (UsersByTenant_resolver r tk w) as Hc.
    destruct (UsersByTenant _ _ _ _ _ _ _) as [[res r'] w']. cbn [fst snd] in *.
    destruct Hc as [-> | (ids & t & ->)]; [done |].
    split; [| done]. by apply toCache_typed.
  - pose proof (UsersByRole_resolver r tk role w) as Hc.
    destruct (UsersByRole _ _ _ _ _ _ _ _) as [[res r'] w']. cbn [fst snd] in *.
    destruct Hc as [-> | (ids & t & ->)]; [done |].
    split; [| done]. by apply toCache_typed.
  - pose proof (AllActiveUsers_resolver r w) as Hc.
    destruct (AllActiveUsers _ _ _ _ _ _ _) as [[res r'] w']. cbn [fst snd] in *.
    destruct Hc as [-> | (m & t & ->)]; [done |].
    split; [| done]. by apply toCache_typed.
Qed.

(** X27.  The type assertions on cached values never fail.  In every
    resolver that [New] built and the three calls of the interface have
    used, in any order and against any identity provider, an unexpired
    entry under a tenant or role key holds a list of user ids and one under
    "platform" holds the platform map; the configuration of the resolver is
    as [New] set it, with a TTL of thirty seconds. *)
Theorem cache_never_mistyped (cs : list call)
    (url realm client secret : string) (w : World) :
  let r := fst (run Do Now decode_token decode_users decode_realms cs
                  (New url realm client secret, w)) in
  cache_typed r
  ∧ (∀ tk now, fromCache r ("tenant:" +:+ tk) now = None
               ∨ ∃ ids, fromCache r ("tenant:" +:+ tk) now = Some (CachedIDs ids))
  ∧ (∀ tk role now,
       fromCache r ("role:" +:+ tk +:+ ":" +:+ role) now = None
       ∨ ∃ ids, fromCache r ("role:" +:+ tk +:+ ":" +:+ role) now
                = Some (CachedIDs ids))
  ∧ (∀ now, fromCache r "platform" now = None
            ∨ ∃ m, fromCache r "platform" now = Some (CachedPlatform m))
  ∧ adminURL r = url ∧ adminRealm r = realm ∧ clientID r = client
  ∧ clientSecret r = secret ∧ cacheTTL r = (30 * 1000000000)%Z.
Proof.
  intros r.
  assert (cache_typed r ∧ adminURL r = url ∧ adminRealm r = realm
          ∧ clientID r = client ∧ clientSecret r = secret
          ∧ cacheTTL r = (30 * 1000000000)%Z) as (Ht & Hrest).
  { subst r. unfold run.
    assert (∀ rw, cache_typed (fst rw) ∧ adminURL (fst rw) = url
                  ∧ adminRealm (fst rw) = realm ∧ clientID (fst rw) = client
                  ∧ clientSecret (fst rw) = secret
                  ∧ cacheTTL (fst rw) = (30 * 1000000000)%Z →
                  let rw' := foldl (λ rw c, step Do Now decode_token decode_users
                                              decode_realms c rw) rw cs in
                  cache_typed (fst rw') ∧ adminURL (fst rw') = url
                  ∧ adminRealm (fst rw') = realm ∧ clientID (fst rw') = client
                  ∧ clientSecret (fst rw') = secret
                  ∧ cacheTTL (fst rw') = (30 * 1000000000)%Z) as Hrun.
    { induction cs as [| c cs' IH]; intros rw Hrw; [done |].
      cbn [foldl]. apply IH.
      destruct Hrw as (H0 & H1 & H2 & H3 & H4 & H5).
      destruct (step_typed c rw H0) as (G0 & G1 & G2 & G3 & G4 & G5).
      rewrite G1, G2, G3, G4, G5. done. }
    apply Hrun. cbn [fst]. split; [| done].
    intros k e Hk. simpl in Hk. by rewrite lookup_empty in Hk. }
  split; [done |]. split; [| split; [| split; [| done]]].
  - intros tk now.
    destruct (fromCache r ("tenant:" +:+ tk) now) as [[ids | m] |] eqn:Hc;
      [right; by exists ids | | by left].
    apply fromCache_Some in Hc as (e & Hk & Hd & _).
    specialize (Ht _ _ Hk). rewrite Hd in Ht. simpl in Ht. discriminate Ht.
  - intros tk role now.
    destruct (fromCache r ("role:" +:+ tk +:+ ":" +:+ role) now)
      as [[ids | m] |] eqn:Hc; [right; by exists ids | | by left].
    apply fromCache_Some in Hc as (e & Hk & Hd & _).
    specialize (Ht _ _ Hk). rewrite Hd in Ht. simpl in Ht. discriminate Ht.
  - intros now.
    destruct (fromCache r "platform" now) as [[ids | m] |] eqn:Hc;
      [| right; by exists m | by left].
    apply fromCache_Some in Hc as (e & Hk & Hd & _).
    specialize (Ht _ _ Hk). rewrite Hd in Ht. done.
Qed.

(** X28.  The cache of the resolver.  A call that fails leaves the resolver
    as it was: errors are not cached.  After a call that succeeded, the same
    call at any clock reading up to the expiry of the entry returns the same
    answer without contacting the identity provider and without changing the
    resolver; an entry that the call itself stored expires [cacheTTL] after
    the clock reading at which it was stored. *)
Theorem cache_contract (r : Resolver) (tk role : string) (w : World) :
  (∀ e r' w',
     UsersByTenant Do Now decode_token decode_users r tk w = (Err e, r', w') →
     r' = r)
  ∧ (∀ ids r' w',
       UsersByTenant Do Now decode_token decode_users r tk w = (Ok ids, r', w') →
       ∃ entry,
         cacheData r' !! ("tenant:" +:+ tk) = Some entry
         ∧ ((r' = r ∧ w' = w) ∨ expiresAt entry = (Now w' + cacheTTL r)%Z)
         ∧ ∀ w2, (Now w2 ≤ expiresAt entry)%Z →
                 UsersByTenant Do Now decode_token decode_users r' tk w2
                 = (Ok ids, r', w2))
  ∧ (∀ e r' w',
       UsersByRole Do Now decode_token decode_users r tk role w = (Err e, r', w') →
       r' = r)
  ∧ (∀ ids r' w',
       UsersByRole Do Now decode_token decode_users r tk role w = (Ok ids, r', w') →
       ∃ entry,
         cacheData r' !! ("role:" +:+ tk +:+ ":" +:+ role) = Some entry
         ∧ ((r' = r ∧ w' = w) ∨ expiresAt entry = (Now w' + cacheTTL r)%Z)
         ∧ ∀ w2, (Now w2 ≤ expiresAt entry)%Z →
                 UsersByRole Do Now decode_token decode_users r' tk role w2
                 = (Ok ids, r', w2))
  ∧ (∀ e r' w',
       AllActiveUsers Do Now decode_token decode_users decode_realms r w
       = (Err e, r', w') →
       r' = r)
  ∧ (∀ m r' w',
       AllActiveUsers Do Now decode_token decode_users decode_realms r w
       = (Ok m, r', w') →
       ∃ entry,
         cacheData r' !! "platform" = Some entry
         ∧ ((r' = r ∧ w' = w) ∨ expiresAt entry = (Now w' + cacheTTL r)%Z)
         ∧ ∀ w2, (Now w2 ≤ expiresAt entry)%Z →
                 AllActiveUsers Do Now decode_token decode_users decode_realms r' w2
                 = (Ok m, r', w2)).
Proof.
  split; [| split; [| split; [| split; [| split]]]].
  - intros e r' w'. unfold UsersByTenant.
    destruct (fromCache r _ _) as [[ids | m] |];
      [done | by intros [= _ <- _] |].
    destruct (listUsers _ _ _ _ _ _) as [[users | e'] w1]; [done |].
    by intros [= _ <- _].
  - intros ids r' w'. unfold UsersByTenant at 1.
    destruct (fromCache r _ _) as [[ids0 | m] |] eqn:Hc; [| done |].
    + intros [= <- <- <-].
      apply fromCache_Some in Hc as Hc'. destruct Hc' as (entry & Hk & Hd & Hle).
      exists entry. split; [done |]. split; [by left |].
      intros w2 Hw2. unfold UsersByTenant.
      assert (fromCache r ("tenant:" +:+ tk) (Now w2) = Some (CachedIDs ids0)) as ->;
        [| done].
      apply fromCache_Some. by exists entry.
    + destruct (listUsers _ _ _ _ _ _) as [[users | e'] w1]; [| done].
      intros [= <- <- <-]. eexists. unfold toCache at 1. cbn [cacheData].
      rewrite lookup_insert_eq. split; [done |]. split; [by right |].
      cbn [expiresAt]. intros w2 Hw2. unfold UsersByTenant.
      rewrite fromCache_toCache by done. done.
  - intros e r' w'. unfold UsersByRole.
    destruct (fromCache r _ _) as [[ids | m] |];
      [done | by intros [= _ <- _] |].
    destruct (adminToken _ _ _ _) as [[token | e'] w1];
      [| by intros [= _ <- _]].
    destruct (Do _ w1) as [[resp | e'] w2]; [| by intros [= _ <- _]].
    destruct (negb _); [by intros [= _ <- _] |].
    destruct (decode_users _) as [users | e']; [done | by intros [= _ <- _]].
  - intros ids r' w'. unfold UsersByRole at 1.
    destruct (fromCache r _ _) as [[ids0 | m] |] eqn:Hc; [| done |].
    + intros [= <- <- <-].
      apply fromCache_Some in Hc as Hc'. destruct Hc' as (entry & Hk & Hd & Hle).
      exists entry. split; [done |]. split; [by left |].
      intros w2 Hw2. unfold UsersByRole.
      assert (fromCache r ("role:" +:+ tk +:+ ":" +:+ role) (Now w2)
              = Some (CachedIDs ids0)) as ->; [| done].
      apply fromCache_Some. by exists entry.
    + destruct (adminToken _ _ _ _) as [[token | e'] w1]; [| done].
      destruct (Do _ w1) as [[resp | e'] w2]; [| done].
      destruct (negb _); [done |].
      destruct (decode_users _) as [users | e']; [| done].
      intros [= <- <- <-]. eexists. unfold toCache at 1. cbn [cacheData].
      rewrite lookup_insert_eq. split; [done |]. split; [by right |].
      cbn [expiresAt]. intros w3 Hw3. unfold UsersByRole.
      rewrite fromCache_toCache by done. done.
  - intros e r' w'. unfold AllActiveUsers.
    destruct (fromCache r _ _) as [[ids | m] |];
      [by intros [= _ <- _] | done |].
    destruct (adminToken _ _ _ _) as [[token | e'] w1];
      [| by intros [= _ <- _]].
    destruct (Do _ w1) as [[resp | e'] w2]; [| by intros [= _ <- _]].
    destruct (decode_realms _) as [realms | e']; [| by intros [= _ <- _]].
    by destruct (eachRealm _ _ _ _ _ _ _) as [result w3].
  - intros m r' w'. unfold AllActiveUsers at 1.
    destruct (fromCache r _ _) as [[ids0 | m0] |] eqn:Hc; [done | |].
    + intros [= <- <- <-].
      apply fromCache_Some in Hc as Hc'. destruct Hc' as (entry & Hk & Hd & Hle).
      exists entry. split; [done |]. split; [by left |].
      intros w2 Hw2. unfold AllActiveUsers.
      assert (fromCache r "platform" (Now w2) = Some (CachedPlatform m0)) as ->;
        [| done].
      apply fromCache_Some. by exists entry.
    + destruct (adminToken _ _ _ _) as [[token | e'] w1]; [| done].
      destruct (Do _ w1) as [[resp | e'] w2]; [| done].
      destruct (decode_realms _) as [realms | e']; [| done].
      destruct (eachRealm _ _ _ _ _ _ _) as [result w3].
      intros [= <- <- <-]. eexists. unfold toCache at 1. cbn [cacheData].
      rewrite lookup_insert_eq. split; [done |]. split; [by right |].
      cbn [expiresAt]. intros w4 Hw4. unfold AllActiveUsers.
      rewrite fromCache_toCache by done. done.
Qed.

End resolver_cache.
